(** * content_creator: scene validation, rate-limited image batches,
    retry pass and the spreadsheet writer

  A shallow embedding of the control logic of

  - [sceneCreator.py]  ([Result.validate_18_scenes]),
  - [imgCreator.py]    ([generate_image], [generate_scene_image],
                        [generate_all_scenes_with_rate_limit]),
  - [streamlit_image_handler.py] ([StreamlitImageHandler]),
  - the spreadsheet script ([col_num_to_letter] and the collection,
    sorting and write-back part of
    [analyze_data_with_ai_and_update_sheet]).

  Python dictionaries are [gmap]s, or association lists where the code
  iterates over them in insertion order; [int]s are [Z]; f-strings are
  built with [+:+] and stdpp's decimal [pretty].  Everything outside the
  process (the image API, HTTP, the file system, the clock, [sleep],
  [print]) is an entry of a chronological [history]; what the outside
  world answers is given by an environment that may look at the whole
  history so far. *)

From Equations Require Import Equations.
From Stdlib Require Import ZArith String Ascii List Lia.
From stdpp Require Import base gmap list strings pretty sorting.

Local Open Scope string_scope.
Local Open Scope list_scope.
Local Open Scope Z_scope.

(** ** Python values that every module shares *)

Module Py.

(** The exceptions the modelled code raises itself, and one constructor
    for whatever a collaborator (SDK, [requests], [open]) raises.  All
    of them are subclasses of [Exception]. *)
Inductive exn : Type :=
| ValueError (msg : string)
| KeyError (key : string)
| Exception (msg : string)
| ExternalError (msg : string).

Inductive outcome (A : Type) : Type :=
| Return (a : A)
| Raise (e : exn).
Arguments Return {A} a.
Arguments Raise {A} e.

(** [range(a, b)] *)
Definition range (a b : Z) : list Z := seqZ a (b - a).

(** [str(e)] for an exception, as used by [f"... {e}"].  [str] of a
    [KeyError] is the [repr] of its key. *)
Definition str_exn (e : exn) : string :=
  match e with
  | ValueError m => m
  | KeyError k => "'" +:+ k +:+ "'"
  | Exception m => m
  | ExternalError m => m
  end.

(** [str(x)] for an [Optional[str]] *)
Definition str_opt (x : option string) : string :=
  match x with
  | Some s => s
  | None => "None"
  end.

(** Truthiness of an [Optional[str]]: [None] and [""] are falsy. *)
Definition truthy (x : option string) : bool :=
  match x with
  | Some s => negb (String.eqb s EmptyString)
  | None => false
  end.

End Py.
Export Py.

(** ** sceneCreator.py *)

Module sceneCreator.

Record Scene : Type := { script : string; main_keyword : string }.

(** [f"scene_{i}"] *)
Definition scene_key (i : Z) : string := "scene_" +:+ pretty i.

(** The loop [for i in range(1, 19): if scene_key not in v: raise ...]
    over an explicit list of indices. *)
Fixpoint require_scenes (idxs : list Z) (v : gmap string Scene)
  : outcome (gmap string Scene) :=
  match idxs with
  | [] => Return v
  | i :: rest =>
      match v !! scene_key i with
      | None => Raise (ValueError ("Missing required scene: " +:+ scene_key i))
      | Some _ => require_scenes rest v
      end
  end.

Definition validate_18_scenes (v : gmap string Scene)
  : outcome (gmap string Scene) :=
  if decide (size v ≠ 18%nat)
  then Raise (ValueError ("Must have exactly 18 scenes, got " +:+ pretty (size v)))
  else require_scenes (range 1 19) v.

(** The key set [scene_1 .. scene_18]. *)
Definition required_keys : gset string :=
  list_to_set (scene_key <$> range 1 19).

End sceneCreator.

(** ** The outside world *)

Module World.

(** The scenes file as [json.load] returns it: JSON objects all the way
    down, a top-level object whose ['scenes'] entry maps scene keys to
    scene objects.  A JSON object is a Python dictionary, which keeps
    the order of the file; it is an association list here, looked up by
    key with [dict_get] ([json.load] leaves no key twice). *)
Abbreviation scene_obj := (list (string * string)).
Abbreviation scenes_dict := (list (string * list (string * string))).
Abbreviation scenes_file :=
  (list (string * list (string * list (string * string)))).

Inductive event : Type :=
| EvPrint (line : string)
| EvMakedirs (path : string)
| EvLoadJson (path : string)
| EvNow
| EvImagesGenerate (model prompt : string)
| EvHttpGet (url : string)
| EvFileWrite (path content : string)
| EvSleep (seconds : Z)
| EvCreateSingleImage (prompt output_dir quality size style : string)
| EvSt (widget text : string)
| EvRowValues (row : Z)
| EvResizeColumns (column_count : Z)
| EvUpdateCell (row col : Z) (value : string)
| EvValuesBatchUpdate (data : list (string * string))
| EvPrintItem (label : string) (item : string * string).

#[global] Instance event_eq_dec : EqDecision event.
Proof. solve_decision. Defined.

(** Chronological: the oldest event first. *)
Abbreviation history := (list event).

(** What the collaborators answer, given everything that happened
    before the call.  [create_single_image] is imported by
    [streamlit_image_handler.py] from [imgCreator], whose source does
    not define it: it is taken as a collaborator returning an
    [Optional[str]].  [st_image] is [st.image] on a path: it opens the
    image file to show it, and raises when it cannot. *)
Record env : Type := {
  makedirs : history → string → outcome unit;
  json_load : history → string → outcome scenes_file;
  now_strftime : history → string;
  images_generate : history → string → string → outcome string;
  requests_get : history → string → outcome (Z * string);
  file_write : history → string → string → outcome unit;
  create_single_image :
    history → string → string → string → string → string →
    outcome (option string);
  st_image : history → string → outcome unit;
}.

(** Programs thread the history and may raise. *)
Definition M (A : Type) : Type := history → history * outcome A.

Definition ret {A} (a : A) : M A := λ h, (h, Return a).
Definition raise {A} (e : exn) : M A := λ h, (h, Raise e).
Definition bind {A B} (m : M A) (k : A → M B) : M B :=
  λ h, match m h with
       | (h', Return a) => k a h'
       | (h', Raise e) => (h', Raise e)
       end.

(** [try: body  except Exception as e: handler e] *)
Definition try_except {A} (body : M A) (handler : exn → M A) : M A :=
  λ h, match body h with
       | (h', Return a) => (h', Return a)
       | (h', Raise e) => handler e h'
       end.

(** An effect without an answer, and a call whose answer the
    environment gives from the history before the call. *)
Definition emit (e : event) : M unit := λ h, (h ++ [e], Return tt).
Definition call {A} (e : event) (answer : history → outcome A) : M A :=
  λ h, (h ++ [e], answer h).

Definition print (line : string) : M unit := emit (EvPrint line).
Definition sleep (seconds : Z) : M unit := emit (EvSleep seconds).

(** [k in d] and [d[k]] on a dictionary; [d[k]] raises [KeyError]
    when the key is absent. *)
Fixpoint dict_get {V} (d : list (string * V)) (k : string) : option V :=
  match d with
  | [] => None
  | (k', v) :: d' => if decide (k' = k) then Some v else dict_get d' k
  end.
Definition subscript {V} (d : list (string * V)) (k : string) : M V :=
  match dict_get d k with
  | Some v => ret v
  | None => raise (KeyError k)
  end.

(** [for a in l: s = body a s] *)
Fixpoint for_loop {A S} (body : A → S → M S) (l : list A) (s : S) : M S :=
  match l with
  | [] => ret s
  | a :: l' => bind (body a s) (for_loop body l')
  end.

(** The same for a loop whose body may [break]. *)
Inductive flow (S : Type) : Type :=
| Continue (s : S)
| Break (s : S).
Arguments Continue {S} s.
Arguments Break {S} s.

Fixpoint for_loop_break {A S} (body : A → S → M (flow S))
    (l : list A) (s : S) : M S :=
  match l with
  | [] => ret s
  | a :: l' =>
      bind (body a s) (λ r,
        match r with
        | Break s' => ret s'
        | Continue s' => for_loop_break body l' s'
        end)
  end.

(** Seconds slept in a history. *)
Definition slept (h : history) : Z :=
  foldr (λ e acc, match e with EvSleep s => s + acc | _ => acc end) 0 h.

End World.
Export World.

Notation "'let!' x ':=' m 'in' k" := (bind m (λ x, k))
  (at level 10, x pattern, m at level 100, k at level 200, only parsing).
Notation "'do!' m 'in' k" := (bind m (λ _, k))
  (at level 10, m at level 100, k at level 200, only parsing).

(** ** imgCreator.py *)

Module imgCreator.

Definition nl : string := String "010" EmptyString.

(** [f"scene_{n}"] *)
Definition scene_key (n : Z) : string := "scene_" +:+ pretty n.

(** [os.path.join(a, b)] for a relative [b]. *)
Definition path_join (a b : string) : string :=
  if decide (a = EmptyString) then b
  else if String.eqb (substring (String.length a - 1) 1 a) "/"
       then a +:+ b
       else a +:+ "/" +:+ b.

(** [s.replace(old, '')]: every non-overlapping occurrence of [old],
    scanning from the left, is dropped.  [skip] counts the characters
    of a match that are still to be dropped. *)
Fixpoint remove_go (old : string) (skip : nat) (s : string) : string :=
  match s with
  | EmptyString => EmptyString
  | String c s' =>
      match skip with
      | S k => remove_go old k s'
      | O =>
          if String.prefix old s
          then remove_go old (String.length old - 1) s'
          else String c (remove_go old O s')
      end
  end.
Definition str_remove (old s : string) : string :=
  if decide (old = EmptyString) then s else remove_go old O s.

(** The f-string [image_prompt] of [generate_image]. *)
Definition image_prompt (all_scenes : string) (selected_scene : Z)
    (scene_script scene_keyword : string) : string :=
  "Create a webtoon/manhwa style illustration for scene "
  +:+ pretty selected_scene +:+ " of an advertising comic.

    CONTEXT - Full Story Flow:
    " +:+ all_scenes +:+ "

    CURRENT SCENE (" +:+ pretty selected_scene +:+ "):
    Script: " +:+ scene_script +:+ "
    Main Keyword: " +:+ scene_keyword +:+ "

    VISUAL REQUIREMENTS:
    - Korean webtoon/manhwa art style with clean lines and vibrant colors
    - Single panel comic book illustration
    - Character should be relatable Korean person (20s-40s)
    - Focus on the emotion and situation described in the script
    - Include visual elements that match the main keyword
    - Composition should work well in vertical mobile format
    - Use appropriate lighting and mood for the scene's emotional tone
    - Show clear facial expressions and body language
    - Include relevant background elements that support the story

    SCENE POSITION CONTEXT:
    - This is scene " +:+ pretty selected_scene +:+ " out of 18 total scenes
    - Maintain visual consistency with the overall advertising narrative
    - Character appearance should be consistent throughout the story

    Style: Clean Korean webtoon art, professional quality, detailed illustration, expressive characters, advertising comic aesthetic.".

(** The first statement of [generate_image]: the default output file
    name carries the scene number and the current time. *)
Definition resolve_output_filename (E : env) (selected_scene : Z)
    (output_filename : option string) : M string :=
  match output_filename with
  | Some f => ret f
  | None =>
      let! stamp := call EvNow (λ h, Return (now_strftime E h)) in
      ret ("scene_" +:+ pretty selected_scene +:+ "_" +:+ stamp +:+ ".png")
  end.

(** [generate_image].  Building the client, [client.images.generate]
    and reading [response.data[0].url] are one call of the
    environment; [requests.get] answers with the status code and the
    body; [open] and [write] are one file write.  A status other than
    200 falls off the end of the function, which returns [None]. *)
Definition generate_image (E : env) (all_scenes : string)
    (selected_scene : Z) (scene_script scene_keyword : string)
    (output_filename : option string) (model : string)
  : M (option string) :=
  let! output_filename :=
    resolve_output_filename E selected_scene output_filename in
  let image_prompt :=
    image_prompt all_scenes selected_scene scene_script scene_keyword in
  let! image_url :=
    call (EvImagesGenerate model image_prompt)
         (λ h, images_generate E h model image_prompt) in
  let! image_response :=
    call (EvHttpGet image_url) (λ h, requests_get E h image_url) in
  if decide (image_response.1 = 200) then
    do! call (EvFileWrite output_filename image_response.2)
             (λ h, file_write E h output_filename image_response.2) in
    ret (Some output_filename)
  else ret None.

Definition load_scenes_from_json (E : env) (json_file_path : string)
  : M scenes_file :=
  call (EvLoadJson json_file_path) (λ h, json_load E h json_file_path).

Definition create_all_scenes_context (scenes_data : scenes_file)
  : M string :=
  let! scenes := subscript scenes_data "scenes" in
  for_loop
    (λ '(scene_key, scene_data) context,
       let scene_num := str_remove "scene_" scene_key in
       let! script := subscript scene_data "script" in
       let! main_keyword := subscript scene_data "main_keyword" in
       ret (context +:+ "Scene " +:+ scene_num +:+ ": " +:+ script
                    +:+ " (키워드: " +:+ main_keyword +:+ ")" +:+ nl))
    scenes
    ("COMPLETE STORY CONTEXT (All 18 Scenes):" +:+ nl).

Definition generate_scene_image (E : env) (json_file_path : string)
    (scene_number : Z) (output_dir : string) : M (option string) :=
  let! scenes_data := load_scenes_from_json E json_file_path in
  if decide (scene_number < 1 ∨ scene_number > 18) then
    raise (ValueError "Scene number must be between 1 and 18")
  else
    let scene_key := scene_key scene_number in
    let! scenes := subscript scenes_data "scenes" in
    match dict_get scenes scene_key with
    | None =>
        raise (ValueError ("Scene " +:+ pretty scene_number
                           +:+ " not found in the data"))
    | Some scene_data =>
        let! scene_script := subscript scene_data "script" in
        let! scene_keyword := subscript scene_data "main_keyword" in
        let! all_scenes_context := create_all_scenes_context scenes_data in
        let output_filename :=
          path_join output_dir ("scene_" +:+ pretty scene_number +:+ ".png") in
        generate_image E all_scenes_context scene_number scene_script
          scene_keyword (Some output_filename) "dall-e-3"
    end.

(** The statements of the [try] block of
    [generate_all_scenes_with_rate_limit] from the lookup of the scene
    to the call of [generate_image]. *)
Definition scene_attempt (E : env) (scenes_data : scenes_file)
    (all_scenes_context output_dir : string) (scene_num : Z)
  : M (option string) :=
  let scene_key := scene_key scene_num in
  let! scenes := subscript scenes_data "scenes" in
  let! scene_data := subscript scenes scene_key in
  let! scene_script := subscript scene_data "script" in
  let! scene_keyword := subscript scene_data "main_keyword" in
  let output_filename :=
    path_join output_dir ("scene_" +:+ pretty scene_num +:+ ".png") in
  generate_image E all_scenes_context scene_num scene_script
    scene_keyword (Some output_filename) "dall-e-3".

(** One iteration of the loop: the [try] block, with the sleep as its
    last statement, and the [except Exception] handler. *)
Definition scene_iteration (E : env) (scenes_data : scenes_file)
    (all_scenes_context output_dir : string)
    (scene_num : Z) (results : gmap Z (option string))
  : M (gmap Z (option string)) :=
  try_except
    (do! print ("🎨 Processing Scene " +:+ pretty scene_num +:+ "/18...") in
     let! image_path :=
       scene_attempt E scenes_data all_scenes_context output_dir scene_num in
     let results := <[scene_num := image_path]> results in
     do! print ("✅ Scene " +:+ pretty scene_num +:+ " completed: "
                +:+ str_opt image_path) in
     do! (if decide (scene_num < 18) then
            do! print "⏳ Waiting 12 seconds to respect rate limit..." in
            sleep 12
          else ret tt) in
     ret results)
    (λ e,
       do! print ("❌ Scene " +:+ pretty scene_num +:+ " failed: "
                  +:+ str_exn e) in
       ret (<[scene_num := None]> results)).

Definition generate_all_scenes_with_rate_limit (E : env)
    (json_file_path output_dir : string) : M (gmap Z (option string)) :=
  do! call (EvMakedirs output_dir) (λ h, makedirs E h output_dir) in
  let results : gmap Z (option string) := ∅ in
  let! scenes_data := load_scenes_from_json E json_file_path in
  let! all_scenes_context := create_all_scenes_context scenes_data in
  do! print "⏱️  Processing with rate limit: 5 images per minute (12 second intervals)" in
  for_loop (scene_iteration E scenes_data all_scenes_context output_dir)
    (range 1 19) results.

End imgCreator.

(** ** streamlit_image_handler.py *)

Module streamlit_image_handler.

(** The handler's attributes that the modelled methods read.  Of
    Streamlit, the calls that put a line on the page ([st.write],
    [st.info], [st.success], [st.warning]) are events, and [st.image],
    which opens the file it shows, is a call that may raise;
    containers, progress bars, status boxes and the handler's log queue
    only display and are left out. *)
Record StreamlitImageHandler : Type := { rate_limit_delay : Z }.

(** [__init__] *)
Definition init : StreamlitImageHandler := {| rate_limit_delay := 12 |}.

Definition st (widget text : string) : M unit := emit (EvSt widget text).

(** [for i in range(self.rate_limit_delay): ... time.sleep(1)] *)
Definition handle_rate_limit (self : StreamlitImageHandler) : M unit :=
  for_loop (λ _ _, sleep 1) (range 0 (rate_limit_delay self)) tt.

(** [st.image(result, caption=...)] *)
Definition preview_image (E : env) (path : string) : M unit :=
  call (EvSt "image" path) (λ h, st_image E h path).

(** The [try] block shows the image of a truthy result and returns the
    result, and raises on a falsy one; the handler turns every
    exception, that of the preview included, into [None]. *)
Definition create_single_image_with_progress (E : env)
    (prompt output_dir quality size style : string) : M (option string) :=
  try_except
    (let! result :=
       call (EvCreateSingleImage prompt output_dir quality size style)
            (λ h, create_single_image E h prompt output_dir quality size style) in
     match result with
     | Some path =>
         if truthy result then
           do! preview_image E path in
           ret result
         else raise (Exception "이미지 생성 실패")
     | None => raise (Exception "이미지 생성 실패")
     end)
    (λ _, ret None).

(** [enumerate(l)] *)
Definition enumerate {A} (l : list A) : list (Z * A) :=
  zip (seqZ 0 (Z.of_nat (length l))) l.

Definition count_success (results : list (option string)) : nat :=
  length (filter (λ r, r ≠ None) results).

(** The body of the loop of [create_multiple_images_with_progress]. *)
Definition multiple_iteration (self : StreamlitImageHandler) (E : env)
    (total_prompts : nat) (output_dir quality size style : string)
    (item : Z * string) (results : list (option string))
  : M (list (option string)) :=
  let '(idx, prompt) := item in
  do! st "write" ("**이미지 " +:+ pretty (idx + 1) +:+ "/"
                  +:+ pretty total_prompts +:+ "**") in
  do! (if decide (idx > 0) then handle_rate_limit self else ret tt) in
  let! result :=
    create_single_image_with_progress E prompt output_dir
      quality size style in
  let results := results ++ [result] in
  let success_count := count_success results in
  let fail_count := (length results - success_count)%nat in
  do! st "info" ("✅ 성공: " +:+ pretty success_count
                 +:+ " | ❌ 실패: " +:+ pretty fail_count) in
  ret results.

Definition create_multiple_images_with_progress
    (self : StreamlitImageHandler) (E : env) (prompts : list string)
    (output_dir quality size style : string) : M (list (option string)) :=
  let total_prompts := length prompts in
  for_loop
    (multiple_iteration self E total_prompts output_dir quality size style)
    (enumerate prompts) [].

(** The body of the inner loop of [retry_failed_images]; its state is
    [remaining_failures] and [retry_results]. *)
Definition retry_attempt (self : StreamlitImageHandler) (E : env)
    (output_dir quality size style : string) (item : Z * string)
    (s : list (Z * string) * gmap Z (option string))
  : M (list (Z * string) * gmap Z (option string)) :=
  let '(idx, prompt) := item in
  let '(remaining_failures, retry_results) := s in
  do! (if decide (0 < base.size retry_results)%nat
       then handle_rate_limit self else ret tt) in
  do! st "write" ("재시도: 이미지 #" +:+ pretty (idx + 1)) in
  let! result :=
    create_single_image_with_progress E prompt output_dir
      quality size style in
  if truthy result
  then ret (remaining_failures, <[idx := result]> retry_results)
  else ret (remaining_failures ++ [(idx, prompt)], retry_results).

(** The inner loop over the items that are still failed. *)
Definition retry_round (self : StreamlitImageHandler) (E : env)
    (output_dir quality size style : string)
    (failed_prompts : list (Z * string))
    (retry_results : gmap Z (option string))
  : M (list (Z * string) * gmap Z (option string)) :=
  for_loop (retry_attempt self E output_dir quality size style)
    failed_prompts ([], retry_results).

(** The body of [for retry_num in range(max_retries)], with its two
    [break]s. *)
Definition retry_iteration (self : StreamlitImageHandler) (E : env)
    (output_dir quality size style : string) (max_retries : Z)
    (retry_num : Z) (s : list (Z * string) * gmap Z (option string))
  : M (flow (list (Z * string) * gmap Z (option string))) :=
  let '(failed_prompts, retry_results) := s in
  if decide (failed_prompts = []) then ret (Break s)
  else
    do! st "write" ("**재시도 " +:+ pretty (retry_num + 1) +:+ "/"
                    +:+ pretty max_retries +:+ "**") in
    let! (remaining_failures, retry_results) :=
      retry_round self E output_dir quality size style
        failed_prompts retry_results in
    let failed_prompts := remaining_failures in
    if decide (failed_prompts = []) then
      do! st "success" "✅ 모든 이미지 재시도 성공!" in
      ret (Break (failed_prompts, retry_results))
    else
      do! st "warning" ("⚠️ " +:+ pretty (length failed_prompts)
                        +:+ "개 이미지 여전히 실패") in
      ret (Continue (failed_prompts, retry_results)).

Definition retry_failed_images (self : StreamlitImageHandler) (E : env)
    (failed_prompts : list (Z * string))
    (output_dir quality size style : string) (max_retries : Z)
  : M (gmap Z (option string)) :=
  let retry_results : gmap Z (option string) := ∅ in
  do! st "write" "### 🔄 실패한 이미지 재시도" in
  let! s :=
    for_loop_break
      (retry_iteration self E output_dir quality size style max_retries)
      (range 0 max_retries) (failed_prompts, retry_results) in
  ret s.2.

(** [results[idx] = value] on a list: a negative index counts from the
    end, an index outside the list raises [IndexError] (an exception of
    the interpreter, carried by [ExternalError] here). *)
Definition list_setitem {A} (l : list A) (idx : Z) (value : A)
  : outcome (list A) :=
  let n := Z.of_nat (length l) in
  if decide (0 ≤ idx < n) then Return (<[Z.to_nat idx := value]> l)
  else if decide (- n ≤ idx < 0) then Return (<[Z.to_nat (n + idx) := value]> l)
  else Raise (ExternalError "list assignment index out of range").

(** The value of [success / total * 100]: a float, kept as the quotient
    it is computed from; [0] when there are no results. *)
Inductive rate : Type :=
| RateZero
| RateOf (success total : Z).

(** The dictionary that [get_generation_summary] returns. *)
Record summary : Type := {
  sum_total : Z;
  sum_success : Z;
  sum_failed : Z;
  sum_success_rate : rate;
  sum_generated_files : list string;
}.

Definition get_generation_summary (results : list (option string))
  : summary :=
  let total := Z.of_nat (length results) in
  let success := Z.of_nat (length (filter (λ r, r ≠ None) results)) in
  let failed := total - success in
  {| sum_total := total;
     sum_success := success;
     sum_failed := failed;
     sum_success_rate :=
       if decide (total > 0) then RateOf success total else RateZero;
     sum_generated_files := omap id results |}.

(** An entry of the report's [details]. *)
Record detail : Type := {
  detail_index : Z;
  detail_prompt : string;
  detail_result : option string;
  detail_status : string;
}.

(** The report that [save_generation_report] writes. *)
Record report : Type := {
  report_timestamp : string;
  report_settings : list (string * string);
  report_summary : summary;
  report_details : list detail;
}.

(** The loop of [save_generation_report] over
    [enumerate(zip(prompts, results))]. *)
Definition details_of (prompts : list string) (results : list (option string))
  : list detail :=
  (λ '(idx, (prompt, result)),
     {| detail_index := idx + 1;
        detail_prompt := prompt;
        detail_result := result;
        detail_status := if truthy result then "success" else "failed" |})
    <$> enumerate (zip prompts results).

(** [save_generation_report].  The clock answers with the formatted
    time; [json.dump], a library function, is the parameter
    [json_dump]; [open] and the dump are one file write. *)
Definition save_generation_report (json_dump : report → string) (E : env)
    (output_dir : string) (prompts : list string)
    (results : list (option string)) (settings : list (string * string))
  : M string :=
  let! timestamp := call EvNow (λ h, Return (now_strftime E h)) in
  let report :=
    {| report_timestamp := timestamp;
       report_settings := settings;
       report_summary := get_generation_summary results;
       report_details := details_of prompts results |} in
  let report_path :=
    imgCreator.path_join output_dir "generation_report.json" in
  do! call (EvFileWrite report_path (json_dump report))
           (λ h, file_write E h report_path (json_dump report)) in
  ret report_path.

(** The list comprehension [failed_prompts] of [example_usage]. *)
Definition failed_prompts_of (prompts : list string)
    (results : list (option string)) : list (Z * string) :=
  omap (λ '(idx, (prompt, result)),
          if decide (result = None) then Some (idx, prompt) else None)
       (enumerate (zip prompts results)).

(** [for idx, result in retry_results.items(): results[idx] = result].
    The keys of a dictionary are distinct, so the order of the items
    does not show in the list that results. *)
Definition apply_retry_results (retry_results : gmap Z (option string))
    (results : list (option string)) : M (list (option string)) :=
  for_loop
    (λ '(idx, result) results,
       match list_setitem results idx result with
       | Return results' => ret results'
       | Raise e => raise e
       end)
    (map_to_list retry_results) results.

(** [example_usage] from the call of
    [create_multiple_images_with_progress] to the merge of the retry
    results; [retry_failed_images] is called with its default
    [max_retries = 3]. *)
Definition generate_and_retry (self : StreamlitImageHandler) (E : env)
    (prompts : list string) (output_dir quality size style : string)
  : M (list (option string)) :=
  let! results :=
    create_multiple_images_with_progress self E prompts output_dir
      quality size style in
  let failed_prompts := failed_prompts_of prompts results in
  if decide (failed_prompts ≠ []) then
    let! retry_results :=
      retry_failed_images self E failed_prompts output_dir quality size
        style 3 in
    apply_retry_results retry_results results
  else ret results.

End streamlit_image_handler.

(** ** The spreadsheet script *)

Module sheet_script.

(** [chr] *)
Definition chr (code : Z) : ascii := ascii_of_nat (Z.to_nat code).

(** The [while n > 0] loop of [col_num_to_letter], with [result] as
    its accumulator. *)
Equations? col_num_loop (n : Z) (result : string) : string
  by wf (Z.to_nat n) lt :=
  col_num_loop n result with decide (n > 0) := {
    | left _ =>
        col_num_loop ((n - 1) / 26)
          (String (chr (65 + (n - 1) mod 26)) result)
    | right _ => result }.
Proof.
  assert ((n - 1) / 26 < n); [|lia].
  apply Z.div_lt_upper_bound; lia.
Qed.

Definition col_num_to_letter (n : Z) : string := col_num_loop n EmptyString.

(** What a column label denotes: its letters are the digits 1 .. 26
    of a number written in base 26 without a zero digit.  This reading
    of a label is the spreadsheet's, it is not a function of the
    script. *)
Definition letter_value (c : ascii) : Z := Z.of_nat (nat_of_ascii c) - 64.
Fixpoint label_value (acc : Z) (label : string) : Z :=
  match label with
  | EmptyString => acc
  | String c rest => label_value (acc * 26 + letter_value c) rest
  end.
Definition letter_to_col_num (label : string) : Z := label_value 0 label.

(** The dictionary that [process_row] returns. *)
Record row_result : Type := { result : string; row_index : Z }.

(** [process_row] for the row with [data.Index = index], given what
    the [analyst] call of that row comes back with. *)
Definition process_row (index : Z) (analysis : outcome string)
  : M row_result :=
  match analysis with
  | Return content => ret {| result := content; row_index := index + 2 |}
  | Raise e => raise e
  end.

(** [list.sort(key=...)]: stable, ascending. *)
Fixpoint insert_by_key {A} (key : A → Z) (x : A) (l : list A) : list A :=
  match l with
  | [] => [x]
  | y :: l' =>
      if decide (key x ≤ key y) then x :: y :: l'
      else y :: insert_by_key key x l'
  end.
Definition sort_by_key {A} (key : A → Z) (l : list A) : list A :=
  foldr (insert_by_key key) [] l.

(** [l.index(x)] *)
Fixpoint list_index (x : string) (l : list string) : option Z :=
  match l with
  | [] => None
  | y :: l' => if decide (y = x) then Some 0 else (Z.succ <$> list_index x l')
  end.

(** The worksheet and the spreadsheet as collaborators. *)
Record sheet_env : Type := {
  row_values : history → Z → outcome (list string);
  resize_columns : history → Z → outcome unit;
  update_cell : history → Z → Z → string → outcome unit;
  values_batch_update : history → list (string * string) → outcome unit;
}.

(** The body of [for future in as_completed(...)], for the future of
    the row with [data.Index = index] and the outcome of its [analyst]
    call. *)
Definition collect_iteration (future : Z * outcome string)
    (total_result : list row_result) : M (list row_result) :=
  let '(index, analysis) := future in
  try_except
    (let! result := process_row index analysis in
     do! print ("행 " +:+ pretty (row_index result) +:+ " 분석 완료") in
     ret (total_result ++ [result]))
    (λ exc,
       do! print ("행 " +:+ pretty (index + 2) +:+ " 처리 중 오류 발생: "
                  +:+ str_exn exc) in
       ret total_result).

(** The loop: the futures arrive in the order in which the workers
    finished. *)
Definition collect (completed : list (Z * outcome string))
  : M (list row_result) :=
  for_loop collect_iteration completed [].

(** The entries of [batch_data], a range and a cell value each. *)
Definition batch_data_of (input_sheet_name : string) (col_index : Z)
    (total_result : list row_result) : list (string * string) :=
  (λ result_item,
     let cell_value := result result_item in
     let row_index := row_index result_item in
     let col_letter := col_num_to_letter col_index in
     (input_sheet_name +:+ "!" +:+ col_letter +:+ pretty row_index,
      cell_value)) <$> total_result.

(** The part of the outer [try] that runs before [batch_data] exists. *)
Definition prepare_column (S : sheet_env) (new_column_name : string)
  : M Z :=
  let! headers := call (EvRowValues 1) (λ h, row_values S h 1) in
  let current_cols := Z.of_nat (length headers) in
  let! headers :=
    if decide (new_column_name ∉ headers) then
      try_except
        (do! call (EvResizeColumns (current_cols + 10))
                  (λ h, resize_columns S h (current_cols + 10)) in
         do! print ("스프레드시트 열 개수를 " +:+ pretty current_cols +:+ "에서 "
                    +:+ pretty (current_cols + 10) +:+ "로 확장했습니다.") in
         let col_index := current_cols + 1 in
         do! call (EvUpdateCell 1 col_index new_column_name)
                  (λ h, update_cell S h 1 col_index new_column_name) in
         do! print ("새 열 '" +:+ new_column_name +:+ "'을(를) "
                    +:+ pretty col_index +:+ "번 위치에 추가했습니다.") in
         call (EvRowValues 1) (λ h, row_values S h 1))
        (λ e,
           do! print ("스프레드시트 확장 중 오류 발생: " +:+ str_exn e) in
           raise e)
    else ret headers in
  let! col_index :=
    match list_index new_column_name headers with
    | Some i => ret (i + 1)
    | None => raise (ValueError ("'" +:+ new_column_name +:+ "' is not in list"))
    end in
  do! print ("새 열의 인덱스: " +:+ pretty col_index +:+ ", 열 문자: "
             +:+ col_num_to_letter col_index) in
  ret col_index.

(** [analyze_data_with_ai_and_update_sheet] from the collection of the
    futures on.  The handler of the outer [try] prints the first entry
    of [batch_data] only when the exception came after [batch_data]
    was bound; that is the inner [try_except] here. *)
Definition analyze_data_with_ai_and_update_sheet (S : sheet_env)
    (input_sheet_name new_column_name : string)
    (completed : list (Z * outcome string)) : M (list row_result) :=
  let! total_result := collect completed in
  let total_result := sort_by_key row_index total_result in
  do! try_except
        (let! col_index := prepare_column S new_column_name in
         let batch_data :=
           batch_data_of input_sheet_name col_index total_result in
         try_except
           (if decide (batch_data ≠ []) then
              do! call (EvValuesBatchUpdate batch_data)
                       (λ h, values_batch_update S h batch_data) in
              do! print ("모든 데이터(" +:+ pretty (length batch_data)
                         +:+ "개)를 한 번에 업데이트했습니다.") in
              print "모든 데이터가 스프레드시트에 성공적으로 업데이트되었습니다."
            else print "업데이트할 데이터가 없습니다.")
           (λ e,
              do! print ("데이터 일괄 업데이트 중 오류 발생: " +:+ str_exn e) in
              match batch_data with
              | first :: _ => emit (EvPrintItem "첫 번째 배치 항목 예시: " first)
              | [] => ret tt
              end))
        (λ e, print ("데이터 일괄 업데이트 중 오류 발생: " +:+ str_exn e)) in
  ret total_result.

End sheet_script.

(** ** streamlit_app.py *)

Module streamlit_app.

(** One iteration of the loop behind the button that generates all 18
    scenes in [main]: the status text, the inner [try] block with its
    progress bar and its sleep, and its handler, which reports the scene
    and goes on.  [generated_images] is the dictionary of the session
    state.  The calls of Streamlit are recorded as events; the value
    [scene_num / 18] of the progress bar is written as that quotient. *)
Definition all_scenes_iteration (E : env) (temp_json_file : string)
    (scene_num : Z) (generated_images : gmap Z (option string))
  : M (gmap Z (option string)) :=
  do! emit (EvSt "text" ("씬 " +:+ pretty scene_num +:+ "/18 이미지 생성 중...")) in
  try_except
    (let! image_path :=
       imgCreator.generate_scene_image E temp_json_file scene_num
         "generated_images" in
     let generated_images := <[scene_num := image_path]> generated_images in
     do! emit (EvSt "progress" (pretty scene_num +:+ "/18")) in
     do! (if decide (scene_num < 18) then sleep 12 else ret tt) in
     ret generated_images)
    (λ e,
       do! emit (EvSt "error" ("씬 " +:+ pretty scene_num +:+ " 이미지 생성 실패: "
                               +:+ str_exn e)) in
       ret generated_images).

(** [for scene_num in range(1, 19): ...] *)
Definition all_scenes_loop (E : env) (temp_json_file : string)
    (generated_images : gmap Z (option string))
  : M (gmap Z (option string)) :=
  for_loop (all_scenes_iteration E temp_json_file) (range 1 19)
    generated_images.

End streamlit_app.

(** ** What the theorems observe in a history *)

Module Observations.

Definition is_sleep (e : event) : bool :=
  match e with EvSleep _ => true | _ => false end.

(** The image requests and the sleeps of a history, in their order:
    [EvImagesGenerate] is the request of [generate_image],
    [EvCreateSingleImage] that of the handler. *)
Definition is_attempt (e : event) : bool :=
  match e with
  | EvImagesGenerate _ _ | EvCreateSingleImage _ _ _ _ _ => true
  | _ => false
  end.
Definition pacing (h : history) : history :=
  filter (λ e, is_sleep e || is_attempt e = true) h.

(** One pause of [handle_rate_limit]: [rate_limit_delay] sleeps of one
    second. *)
Definition pause (self : streamlit_image_handler.StreamlitImageHandler)
  : history :=
  replicate (Z.to_nat (streamlit_image_handler.rate_limit_delay self))
    (EvSleep 1).

(** The answer of [create_single_image] as the [try] block of
    [create_single_image_with_progress] reads it: the path when it is a
    non-empty string, nothing when the call raised or answered [None]
    or the empty string. *)
Definition single_result (answer : outcome (option string)) : option string :=
  match answer with
  | Return r => if truthy r then r else None
  | Raise _ => None
  end.

(** The preview of an attempt of [create_single_image_with_progress]
    made at the history [h]: the image shown, when the answer of
    [create_single_image] is a non-empty path; and the result of the
    attempt: that path when the preview went through, [None]
    otherwise. *)
Definition preview (E : env) (h : history)
    (prompt output_dir quality size style : string) : history :=
  match single_result
          (create_single_image E h prompt output_dir quality size style) with
  | Some path => [EvSt "image" path]
  | None => []
  end.
Definition attempt_result (E : env) (h : history)
    (prompt output_dir quality size style : string) : option string :=
  match single_result
          (create_single_image E h prompt output_dir quality size style) with
  | Some path =>
      match st_image E
              (h ++ [EvCreateSingleImage prompt output_dir quality size style])
              path with
      | Return _ => Some path
      | Raise _ => None
      end
  | None => None
  end.

(** What the batch loop of [imgCreator] writes into [results] for an
    attempt. *)
Definition recorded (attempt : outcome (option string)) : option string :=
  match attempt with
  | Return image_path => image_path
  | Raise _ => None
  end.

(** *** The rounds of the retry pass *)

(** A round of [retry_failed_images] opens with the line
    [**재시도 k/max_retries**]. *)
Definition is_round_header (e : event) : bool :=
  match e with
  | EvSt widget text => String.eqb widget "write" && String.prefix "**" text
  | _ => false
  end.
Definition rounds_run (h : history) : nat :=
  length (filter (λ e, is_round_header e = true) h).

Definition is_create_single_image (e : event) : bool :=
  match e with EvCreateSingleImage _ _ _ _ _ => true | _ => false end.

(** The reads of a scenes file in a history. *)
Definition is_load_json (e : event) : bool :=
  match e with EvLoadJson _ => true | _ => false end.

(** The paths of the files written in a history, in their order. *)
Definition written_paths (h : history) : list string :=
  omap (λ e, match e with EvFileWrite path _ => Some path | _ => None end) h.

Section retry_rounds.
Variables (E : env) (output_dir quality img_size style : string).

(** An attempt of a round: the item, and the history at which
    [create_single_image] was called for it.  Its result is what
    [create_single_image_with_progress] answered: the path, when the
    call returned one and its preview went through. *)
Definition entry_result (x : (Z * string) * history) : option string :=
  attempt_result E x.2 x.1.2 output_dir quality img_size style.

(** The items of a round whose attempt gave no image, in their order. *)
Definition still_failed (round : list ((Z * string) * history))
  : list (Z * string) :=
  fst <$> filter (λ x, entry_result x = None) round.

(** The successes of some attempts written into a results mapping. *)
Definition record_successes (entries : list ((Z * string) * history))
    (results : gmap Z (option string)) : gmap Z (option string) :=
  foldl (λ m x, if truthy (entry_result x)
                then <[x.1.1 := entry_result x]> m else m)
        results entries.

(** Rounds that follow each other as the retry pass prescribes: a round
    attempts exactly the items that are failed when it starts, there is
    at least one of them, and the next round starts from the items the
    round left failed. *)
Fixpoint retry_chain (failed : list (Z * string))
    (rounds : list (list ((Z * string) * history))) : Prop :=
  match rounds with
  | [] => True
  | round :: rest =>
      fst <$> round = failed ∧ failed ≠ [] ∧
      retry_chain (still_failed round) rest
  end.

(** The items that are failed after the rounds. *)
Fixpoint final_failed (failed : list (Z * string))
    (rounds : list (list ((Z * string) * history))) : list (Z * string) :=
  match rounds with
  | [] => failed
  | round :: rest => final_failed (still_failed round) rest
  end.

End retry_rounds.

(** *** The spreadsheet script *)

(** The rows whose analysis came back, in the order of completion. *)
Definition completed_rows (completed : list (Z * outcome string))
  : list sheet_script.row_result :=
  omap (λ '(index, analysis),
          match analysis with
          | Return content =>
              Some {| sheet_script.result := content;
                      sheet_script.row_index := index + 2 |}
          | Raise _ => None
          end) completed.

Definition by_row_index (a b : sheet_script.row_result) : Prop :=
  sheet_script.row_index a ≤ sheet_script.row_index b.

Definition is_values_batch_update (e : event) : bool :=
  match e with EvValuesBatchUpdate _ => true | _ => false end.

(** The letters A .. Z, and the labels made of them. *)
Definition is_column_letter (c : ascii) : Prop :=
  (65 ≤ nat_of_ascii c ≤ 90)%nat.
Fixpoint is_column_label (label : string) : Prop :=
  match label with
  | EmptyString => True
  | String c rest => is_column_letter c ∧ is_column_label rest
  end.

(** The calls to the worksheet and the spreadsheet in a history. *)
Definition is_sheet_call (e : event) : bool :=
  match e with
  | EvRowValues _ | EvResizeColumns _ | EvUpdateCell _ _ _
  | EvValuesBatchUpdate _ => true
  | _ => false
  end.
Definition sheet_calls (h : history) : history :=
  filter (λ e, is_sheet_call e = true) h.

(** What the handler hands out for an image: nothing, or a path that is
    not the empty string. *)
Definition is_image_result (r : option string) : Prop :=
  r = None ∨ ∃ path, r = Some path ∧ path ≠ EmptyString.

End Observations.
Export Observations.

(** ** Concrete inputs *)

Module Examples.
Import sceneCreator.

Definition a_scene : Scene := {| script := "s"; main_keyword := "k" |}.

(** The 18 scenes [scene_1] .. [scene_18]. *)
Definition full_scenes : gmap string Scene :=
  list_to_map ((λ i, (scene_key i, a_scene)) <$> range 1 19).

(** One scene short. *)
Definition seventeen_scenes : gmap string Scene :=
  delete (scene_key 7) full_scenes.

(** [scene_7] replaced by an entry under another key: still 18
    entries. *)
Definition scene_7_renamed : gmap string Scene :=
  <["scene_seven" := a_scene]> (delete (scene_key 7) full_scenes).

(** The scenes file with the 18 scenes, in order. *)
Definition scenes_json : scenes_file :=
  [("scenes",
    (λ i, (imgCreator.scene_key i,
           [("script", "line"); ("main_keyword", "word")]))
      <$> range 1 19)].

(** The story context of that file. *)
Definition story_context : string :=
  match imgCreator.create_all_scenes_context scenes_json [] with
  | (_, Return context) => context
  | _ => EmptyString
  end.

(** The same file without [scene_7]. *)
Definition scenes_json_without_7 : scenes_file :=
  [("scenes",
    (λ i, (imgCreator.scene_key i,
           [("script", "line"); ("main_keyword", "word")]))
      <$> (range 1 7 ++ range 8 19))].

Definition is_images_generate (e : event) : bool :=
  match e with EvImagesGenerate _ _ => true | _ => false end.
Definition is_http_get (e : event) : bool :=
  match e with EvHttpGet _ => true | _ => false end.
Definition is_file_write (e : event) : bool :=
  match e with EvFileWrite _ _ => true | _ => false end.
(** How many calls of a kind a history holds. *)
Definition calls (kind : event → bool) (h : history) : nat :=
  length (filter (λ e, kind e = true) h).

(** An environment whose answers depend on how many calls of the same
    kind came before: the [n]-th image request raises when
    [generate_raises n], the [n]-th download has status [status n], the
    [n]-th file write raises when [write_raises n], and the [n]-th call
    of [create_single_image] answers [single n] (all counted from 0).
    Every preview goes through. *)
Definition scripted_env (file : scenes_file)
    (generate_raises : nat → bool) (status : nat → Z)
    (write_raises : nat → bool) (single : nat → outcome (option string))
  : env :=
  {| makedirs := λ _ _, Return tt;
     json_load := λ _ _, Return file;
     now_strftime := λ _, "20250101_000000";
     images_generate := λ h _ _,
       if generate_raises (calls is_images_generate h)
       then Raise (ExternalError "rate limit exceeded")
       else Return ("https://img/" +:+ pretty (calls is_images_generate h));
     requests_get := λ h _,
       Return (status (calls is_http_get h), "png");
     file_write := λ h _ _,
       if write_raises (calls is_file_write h)
       then Raise (ExternalError "No such file or directory")
       else Return tt;
     create_single_image := λ h _ _ _ _ _,
       single (calls is_create_single_image h);
     st_image := λ _ _, Return tt |}.

(** Every call succeeds. *)
Definition env_ok : env :=
  scripted_env scenes_json (λ _, false) (λ _, 200) (λ _, false)
    (λ n, Return (Some ("out/" +:+ pretty n +:+ ".png"))).

(** The image request of the second scene raises, and so does the
    second call of [create_single_image]. *)
Definition env_second_request_raises : env :=
  scripted_env scenes_json (λ n, bool_decide (n = 1%nat)) (λ _, 200)
    (λ _, false)
    (λ n, if bool_decide (n = 1%nat)
          then Raise (ExternalError "content policy")
          else Return (Some ("out/" +:+ pretty n +:+ ".png"))).

(** The scenes file lacks [scene_7]; every call succeeds. *)
Definition env_without_7 : env :=
  scripted_env scenes_json_without_7 (λ _, false) (λ _, 200) (λ _, false)
    (λ n, Return (Some ("out/" +:+ pretty n +:+ ".png"))).

(** The download of the second scene answers 500. *)
Definition env_second_download_500 : env :=
  scripted_env scenes_json (λ _, false)
    (λ n, if bool_decide (n = 1%nat) then 500 else 200)
    (λ _, false) (λ _, Return None).

(** Every download answers 500. *)
Definition env_download_500 : env :=
  scripted_env scenes_json (λ _, false) (λ _, 500) (λ _, false)
    (λ _, Return None).

(** The download answers 200 but the file cannot be written. *)
Definition env_write_raises : env :=
  scripted_env scenes_json (λ _, false) (λ _, 200) (λ _, true)
    (λ _, Return None).

(** [create_single_image] fails on its second call only. *)
Definition env_second_single_fails : env :=
  scripted_env scenes_json (λ _, false) (λ _, 200) (λ _, false)
    (λ n, if bool_decide (n = 1%nat)
          then Raise (ExternalError "content policy")
          else Return (Some ("out/" +:+ pretty n +:+ ".png"))).

(** [create_single_image] never produces an image. *)
Definition env_single_always_fails : env :=
  scripted_env scenes_json (λ _, false) (λ _, 200) (λ _, false)
    (λ _, Return None).

(** [create_single_image] fails on its first two calls, then succeeds. *)
Definition env_single_fails_twice : env :=
  scripted_env scenes_json (λ _, false) (λ _, 200) (λ _, false)
    (λ n, if bool_decide (n < 2)%nat
          then Raise (ExternalError "timeout")
          else Return (Some ("out/" +:+ pretty n +:+ ".png"))).

(** Every call of [create_single_image] returns a path, but the image
    [out/1.png] cannot be shown. *)
Definition env_second_preview_fails : env :=
  {| makedirs := makedirs env_ok;
     json_load := json_load env_ok;
     now_strftime := now_strftime env_ok;
     images_generate := images_generate env_ok;
     requests_get := requests_get env_ok;
     file_write := file_write env_ok;
     create_single_image := create_single_image env_ok;
     st_image := λ _ path,
       if decide (path = "out/1.png")
       then Raise (ExternalError "cannot identify image file")
       else Return tt |}.

(** A worksheet whose header row already has the result column, and
    whose calls all succeed. *)
Definition sheet_ok : sheet_script.sheet_env :=
  {| sheet_script.row_values := λ _ _, Return ["input"; "result"];
     sheet_script.resize_columns := λ _ _, Return tt;
     sheet_script.update_cell := λ _ _ _ _, Return tt;
     sheet_script.values_batch_update := λ _ _, Return tt |}.

(** Three rows whose workers finish in the order 5, 2, 9 while the
    worker of row 7 raises, and the same futures in the opposite order. *)
Definition completed_5_2_9 : list (Z * outcome string) :=
  [(5, Return "five"); (7, Raise (ExternalError "quota"));
   (2, Return "two"); (9, Return "nine")].
Definition completed_9_2_5 : list (Z * outcome string) :=
  reverse completed_5_2_9.

(** A worksheet without the result column: the header row shows the
    new column once a header cell has been written. *)
Definition is_update_cell (e : event) : bool :=
  match e with EvUpdateCell _ _ _ => true | _ => false end.
Definition sheet_without_column : sheet_script.sheet_env :=
  {| sheet_script.row_values := λ h _,
       if decide (calls is_update_cell h = 0%nat)
       then Return ["input"] else Return ["input"; "result"];
     sheet_script.resize_columns := λ _ _, Return tt;
     sheet_script.update_cell := λ _ _ _ _, Return tt;
     sheet_script.values_batch_update := λ _ _, Return tt |}.

(** A worksheet whose header row never shows the result column: the
    calls succeed, but the header cell written does not come back. *)
Definition sheet_header_never_shows : sheet_script.sheet_env :=
  {| sheet_script.row_values := λ _ _, Return ["input"];
     sheet_script.resize_columns := λ _ _, Return tt;
     sheet_script.update_cell := λ _ _ _ _, Return tt;
     sheet_script.values_batch_update := λ _ _, Return tt |}.

(** The scenes file whose [scene_9] has no [script]; every call
    succeeds. *)
Definition scenes_json_scene_9_without_script : scenes_file :=
  [("scenes",
    (λ i, (imgCreator.scene_key i,
           if decide (i = 9) then [("main_keyword", "word")]
           else [("script", "line"); ("main_keyword", "word")]))
      <$> range 1 19)].
Definition env_scene_9_without_script : env :=
  scripted_env scenes_json_scene_9_without_script (λ _, false) (λ _, 200)
    (λ _, false) (λ _, Return None).

End Examples.

(** * Theorems *)

Section validator.
Import sceneCreator.

Lemma scene_key_inj : Inj (=) (=) scene_key.
Proof.
  intros i j H. unfold scene_key in H.
  apply (inj pretty). by simplify_eq.
Qed.

Lemma size_required_keys : size required_keys = 18%nat.
Proof.
  unfold required_keys.
  rewrite size_list_to_set.
  - reflexivity.
  - pose proof scene_key_inj as Hinj.
    apply (NoDup_fmap_2 scene_key), NoDup_seqZ.
Qed.

Lemma require_scenes_Return (idxs : list Z) (v v' : gmap string Scene) :
  require_scenes idxs v = Return v' ↔
  v' = v ∧ ∀ i, i ∈ idxs → is_Some (v !! scene_key i).
Proof.
  induction idxs as [|i rest IH]; simpl.
  - split.
    + intros [= <-]. split; [done|]. intros i Hi. by apply elem_of_nil in Hi.
    + by intros [-> _].
  - destruct (v !! scene_key i) as [sc|] eqn:Hi.
    + rewrite IH. split; intros [-> Hall]; split; try done.
      * intros j [->|Hj]%elem_of_cons; [by eexists | by apply Hall].
      * intros j Hj. apply Hall. by right.
    + split; [done|]. intros [_ Hall].
      destruct (Hall i) as [sc Hsc]; [by left | congruence].
Qed.

Lemma require_scenes_Raise (idxs : list Z) (v : gmap string Scene) (i : Z) :
  i ∈ idxs → v !! scene_key i = None →
  ∃ before j after,
    idxs = before ++ j :: after ∧
    (∀ k, k ∈ before → is_Some (v !! scene_key k)) ∧
    v !! scene_key j = None ∧
    require_scenes idxs v =
      Raise (ValueError ("Missing required scene: " +:+ scene_key j)).
Proof.
  induction idxs as [|a rest IH]; intros Hin Hnone.
  - by apply elem_of_nil in Hin.
  - simpl. destruct (v !! scene_key a) as [sc|] eqn:Ha.
    + apply elem_of_cons in Hin as [->|Hin]; [congruence|].
      destruct (IH Hin Hnone) as (before & j & after & -> & Hb & Hj & Hr).
      exists (a :: before), j, after. repeat split; try done.
      intros k [->|Hk]%elem_of_cons; [by eexists | by apply Hb].
    + exists [], a, rest. repeat split; try done.
      intros k Hk. by apply elem_of_nil in Hk.
Qed.

Lemma elem_of_required_keys (k : string) :
  k ∈ required_keys ↔ ∃ i, 1 ≤ i ≤ 18 ∧ k = scene_key i.
Proof.
  unfold required_keys, range.
  rewrite elem_of_list_to_set, list_elem_of_fmap.
  split.
  - intros (i & -> & Hi). apply elem_of_seqZ in Hi. exists i. split; [lia|done].
  - intros (i & Hi & ->). exists i. split; [done|]. apply elem_of_seqZ. lia.
Qed.

(** C1 — the validator returns a mapping exactly when its argument has
    18 entries keyed [scene_1] .. [scene_18], and then it returns the
    argument itself; a mapping whose size is not 18 is rejected with a
    [ValueError] whose message carries the size. *)
Theorem validate_18_scenes_accepts_iff (v : gmap string Scene) :
  (∀ v', validate_18_scenes v = Return v' ↔
         v' = v ∧ size v = 18%nat ∧ dom v = required_keys) ∧
  (size v ≠ 18%nat →
   validate_18_scenes v =
     Raise (ValueError ("Must have exactly 18 scenes, got " +:+ pretty (size v)))).
Proof.
  split.
  - intros v'. unfold validate_18_scenes.
    destruct (decide (size v ≠ 18%nat)) as [Hne|Heq%dec_stable].
    + split; [done|]. by intros (_ & ? & _).
    + rewrite require_scenes_Return. split.
      * intros [-> Hall]. repeat split; try done.
        symmetry. apply set_subseteq_size_eq.
        -- intros k (i & Hi & ->)%elem_of_required_keys.
           apply elem_of_dom, Hall. unfold range. apply elem_of_seqZ. lia.
        -- rewrite size_dom, size_required_keys. lia.
      * intros (-> & _ & Hdom). split; [done|].
        intros i Hi. apply elem_of_dom. rewrite Hdom.
        apply elem_of_required_keys. exists i. split; [|done].
        unfold range in Hi. apply elem_of_seqZ in Hi. lia.
  - intros Hne. unfold validate_18_scenes. by rewrite decide_True.
Qed.

Lemma validate_18_scenes_accepts_iff_witness :
  validate_18_scenes Examples.full_scenes = Return Examples.full_scenes ∧
  validate_18_scenes Examples.seventeen_scenes =
    Raise (ValueError ("Must have exactly 18 scenes, got "
                       +:+ pretty (size Examples.seventeen_scenes))).
Proof.
  split.
  - apply (proj1 (validate_18_scenes_accepts_iff Examples.full_scenes)).
    repeat split; vm_compute; reflexivity.
  - apply (proj2 (validate_18_scenes_accepts_iff Examples.seventeen_scenes)).
    vm_compute. intros H. discriminate H.
Defined.

(** C4 — a mapping of size 18 that lacks some [scene_i] with
    [1 ≤ i ≤ 18] is rejected: the validator raises the [ValueError] of
    the least missing index and returns no mapping at all. *)
Theorem validate_18_scenes_missing_key (v : gmap string Scene) (i : Z) :
  size v = 18%nat → 1 ≤ i ≤ 18 → v !! scene_key i = None →
  ∃ j, 1 ≤ j ≤ i ∧
       v !! scene_key j = None ∧
       (∀ k, 1 ≤ k < j → is_Some (v !! scene_key k)) ∧
       validate_18_scenes v =
         Raise (ValueError ("Missing required scene: " +:+ scene_key j)) ∧
       ∀ v', validate_18_scenes v ≠ Return v'.
Proof.
  intros Hsize Hi Hnone. unfold validate_18_scenes.
  rewrite decide_False by (intros ?; congruence).
  destruct (require_scenes_Raise (range 1 19) v i)
    as (before & j & after & Hsplit & Hb & Hj & Hr); [|done|].
  { unfold range. apply elem_of_seqZ. lia. }
  assert (Hjr : 1 ≤ j ≤ 18).
  { assert (j ∈ range 1 19) as Hin
      by (rewrite Hsplit; apply elem_of_app; right; left).
    unfold range in Hin. apply elem_of_seqZ in Hin. lia. }
  assert (Hbefore : ∀ k, 1 ≤ k < j → k ∈ before).
  { intros k Hk. unfold range in Hsplit.
    assert (Hlk : seqZ 1 (19 - 1) !! Z.to_nat (k - 1) = Some k).
    { rewrite lookup_seqZ. split; lia. }
    assert (Hlj : seqZ 1 (19 - 1) !! length before = Some j).
    { rewrite Hsplit. by rewrite list_lookup_middle. }
    apply lookup_seqZ in Hlj as [Hlj _].
    rewrite Hsplit in Hlk.
    rewrite lookup_app_l in Hlk by lia.
    by eapply list_elem_of_lookup_2. }
  exists j. repeat split; try lia; try done.
  - destruct (decide (j ≤ i)) as [|Hgt]; [done|].
    destruct (Hb i) as [sc Hsc]; [apply Hbefore; lia | congruence].
  - intros k Hk. apply Hb, Hbefore. lia.
  - intros v'. rewrite Hr. done.
Qed.

Lemma validate_18_scenes_missing_key_witness :
  ∃ j, 1 ≤ j ≤ 7 ∧
       Examples.scene_7_renamed !! scene_key j = None ∧
       (∀ k, 1 ≤ k < j → is_Some (Examples.scene_7_renamed !! scene_key k)) ∧
       validate_18_scenes Examples.scene_7_renamed =
         Raise (ValueError ("Missing required scene: " +:+ scene_key j)) ∧
       ∀ v', validate_18_scenes Examples.scene_7_renamed ≠ Return v'.
Proof.
  apply (validate_18_scenes_missing_key Examples.scene_7_renamed 7).
  - vm_compute. reflexivity.
  - lia.
  - vm_compute. reflexivity.
Defined.

End validator.

Section column_letters.
Import sheet_script.

Lemma col_num_loop_unfold (n : Z) (acc : string) :
  col_num_loop n acc =
  if decide (n > 0)
  then col_num_loop ((n - 1) / 26) (String (chr (65 + (n - 1) mod 26)) acc)
  else acc.
Proof.
  rewrite col_num_loop_equation_1.
  by destruct (decide (n > 0)).
Qed.

Lemma string_app_cons (c : ascii) (s t : string) :
  String c s +:+ t = String c (s +:+ t).
Proof. reflexivity. Qed.

Lemma string_app_assoc (s t u : string) :
  (s +:+ t) +:+ u = s +:+ (t +:+ u).
Proof.
  induction s as [|c s IH]; [done|].
  rewrite !string_app_cons. by rewrite IH.
Qed.

Lemma col_num_loop_acc (n : Z) (acc : string) :
  col_num_loop n acc = col_num_loop n EmptyString +:+ acc.
Proof.
  revert acc.
  induction (Z.lt_wf 0 n) as [n _ IH]. intros acc.
  rewrite (col_num_loop_unfold n acc), (col_num_loop_unfold n EmptyString).
  destruct (decide (n > 0)) as [Hpos|Hneg]; [|done].
  assert (Hq : 0 ≤ (n - 1) / 26 < n).
  { split; [apply Z.div_pos; lia|].
    apply Z.div_lt_upper_bound; lia. }
  rewrite (IH _ Hq (String _ acc)), (IH _ Hq (String _ EmptyString)).
  by rewrite string_app_assoc.
Qed.

Lemma label_value_app (acc : Z) (s t : string) :
  label_value acc (s +:+ t) = label_value (label_value acc s) t.
Proof.
  revert acc. induction s as [|c s IH]; intros acc; [done|].
  rewrite string_app_cons. simpl. apply IH.
Qed.

Lemma letter_value_chr (r : Z) :
  0 ≤ r < 26 → letter_value (chr (65 + r)) = r + 1.
Proof.
  intros Hr. unfold letter_value, chr.
  rewrite nat_ascii_embedding by lia. lia.
Qed.

Lemma letter_to_col_num_loop (n : Z) :
  0 ≤ n → letter_to_col_num (col_num_loop n EmptyString) = n.
Proof.
  induction (Z.lt_wf 0 n) as [n _ IH]. intros Hn.
  rewrite col_num_loop_unfold.
  destruct (decide (n > 0)) as [Hpos|Hneg].
  - assert (Hq : 0 ≤ (n - 1) / 26 < n).
    { split; [apply Z.div_pos; lia|].
      apply Z.div_lt_upper_bound; lia. }
    rewrite col_num_loop_acc. unfold letter_to_col_num in *.
    rewrite label_value_app, (IH _ Hq) by lia. simpl.
    rewrite letter_value_chr by (apply Z.mod_pos_bound; lia).
    pose proof (Z.div_mod (n - 1) 26). lia.
  - unfold letter_to_col_num. simpl. lia.
Qed.

(** C6 — [col_num_to_letter] gives A, Z, AA, AZ and BA for 1, 26, 27,
    52 and 53, and for every positive [n] the label it gives denotes
    [n] again when read as a number in base 26 with the digits
    A = 1 .. Z = 26. *)
Theorem col_num_to_letter_round_trip :
  col_num_to_letter 1 = "A" ∧
  col_num_to_letter 26 = "Z" ∧
  col_num_to_letter 27 = "AA" ∧
  col_num_to_letter 52 = "AZ" ∧
  col_num_to_letter 53 = "BA" ∧
  ∀ n : Z, 0 < n → letter_to_col_num (col_num_to_letter n) = n.
Proof.
  repeat split; try reflexivity.
  intros n Hn. apply letter_to_col_num_loop. lia.
Qed.

Lemma col_num_to_letter_round_trip_witness :
  0 < 18279 ∧ letter_to_col_num (col_num_to_letter 18279) = 18279.
Proof.
  split; [lia|].
  apply (proj2 (proj2 (proj2 (proj2 (proj2 col_num_to_letter_round_trip))))).
  lia.
Defined.

End column_letters.

(** ** Histories and the rate-limit pause *)

Section pause.
Import streamlit_image_handler.

Lemma slept_app (h1 h2 : history) : slept (h1 ++ h2) = slept h1 + slept h2.
Proof.
  induction h1 as [|e h1 IH]; simpl; [lia|].
  destruct e; rewrite ?IH; lia.
Qed.

Lemma slept_replicate (n : nat) (s : Z) :
  slept (replicate n (EvSleep s)) = Z.of_nat n * s.
Proof. induction n as [|n IH]; [done|]. simpl. lia. Qed.

Lemma pacing_app (h1 h2 : history) : pacing (h1 ++ h2) = pacing h1 ++ pacing h2.
Proof. apply filter_app. Qed.

Lemma pacing_sleeps (n : nat) (s : Z) :
  pacing (replicate n (EvSleep s)) = replicate n (EvSleep s).
Proof.
  induction n as [|n IH]; [done|].
  unfold pacing in *.
  change (replicate (S n) (EvSleep s)) with (EvSleep s :: replicate n (EvSleep s)).
  rewrite filter_cons_True by done. by rewrite IH.
Qed.

Lemma sleep_loop {A} (l : list A) (h : history) :
  for_loop (λ _ _, sleep 1) l tt h =
  (h ++ replicate (length l) (EvSleep 1), Return tt).
Proof.
  revert h. induction l as [|a l IH]; intros h; simpl.
  - by rewrite app_nil_r.
  - unfold bind, sleep, emit. rewrite IH.
    by rewrite <-app_assoc.
Qed.

Lemma handle_rate_limit_run (self : StreamlitImageHandler) (h : history) :
  handle_rate_limit self h = (h ++ pause self, Return tt).
Proof.
  unfold handle_rate_limit, pause, range. rewrite sleep_loop.
  rewrite length_seqZ. do 3 f_equal. lia.
Qed.

Lemma slept_pause (self : StreamlitImageHandler) :
  slept (pause self) = Z.max 0 (rate_limit_delay self).
Proof. unfold pause. rewrite slept_replicate. lia. Qed.

Lemma slept_pacing (h : history) : slept (pacing h) = slept h.
Proof.
  induction h as [|e h IH]; [done|].
  unfold pacing in *. rewrite filter_cons.
  destruct (decide (is_sleep e || is_attempt e = true)) as [Hk|Hk].
  - destruct e; simpl in *; rewrite ?IH; done.
  - destruct e; simpl in *; done.
Qed.

Lemma sleep_in_pacing (h : history) (s : Z) :
  EvSleep s ∈ h → EvSleep s ∈ pacing h.
Proof. intros Hin. unfold pacing. by apply list_elem_of_filter. Qed.

End pause.

(** ** The batch of the Streamlit handler *)

Section handler_batch.
Import streamlit_image_handler.
Variables (self : StreamlitImageHandler) (E : env).
Variables (output_dir quality img_size style : string).

Local Abbreviation attempt prompt :=
  (EvCreateSingleImage prompt output_dir quality img_size style).
Local Abbreviation answer h prompt :=
  (attempt_result E h prompt output_dir quality img_size style).
Local Abbreviation shown h prompt :=
  (preview E h prompt output_dir quality img_size style).

Lemma create_single_image_with_progress_run (prompt : string) (h : history) :
  create_single_image_with_progress E prompt output_dir quality img_size style h
  = (h ++ [attempt prompt] ++ shown h prompt, Return (answer h prompt)).
Proof.
  unfold create_single_image_with_progress, preview_image, preview,
    attempt_result, try_except, bind, call, single_result.
  destruct (create_single_image E h prompt output_dir quality img_size style)
    as [[path|]|e]; [|by rewrite app_nil_r..].
  destruct (truthy (Some path)); [|by rewrite app_nil_r].
  rewrite <-app_assoc.
  by destruct (st_image E (h ++ [attempt prompt]) path) as [[]|e].
Qed.

(** The preview is no attempt, no sleep and no round header. *)
Lemma preview_quiet (prompt : string) (h : history) :
  pacing (shown h prompt) = [] ∧
  slept (shown h prompt) = 0 ∧
  rounds_run (shown h prompt) = 0%nat ∧
  filter (λ e, is_create_single_image e = true) (shown h prompt) = [].
Proof. unfold preview. by destruct (single_result _). Qed.

Lemma multiple_iteration_run (total : nat) (idx : Z) (prompt : string)
    (results : list (option string)) (h : history) :
  ∃ before after,
    multiple_iteration self E total output_dir quality img_size style
      (idx, prompt) results h
    = (h ++ before ++ [attempt prompt] ++ after,
       Return (results ++ [answer (h ++ before) prompt])) ∧
    pacing before = (if decide (idx > 0) then pause self else []) ∧
    pacing after = [].
Proof.
  unfold multiple_iteration, st.
  unfold bind at 1. unfold emit at 1.
  destruct (decide (idx > 0)) as [Hpos|Hfirst].
  - unfold bind at 1. rewrite handle_rate_limit_run.
    unfold bind at 1. rewrite create_single_image_with_progress_run.
    unfold bind, emit, ret.
    eexists (_ :: pause self), (shown _ prompt ++ [_]). split.
    + rewrite <-!app_assoc. reflexivity.
    + split.
      * unfold pacing.
        rewrite filter_cons_False by (simpl; congruence).
        apply pacing_sleeps.
      * rewrite pacing_app, (proj1 (preview_quiet _ _)). done.
  - unfold bind at 1. unfold ret at 1.
    unfold bind at 1. rewrite create_single_image_with_progress_run.
    unfold bind, emit, ret.
    eexists [_], (shown _ prompt ++ [_]). split.
    + rewrite <-!app_assoc. reflexivity.
    + split; [done|].
      rewrite pacing_app, (proj1 (preview_quiet _ _)). done.
Qed.

Lemma multiple_loop_paused (total : nat) (prompts : list string) (i : Z)
    (results : list (option string)) (h : history) :
  0 < i →
  ∃ new rs,
    for_loop
      (multiple_iteration self E total output_dir quality img_size style)
      (zip (seqZ i (Z.of_nat (length prompts))) prompts) results h
    = (h ++ new, Return (results ++ rs)) ∧
    length rs = length prompts ∧
    pacing new = concat ((λ p, pause self ++ [attempt p]) <$> prompts) ∧
    ∀ (k : nat) (p : string), prompts !! k = Some p →
      ∃ hk, h `prefix_of` hk ∧ hk `prefix_of` h ++ new ∧
            rs !! k = Some (answer hk p).
Proof.
  revert i results h.
  induction prompts as [|p prompts IH]; intros i results h Hi.
  - exists [], []. simpl. rewrite !app_nil_r. repeat split; try done.
    all: intros k p Hk; by rewrite lookup_nil in Hk.
  - rewrite seqZ_cons by (simpl; lia). simpl zip.
    change (for_loop ?f (?a :: ?l) ?s) with (bind (f a s) (for_loop f l)).
    unfold bind at 1.
    destruct (multiple_iteration_run total i p results h)
      as (before & after & -> & Hbefore & Hafter).
    rewrite decide_True in Hbefore by lia.
    replace (Z.pred (Z.of_nat (S (length prompts))))
      with (Z.of_nat (length prompts)) by lia.
    destruct (IH (Z.succ i) (results ++ [answer (h ++ before) p])
                (h ++ before ++ [attempt p] ++ after))
      as (new & rs & -> & Hlen & Hpacing & Hrs); [lia|].
    exists (before ++ [attempt p] ++ after ++ new), (answer (h ++ before) p :: rs).
    split_and!.
    + f_equal; [by rewrite <-!app_assoc|]. by rewrite <-app_assoc.
    + simpl. by rewrite Hlen.
    + rewrite !pacing_app, Hbefore, Hafter, Hpacing. simpl.
      by rewrite <-app_assoc.
    + intros [|k] q Hq; simpl in Hq.
      * injection Hq as <-. exists (h ++ before). split_and!.
        -- by apply prefix_app_r.
        -- apply prefix_app, prefix_app_r. done.
        -- done.
      * destruct (Hrs k q Hq) as (hk & Hpre1 & Hpre2 & Hlook).
        exists hk. split_and!; [|by rewrite <-!app_assoc in Hpre2|done].
        etrans; [|exact Hpre1]. by apply prefix_app_r.
Qed.

(** The run of [create_multiple_images_with_progress]: it never raises,
    answers one result per prompt, pauses before every attempt but the
    first, and the result of an attempt is what [create_single_image]
    gave at that attempt. *)
Lemma create_multiple_images_with_progress_run (prompts : list string)
    (h : history) :
  ∃ new results,
    create_multiple_images_with_progress self E prompts
      output_dir quality img_size style h
    = (h ++ new, Return results) ∧
    length results = length prompts ∧
    pacing new =
      match prompts with
      | [] => []
      | p :: rest =>
          attempt p :: concat ((λ p', pause self ++ [attempt p']) <$> rest)
      end ∧
    ∀ (k : nat) (p : string), prompts !! k = Some p →
      ∃ hk, h `prefix_of` hk ∧ hk `prefix_of` h ++ new ∧
            results !! k = Some (answer hk p).
Proof.
  unfold create_multiple_images_with_progress, enumerate.
  destruct prompts as [|p rest].
  - exists [], []. simpl. rewrite app_nil_r. repeat split; try done.
    all: intros k p Hk; by rewrite lookup_nil in Hk.
  - rewrite seqZ_cons by (simpl; lia). simpl zip.
    change (for_loop ?f (?a :: ?l) ?s) with (bind (f a s) (for_loop f l)).
    unfold bind at 1.
    destruct (multiple_iteration_run (length (p :: rest)) 0 p [] h)
      as (before & after & -> & Hbefore & Hafter).
    rewrite decide_False in Hbefore by lia.
    replace (Z.pred (Z.of_nat (S (length rest))))
      with (Z.of_nat (length rest)) by lia.
    destruct (multiple_loop_paused (length (p :: rest)) rest (Z.succ 0)
                ([] ++ [answer (h ++ before) p])
                (h ++ before ++ [attempt p] ++ after))
      as (new & rs & -> & Hlen & Hpacing & Hrs); [lia|].
    exists (before ++ [attempt p] ++ after ++ new), (answer (h ++ before) p :: rs).
    split_and!.
    + f_equal. by rewrite <-!app_assoc.
    + simpl. by rewrite Hlen.
    + rewrite !pacing_app, Hbefore, Hafter, Hpacing. done.
    + intros [|k] q Hq; simpl in Hq.
      * injection Hq as <-. exists (h ++ before). split_and!.
        -- by apply prefix_app_r.
        -- apply prefix_app, prefix_app_r. done.
        -- done.
      * destruct (Hrs k q Hq) as (hk & Hpre1 & Hpre2 & Hlook).
        exists hk. split_and!; [|by rewrite <-!app_assoc in Hpre2|done].
        etrans; [|exact Hpre1]. by apply prefix_app_r.
Qed.

Lemma slept_paused_attempts (prompts : list string) :
  slept (concat ((λ p, pause self ++ [attempt p]) <$> prompts))
  = Z.of_nat (length prompts) * Z.max 0 (rate_limit_delay self).
Proof.
  induction prompts as [|p prompts IH]; [done|].
  rewrite fmap_cons, concat_cons, !slept_app, IH, slept_pause.
  simpl. lia.
Qed.

(** X1 — the handler's batch over [N] prompts sleeps [N - 1] pauses
    in all, each right before an attempt that is not the first, whatever
    the attempts answer. *)
Lemma handler_batch_pauses (prompts : list string) (h : history) :
  ∃ new results,
    create_multiple_images_with_progress self E prompts
      output_dir quality img_size style h
    = (h ++ new, Return results) ∧
    pacing new =
      match prompts with
      | [] => []
      | p :: rest =>
          attempt p :: concat ((λ p', pause self ++ [attempt p']) <$> rest)
      end ∧
    slept new =
      Z.of_nat (length prompts - 1) * Z.max 0 (rate_limit_delay self).
Proof.
  destruct (create_multiple_images_with_progress_run prompts h)
    as (new & results & Hrun & _ & Hpacing & _).
  exists new, results. split_and!; [done..|].
  rewrite <-slept_pacing, Hpacing.
  destruct prompts as [|p rest]; [done|].
  change (attempt p :: ?l) with ([attempt p] ++ l).
  rewrite slept_app, slept_paused_attempts. simpl. f_equal. lia.
Qed.

(** C7 — a batch of one prompt makes its one attempt and never sleeps. *)
Theorem handler_single_item_no_delay (prompt : string) (h : history) :
  ∃ new result,
    create_multiple_images_with_progress self E [prompt]
      output_dir quality img_size style h
    = (h ++ new, Return [result]) ∧
    pacing new = [attempt prompt] ∧
    (∀ seconds, EvSleep seconds ∉ new) ∧
    slept new = 0.
Proof.
  destruct (create_multiple_images_with_progress_run [prompt] h)
    as (new & results & Hrun & Hlen & Hpacing & _).
  destruct results as [|result [|]]; try done.
  exists new, result. split_and!; [done..| |].
  - intros seconds Hin%sleep_in_pacing.
    rewrite Hpacing in Hin. by apply list_elem_of_singleton in Hin.
  - by rewrite <-slept_pacing, Hpacing.
Qed.

End handler_batch.

(** ** Single images and the batch of imgCreator *)

Section image_batch.
Import imgCreator.
Variable E : env.

Lemma resolve_output_filename_run (selected_scene : Z)
    (output_filename : option string) (h : history) :
  ∃ pre f,
    resolve_output_filename E selected_scene output_filename h
    = (h ++ pre, Return f) ∧
    pacing pre = [] ∧
    (∀ g, output_filename = Some g → pre = [] ∧ f = g).
Proof.
  destruct output_filename as [g|]; simpl.
  - exists [], g. unfold ret. rewrite app_nil_r. split_and!; try done.
    by intros ? [= <-].
  - unfold bind, call, ret. eexists [EvNow], _. split_and!; done.
Qed.

(** [generate_image] once its output file name is known: the request,
    the download and, for status 200, the file write, each of which may
    raise. *)
Lemma generate_image_run (all_scenes : string) (selected_scene : Z)
    (scene_script scene_keyword : string) (output_filename : option string)
    (model : string) (h h0 : history) (f : string) :
  resolve_output_filename E selected_scene output_filename h = (h0, Return f) →
  let prompt :=
    image_prompt all_scenes selected_scene scene_script scene_keyword in
  let h1 := h0 ++ [EvImagesGenerate model prompt] in
  generate_image E all_scenes selected_scene scene_script scene_keyword
    output_filename model h
  = match images_generate E h0 model prompt with
    | Raise e => (h1, Raise e)
    | Return url =>
        let h2 := h1 ++ [EvHttpGet url] in
        match requests_get E h1 url with
        | Raise e => (h2, Raise e)
        | Return (status, body) =>
            if decide (status = 200) then
              let h3 := h2 ++ [EvFileWrite f body] in
              match file_write E h2 f body with
              | Raise e => (h3, Raise e)
              | Return _ => (h3, Return (Some f))
              end
            else (h2, Return None)
        end
    end.
Proof.
  intros Hres prompt h1. unfold generate_image.
  unfold bind at 1. rewrite Hres.
  unfold bind at 1. unfold call at 1. fold prompt. fold h1.
  destruct (images_generate E h0 model prompt) as [url|e]; [|done].
  unfold bind at 1. unfold call at 1.
  destruct (requests_get E h1 url) as [[status body]|e]; [|done].
  simpl. destruct (decide (status = 200)) as [->|Hne]; [|done].
  unfold bind, call, ret.
  by destruct (file_write E (h1 ++ [EvHttpGet url]) f body) as [[]|e].
Qed.

Lemma scene_attempt_found (scenes_data : scenes_file)
    (all_scenes_context output_dir : string) (scene_num : Z)
    (scenes : scenes_dict) (scene_data : scene_obj)
    (scene_script scene_keyword : string) (h : history) :
  dict_get scenes_data "scenes" = Some scenes →
  dict_get scenes (scene_key scene_num) = Some scene_data →
  dict_get scene_data "script" = Some scene_script →
  dict_get scene_data "main_keyword" = Some scene_keyword →
  scene_attempt E scenes_data all_scenes_context output_dir scene_num h
  = generate_image E all_scenes_context scene_num scene_script scene_keyword
      (Some (path_join output_dir ("scene_" +:+ pretty scene_num +:+ ".png")))
      "dall-e-3" h.
Proof.
  intros Hscenes Hscene Hscript Hkeyword.
  unfold scene_attempt, subscript.
  rewrite Hscenes. unfold bind at 1. unfold ret at 1.
  rewrite Hscene. unfold bind at 1. unfold ret at 1.
  rewrite Hscript. unfold bind at 1. unfold ret at 1.
  rewrite Hkeyword. unfold bind at 1. unfold ret at 1.
  reflexivity.
Qed.

(** One iteration of the batch loop, in terms of what its attempt came
    back with: a returned value, [None] included, takes the rest of the
    [try] block with its sleep; an exception takes the handler, which
    does not sleep. *)
Lemma scene_iteration_run (scenes_data : scenes_file)
    (all_scenes_context output_dir : string) (scene_num : Z)
    (results : gmap Z (option string)) (h : history) :
  let h1 := h ++ [EvPrint ("🎨 Processing Scene " +:+ pretty scene_num +:+ "/18...")] in
  let r := scene_attempt E scenes_data all_scenes_context output_dir scene_num h1 in
  scene_iteration E scenes_data all_scenes_context output_dir scene_num results h
  = (r.1 ++
       match r.2 with
       | Return image_path =>
           EvPrint ("✅ Scene " +:+ pretty scene_num +:+ " completed: "
                    +:+ str_opt image_path)
           :: (if decide (scene_num < 18)
               then [EvPrint "⏳ Waiting 12 seconds to respect rate limit...";
                     EvSleep 12]
               else [])
       | Raise e =>
           [EvPrint ("❌ Scene " +:+ pretty scene_num +:+ " failed: "
                     +:+ str_exn e)]
       end,
     Return (<[scene_num := recorded r.2]> results)).
Proof.
  intros h1 r. unfold scene_iteration, try_except.
  unfold bind at 1. unfold print at 1. unfold emit at 1. fold h1.
  unfold bind at 1. fold r.
  destruct r as [h2 [image_path|e]]; simpl.
  - unfold bind at 1. unfold print at 1. unfold emit at 1.
    destruct (decide (scene_num < 18)) as [Hlt|Hge].
    + unfold bind, print, sleep, emit, ret.
      by rewrite <-!app_assoc.
    + unfold bind, ret. by rewrite <-?app_assoc.
  - unfold bind, print, emit, ret. done.
Qed.

(** C9, as amended — once the request has answered with a URL and the
    download with a status, [generate_image] returns the output file
    path exactly when the status is 200 and the file write does not
    raise; with any other status it returns [None] without raising, and
    the batch loop then records [None] for the scene on the normal path
    of its [try] block (the completion line, and the sleep when the
    scene is not the last), not in its handler. *)
Theorem generate_image_path_iff_200_and_written
    (all_scenes : string) (selected_scene : Z)
    (scene_script scene_keyword : string) (output_filename : option string)
    (model : string) (h h0 : history) (f url : string) (status : Z)
    (body : string) :
  let prompt :=
    image_prompt all_scenes selected_scene scene_script scene_keyword in
  let h1 := h0 ++ [EvImagesGenerate model prompt] in
  let h2 := h1 ++ [EvHttpGet url] in
  resolve_output_filename E selected_scene output_filename h = (h0, Return f) →
  images_generate E h0 model prompt = Return url →
  requests_get E h1 url = Return (status, body) →
  (∀ path,
     (generate_image E all_scenes selected_scene scene_script scene_keyword
        output_filename model h).2 = Return (Some path) ↔
     path = f ∧ status = 200 ∧ file_write E h2 f body = Return tt) ∧
  (status ≠ 200 →
   generate_image E all_scenes selected_scene scene_script scene_keyword
     output_filename model h = (h2, Return None)) ∧
  (status ≠ 200 →
   ∀ (scenes_data : scenes_file) (output_dir : string)
     (results : gmap Z (option string)) (hb : history)
     (scenes : scenes_dict) (scene_data : scene_obj),
     dict_get scenes_data "scenes" = Some scenes →
     dict_get scenes (scene_key selected_scene) = Some scene_data →
     dict_get scene_data "script" = Some scene_script →
     dict_get scene_data "main_keyword" = Some scene_keyword →
     output_filename =
       Some (path_join output_dir
               ("scene_" +:+ pretty selected_scene +:+ ".png")) →
     model = "dall-e-3" →
     h = hb ++ [EvPrint ("🎨 Processing Scene " +:+ pretty selected_scene
                         +:+ "/18...")] →
     scene_iteration E scenes_data all_scenes output_dir selected_scene
       results hb
     = (h2 ++
          EvPrint ("✅ Scene " +:+ pretty selected_scene +:+ " completed: None")
          :: (if decide (selected_scene < 18)
              then [EvPrint "⏳ Waiting 12 seconds to respect rate limit...";
                    EvSleep 12]
              else []),
        Return (<[selected_scene := None]> results))).
Proof.
  intros prompt h1 h2 Hres Hgen Hget.
  pose proof (generate_image_run all_scenes selected_scene scene_script
                scene_keyword output_filename model h h0 f Hres) as Hrun.
  simpl in Hrun. fold prompt in Hrun. fold h1 in Hrun.
  rewrite Hgen, Hget in Hrun. fold h2 in Hrun.
  assert (Hother : status ≠ 200 →
            generate_image E all_scenes selected_scene scene_script
              scene_keyword output_filename model h = (h2, Return None)).
  { intros Hne. rewrite Hrun. by rewrite decide_False. }
  split_and!; [|done|].
  - intros path. rewrite Hrun.
    destruct (decide (status = 200)) as [Hok|Hne].
    + destruct (file_write E h2 f body) as [[]|e]; simpl.
      * split; [by intros [= <-]|by intros (-> & _ & _)].
      * split; [done|]. by intros (_ & _ & ?).
    + simpl. split; [done|]. by intros (_ & ? & _).
  - intros Hne scenes_data output_dir results hb scenes scene_data
      Hscenes Hscene Hscript Hkeyword -> -> ->.
    rewrite scene_iteration_run.
    rewrite (scene_attempt_found _ _ _ _ _ _ _ _ _ Hscenes Hscene Hscript Hkeyword).
    rewrite (Hother Hne). done.
Qed.

Lemma for_loop_silent {A S} (body : A → S → M S) (l : list A) (s : S)
    (h : history) :
  (∀ a s' h', (body a s' h').1 = h') → (for_loop body l s h).1 = h.
Proof.
  intros Hbody. revert s h.
  induction l as [|a l IH]; intros s h; [done|].
  simpl. unfold bind. specialize (Hbody a s h).
  destruct (body a s h) as [h' [s'|e]]; simpl in Hbody; subst h'; [|done].
  apply IH.
Qed.

Lemma subscript_silent {V} (d : list (string * V)) (k : string)
    (h : history) :
  (subscript d k h).1 = h.
Proof. unfold subscript. by destruct (dict_get d k). Qed.

(** [create_all_scenes_context] talks to nobody. *)
Lemma create_all_scenes_context_silent (scenes_data : scenes_file)
    (h : history) :
  (create_all_scenes_context scenes_data h).1 = h.
Proof.
  unfold create_all_scenes_context, subscript.
  destruct (dict_get scenes_data "scenes") as [scenes|]; [|done].
  unfold bind at 1. unfold ret at 1.
  apply for_loop_silent. intros [key scene_data] context h'.
  unfold subscript, bind, ret, raise.
  destruct (dict_get scene_data "script"); [|done].
  by destruct (dict_get scene_data "main_keyword").
Qed.

(** C10 — with the scenes file loaded, a scene number outside 1 .. 18
    and an in-range number whose key is absent both raise their
    [ValueError] right after the load, with no further event; an image
    request among the new events implies that the number is in range and
    its key present. *)
Theorem generate_scene_image_guards (json_file_path : string)
    (scene_number : Z) (output_dir : string) (h : history)
    (scenes_data : scenes_file) :
  json_load E h json_file_path = Return scenes_data →
  (scene_number < 1 ∨ scene_number > 18 →
   generate_scene_image E json_file_path scene_number output_dir h
   = (h ++ [EvLoadJson json_file_path],
      Raise (ValueError "Scene number must be between 1 and 18"))) ∧
  (∀ scenes : scenes_dict,
     1 ≤ scene_number ≤ 18 →
     dict_get scenes_data "scenes" = Some scenes →
     dict_get scenes (scene_key scene_number) = None →
     generate_scene_image E json_file_path scene_number output_dir h
     = (h ++ [EvLoadJson json_file_path],
        Raise (ValueError ("Scene " +:+ pretty scene_number
                           +:+ " not found in the data")))) ∧
  (∀ model prompt,
     EvImagesGenerate model prompt ∈
       drop (length h)
         (generate_scene_image E json_file_path scene_number output_dir h).1 →
     1 ≤ scene_number ≤ 18 ∧
     ∃ (scenes : scenes_dict) (scene_data : scene_obj),
       dict_get scenes_data "scenes" = Some scenes ∧
       dict_get scenes (scene_key scene_number) = Some scene_data).
Proof.
  intros Hload.
  assert (Hstart : ∀ k : scenes_file → M (option string),
            bind (load_scenes_from_json E json_file_path) k h
            = k scenes_data (h ++ [EvLoadJson json_file_path])).
  { intros k. unfold bind, load_scenes_from_json, call. by rewrite Hload. }
  unfold generate_scene_image. rewrite Hstart.
  assert (Hnew : ∀ model prompt,
            EvImagesGenerate model prompt ∉
              drop (length h) (h ++ [EvLoadJson json_file_path])).
  { intros model prompt. rewrite drop_app_length.
    by intros ?%list_elem_of_singleton. }
  destruct (decide (scene_number < 1 ∨ scene_number > 18)) as [Hout|Hin].
  - split_and!; [done| |].
    + intros scenes Hrange. lia.
    + intros model prompt Hev. by apply Hnew in Hev.
  - split_and!; [done| |].
    + intros scenes Hrange Hscenes Hkey.
      unfold subscript. rewrite Hscenes.
      unfold bind at 1. unfold ret at 1. by rewrite Hkey.
    + intros model prompt Hev. split; [lia|].
      unfold subscript in Hev.
      destruct (dict_get scenes_data "scenes") as [scenes|] eqn:Hscenes.
      * unfold bind at 1 in Hev. unfold ret at 1 in Hev.
        destruct (dict_get scenes (scene_key scene_number))
          as [scene_data|] eqn:Hkey; [by eauto|].
        by apply Hnew in Hev.
      * by apply Hnew in Hev.
Qed.

(** An attempt only adds events to the history, and no sleep. *)
Lemma scene_attempt_extends (scenes_data : scenes_file)
    (all_scenes_context output_dir : string) (scene_num : Z) (h : history) :
  ∃ ext,
    (scene_attempt E scenes_data all_scenes_context output_dir scene_num h).1
    = h ++ ext ∧
    slept ext = 0.
Proof.
  unfold scene_attempt, subscript.
  destruct (dict_get scenes_data "scenes") as [scenes|];
    [|by exists []; rewrite app_nil_r].
  unfold bind at 1. unfold ret at 1.
  destruct (dict_get scenes (scene_key scene_num)) as [scene_data|];
    [|by exists []; rewrite app_nil_r].
  unfold bind at 1. unfold ret at 1.
  destruct (dict_get scene_data "script") as [scene_script|];
    [|by exists []; rewrite app_nil_r].
  unfold bind at 1. unfold ret at 1.
  destruct (dict_get scene_data "main_keyword") as [scene_keyword|];
    [|by exists []; rewrite app_nil_r].
  unfold bind at 1. unfold ret at 1.
  erewrite generate_image_run by reflexivity. simpl.
  destruct (images_generate E h _ _) as [url|e]; [|by eexists [_]].
  destruct (requests_get E _ url) as [[status body]|e];
    [|by eexists [_; _]; rewrite <-app_assoc].
  destruct (decide (status = 200)) as [_|_];
    [|by eexists [_; _]; rewrite <-app_assoc].
  destruct (file_write E _ _ body) as [[]|e];
    by eexists [_; _; _]; rewrite <-!app_assoc.
Qed.

(** The loop of [generate_all_scenes_with_rate_limit] over a list of
    scene numbers: it always returns, leaves the entries of the other
    scenes alone, and the entry of each scene of the list is what that
    scene's own attempt came back with. *)
Lemma batch_loop_run (scenes_data : scenes_file)
    (all_scenes_context output_dir : string) (scene_nums : list Z)
    (results : gmap Z (option string)) (h : history) :
  NoDup scene_nums →
  ∃ new results',
    for_loop (scene_iteration E scenes_data all_scenes_context output_dir)
      scene_nums results h
    = (h ++ new, Return results') ∧
    (∀ k, k ∉ scene_nums → results' !! k = results !! k) ∧
    (∀ k, k ∈ scene_nums →
       ∃ hk,
         let start := hk ++ [EvPrint ("🎨 Processing Scene " +:+ pretty k +:+ "/18...")] in
         h `prefix_of` hk ∧ start `prefix_of` h ++ new ∧
         results' !! k =
           Some (recorded (scene_attempt E scenes_data all_scenes_context
                             output_dir k start).2)).
Proof.
  revert results h.
  induction scene_nums as [|n rest IH]; intros results h Hnodup.
  - exists [], results. rewrite app_nil_r. split_and!; [done..|].
    intros k Hk. by apply elem_of_nil in Hk.
  - apply NoDup_cons in Hnodup as [Hn Hrest].
    change (for_loop ?f (?a :: ?l) ?s) with (bind (f a s) (for_loop f l)).
    unfold bind at 1. rewrite scene_iteration_run.
    set (start := h ++ [EvPrint ("🎨 Processing Scene " +:+ pretty n +:+ "/18...")]).
    destruct (scene_attempt_extends scenes_data all_scenes_context
                output_dir n start) as (ext & Hext & _).
    set (r := scene_attempt E scenes_data all_scenes_context output_dir n start)
      in *.
    rewrite Hext.
    set (tail := match r.2 with Return _ => _ | Raise _ => _ end).
    destruct (IH (<[n := recorded r.2]> results) ((start ++ ext) ++ tail) Hrest)
      as (new & results' & -> & Hother & Hthose).
    exists ([EvPrint ("🎨 Processing Scene " +:+ pretty n +:+ "/18...")]
            ++ ext ++ tail ++ new), results'.
    split_and!.
    + f_equal. unfold start. by rewrite <-!app_assoc.
    + intros k Hk. apply not_elem_of_cons in Hk as [Hkn Hk].
      rewrite (Hother k Hk). by rewrite lookup_insert_ne.
    + intros k [->|Hk]%elem_of_cons.
      * exists h. split_and!; [done| |].
        -- apply prefix_app. by apply prefix_app_r.
        -- rewrite (Hother n Hn). fold start. by rewrite lookup_insert_eq.
      * destruct (Hthose k Hk) as (hk & Hpre1 & Hpre2 & Hlook).
        exists hk. split_and!; [|..|done].
        -- etrans; [|exact Hpre1]. unfold start.
           rewrite <-!app_assoc. by apply prefix_app_r.
        -- unfold start in Hpre2. by rewrite <-!app_assoc in Hpre2.
Qed.

(** What one iteration sleeps: 12 seconds when the attempt returned and
    the scene is not the last, nothing when the attempt raised. *)
Lemma scene_iteration_slept (scenes_data : scenes_file)
    (all_scenes_context output_dir : string) (scene_num : Z)
    (results : gmap Z (option string)) (h : history) :
  let start := h ++ [EvPrint ("🎨 Processing Scene " +:+ pretty scene_num +:+ "/18...")] in
  slept (scene_iteration E scenes_data all_scenes_context output_dir
           scene_num results h).1
  = slept h +
    match (scene_attempt E scenes_data all_scenes_context output_dir
             scene_num start).2 with
    | Return _ => if decide (scene_num < 18) then 12 else 0
    | Raise _ => 0
    end.
Proof.
  intros start. rewrite scene_iteration_run. fold start.
  destruct (scene_attempt_extends scenes_data all_scenes_context output_dir
              scene_num start) as (ext & Hext & Hslept).
  destruct (scene_attempt E scenes_data all_scenes_context output_dir
              scene_num start) as [h2 out].
  simpl in *. subst h2. unfold start.
  rewrite !slept_app, Hslept.
  destruct out as [image_path|e]; [|simpl; lia].
  destruct (decide (scene_num < 18)); simpl; lia.
Qed.

(** [generate_all_scenes_with_rate_limit] once the directory exists, the
    scenes file is loaded and the story context is built. *)
Lemma generate_all_scenes_with_rate_limit_run
    (json_file_path output_dir : string) (h : history)
    (scenes_data : scenes_file) (all_scenes_context : string) :
  makedirs E h output_dir = Return tt →
  json_load E (h ++ [EvMakedirs output_dir]) json_file_path
    = Return scenes_data →
  (create_all_scenes_context scenes_data
     ((h ++ [EvMakedirs output_dir]) ++ [EvLoadJson json_file_path])).2
    = Return all_scenes_context →
  ∃ new results,
    generate_all_scenes_with_rate_limit E json_file_path output_dir h
    = (h ++ new, Return results) ∧
    dom results = list_to_set (range 1 19) ∧
    ∀ k, 1 ≤ k ≤ 18 →
      ∃ hk,
        let start := hk ++ [EvPrint ("🎨 Processing Scene " +:+ pretty k +:+ "/18...")] in
        h `prefix_of` hk ∧ start `prefix_of` h ++ new ∧
        results !! k =
          Some (recorded (scene_attempt E scenes_data all_scenes_context
                            output_dir k start).2).
Proof.
  intros Hmk Hload Hctx.
  unfold generate_all_scenes_with_rate_limit.
  unfold bind at 1. unfold call at 1. rewrite Hmk.
  unfold bind at 1. unfold load_scenes_from_json, call. rewrite Hload.
  unfold bind at 1.
  pose proof (create_all_scenes_context_silent scenes_data
                ((h ++ [EvMakedirs output_dir]) ++ [EvLoadJson json_file_path]))
    as Hsilent.
  destruct (create_all_scenes_context scenes_data _) as [h' out].
  simpl in Hsilent, Hctx. subst h' out.
  unfold bind at 1. unfold print at 1. unfold emit at 1.
  set (h0 := ((h ++ _) ++ _) ++ _).
  destruct (batch_loop_run scenes_data all_scenes_context output_dir
              (range 1 19) ∅ h0) as (new & results & -> & Hother & Hthose).
  { apply NoDup_seqZ. }
  assert (Hh0 : h `prefix_of` h0).
  { unfold h0. rewrite <-!app_assoc. by apply prefix_app_r. }
  destruct Hh0 as [pre Hpre].
  exists (pre ++ new), results. split_and!.
  - by rewrite Hpre, <-app_assoc.
  - apply set_eq. intros k. rewrite elem_of_dom, elem_of_list_to_set.
    destruct (decide (k ∈ range 1 19)) as [Hk|Hk].
    + destruct (Hthose k Hk) as (hk & _ & _ & ->). split; [done|by eexists].
    + rewrite (Hother k Hk), lookup_empty. split; [by intros [? ?]|done].
  - intros k Hk.
    destruct (Hthose k) as (hk & Hpre1 & Hpre2 & Hlook).
    { unfold range. apply elem_of_seqZ. lia. }
    exists hk. split_and!; [|by rewrite app_assoc, <-Hpre|done].
    etrans; [|exact Hpre1]. by exists pre.
Qed.

End image_batch.

Lemma generate_image_path_iff_200_and_written_witness :
  let prompt := imgCreator.image_prompt "story" 2 "line" "word" in
  let h2 := [EvImagesGenerate "dall-e-3" prompt; EvHttpGet "https://img/0"] in
  (imgCreator.generate_image Examples.env_ok "story" 2 "line" "word"
     (Some "images/scene_2.png") "dall-e-3" []).2
  = Return (Some "images/scene_2.png") ∧
  imgCreator.generate_image Examples.env_download_500 "story" 2 "line" "word"
    (Some "images/scene_2.png") "dall-e-3" []
  = (h2, Return None) ∧
  imgCreator.scene_iteration Examples.env_download_500 Examples.scenes_json
    "story" "images" 2 ∅ []
  = ([EvPrint "🎨 Processing Scene 2/18..."] ++ h2 ++
       [EvPrint "✅ Scene 2 completed: None";
        EvPrint "⏳ Waiting 12 seconds to respect rate limit...";
        EvSleep 12],
     Return {[ 2 := None ]}).
Proof.
  intros prompt h2. split_and!.
  - apply (generate_image_path_iff_200_and_written Examples.env_ok
             "story" 2 "line" "word" (Some "images/scene_2.png") "dall-e-3"
             [] [] "images/scene_2.png" "https://img/0" 200 "png");
      [reflexivity..|].
    split_and!; [reflexivity..].
  - apply (generate_image_path_iff_200_and_written Examples.env_download_500
             "story" 2 "line" "word" (Some "images/scene_2.png") "dall-e-3"
             [] [] "images/scene_2.png" "https://img/0" 500 "png");
      [reflexivity..|lia].
  - pose proof (generate_image_path_iff_200_and_written
                  Examples.env_download_500
                  "story" 2 "line" "word" (Some "images/scene_2.png")
                  "dall-e-3" [EvPrint "🎨 Processing Scene 2/18..."]
                  [EvPrint "🎨 Processing Scene 2/18..."]
                  "images/scene_2.png" "https://img/0" 500 "png"
                  eq_refl eq_refl eq_refl) as (_ & _ & Hbatch).
    eapply (Hbatch ltac:(lia) Examples.scenes_json "images" ∅ []);
      reflexivity.
Defined.

(** Without the condition on the file write the equivalence fails: here
    the download answers 200 and [generate_image] raises instead of
    returning the path. *)
Lemma generate_image_status_200_without_path :
  let prompt := imgCreator.image_prompt "story" 1 "line" "word" in
  requests_get Examples.env_write_raises
    [EvImagesGenerate "dall-e-3" prompt] "https://img/0"
  = Return (200, "png") ∧
  (imgCreator.generate_image Examples.env_write_raises "story" 1 "line" "word"
     (Some "images/scene_1.png") "dall-e-3" []).2
  = Raise (ExternalError "No such file or directory").
Proof. split; reflexivity. Qed.

Lemma generate_scene_image_guards_witness :
  imgCreator.generate_scene_image Examples.env_ok "result4.json" 19 "images" []
  = ([] ++ [EvLoadJson "result4.json"],
     Raise (ValueError "Scene number must be between 1 and 18")) ∧
  imgCreator.generate_scene_image Examples.env_without_7 "result4.json" 7
    "images" []
  = ([] ++ [EvLoadJson "result4.json"],
     Raise (ValueError ("Scene " +:+ pretty 7 +:+ " not found in the data"))) ∧
  (1 ≤ 3 ≤ 18 ∧
   ∃ (scenes : scenes_dict) (scene_data : scene_obj),
     dict_get Examples.scenes_json "scenes" = Some scenes ∧
     dict_get scenes (imgCreator.scene_key 3) = Some scene_data).
Proof.
  split; [|split].
  - apply (generate_scene_image_guards Examples.env_ok "result4.json" 19
             "images" [] Examples.scenes_json); [reflexivity|lia].
  - eapply (generate_scene_image_guards Examples.env_without_7 "result4.json"
              7 "images" [] Examples.scenes_json_without_7);
      [reflexivity | lia | reflexivity | vm_compute; reflexivity].
  - apply (proj2 (proj2 (generate_scene_image_guards Examples.env_ok
             "result4.json" 3 "images" [] Examples.scenes_json eq_refl))
             "dall-e-3"
             (imgCreator.image_prompt Examples.story_context 3 "line" "word")).
    apply (bool_decide_unpack _). vm_compute. exact I.
Defined.

(** ** One failure does not stop a batch *)

(** C3 — both batch runners always return their results.  The batch of
    [imgCreator], once its directory, scenes file and story context are
    there, answers a mapping whose keys are exactly 1 .. 18 and whose
    entry for a scene is the path its own attempt returned, or [None]
    when that attempt returned [None] or raised.  The handler's batch
    answers one entry per prompt: the non-empty path that prompt's own
    call of [create_single_image] returned, when the preview of that
    image went through, and [None] in every other case (the call raised
    or returned nothing, or the preview raised). *)
Theorem batch_failure_does_not_abort (E : env)
    (json_file_path output_dir : string) (h : history)
    (scenes_data : scenes_file) (all_scenes_context : string)
    (self : streamlit_image_handler.StreamlitImageHandler)
    (prompts : list string) (handler_dir quality img_size style : string)
    (hs : history) :
  makedirs E h output_dir = Return tt →
  json_load E (h ++ [EvMakedirs output_dir]) json_file_path
    = Return scenes_data →
  (imgCreator.create_all_scenes_context scenes_data
     ((h ++ [EvMakedirs output_dir]) ++ [EvLoadJson json_file_path])).2
    = Return all_scenes_context →
  (∃ new results,
     imgCreator.generate_all_scenes_with_rate_limit E json_file_path
       output_dir h
     = (h ++ new, Return results) ∧
     dom results = list_to_set (range 1 19) ∧
     ∀ k, 1 ≤ k ≤ 18 →
       ∃ hk,
         let start := hk ++ [EvPrint ("🎨 Processing Scene " +:+ pretty k +:+ "/18...")] in
         h `prefix_of` hk ∧ start `prefix_of` h ++ new ∧
         results !! k =
           Some (recorded (imgCreator.scene_attempt E scenes_data
                             all_scenes_context output_dir k start).2)) ∧
  (∃ new results,
     streamlit_image_handler.create_multiple_images_with_progress self E
       prompts handler_dir quality img_size style hs
     = (hs ++ new, Return results) ∧
     length results = length prompts ∧
     ∀ (k : nat) (p : string), prompts !! k = Some p →
       ∃ hk, hs `prefix_of` hk ∧ hk `prefix_of` hs ++ new ∧
             results !! k =
               Some (attempt_result E hk p handler_dir quality img_size
                       style)).
Proof.
  intros Hmk Hload Hctx. split.
  - by eapply generate_all_scenes_with_rate_limit_run.
  - destruct (create_multiple_images_with_progress_run self E handler_dir
                quality img_size style prompts hs)
      as (new & results & Hrun & Hlen & _ & Hres).
    by exists new, results.
Qed.

Lemma batch_failure_does_not_abort_witness :
  (∃ new results,
     imgCreator.generate_all_scenes_with_rate_limit
       Examples.env_second_request_raises "result4.json" "images" []
     = ([] ++ new, Return results) ∧
     dom results = list_to_set (range 1 19) ∧
     ∀ k, 1 ≤ k ≤ 18 →
       ∃ hk,
         let start := hk ++ [EvPrint ("🎨 Processing Scene " +:+ pretty k +:+ "/18...")] in
         [] `prefix_of` hk ∧ start `prefix_of` [] ++ new ∧
         results !! k =
           Some (recorded
                   (imgCreator.scene_attempt Examples.env_second_request_raises
                      Examples.scenes_json
                      Examples.story_context
                      "images" k start).2)) ∧
  (∃ new results,
     streamlit_image_handler.create_multiple_images_with_progress
       streamlit_image_handler.init Examples.env_second_request_raises
       ["a"; "b"; "c"] "out" "standard" "1024x1024" "vivid" []
     = ([] ++ new, Return results) ∧
     length results = length ["a"; "b"; "c"] ∧
     ∀ (k : nat) (p : string), ["a"; "b"; "c"] !! k = Some p →
       ∃ hk, [] `prefix_of` hk ∧ hk `prefix_of` [] ++ new ∧
             results !! k =
               Some (attempt_result Examples.env_second_request_raises
                       hk p "out" "standard" "1024x1024" "vivid")).
Proof.
  apply (batch_failure_does_not_abort Examples.env_second_request_raises
           "result4.json" "images" [] Examples.scenes_json
           Examples.story_context);
    [reflexivity | reflexivity | vm_compute; reflexivity].
Defined.

(** The handler's batch of three prompts whose second attempt fails:
    the first and the third entry are populated, the second is [None],
    and the batch slept two pauses of 12 seconds. *)
Example handler_three_items_second_fails :
  let r :=
    streamlit_image_handler.create_multiple_images_with_progress
      streamlit_image_handler.init Examples.env_second_single_fails
      ["a"; "b"; "c"] "out" "standard" "1024x1024" "vivid" [] in
  r.2 = Return [Some "out/0.png"; None; Some "out/2.png"] ∧
  slept r.1 = 2 * 12.
Proof. split; vm_compute; reflexivity. Qed.

(** The same batch when every image is created but the second cannot
    be shown: the second entry is [None] although its file exists, and
    the batch goes on to the third prompt. *)
Example handler_second_preview_fails :
  let r :=
    streamlit_image_handler.create_multiple_images_with_progress
      streamlit_image_handler.init Examples.env_second_preview_fails
      ["a"; "b"; "c"] "out" "standard" "1024x1024" "vivid" [] in
  r.2 = Return [Some "out/0.png"; None; Some "out/2.png"] ∧
  filter (λ e, is_create_single_image e = true) r.1
  = [EvCreateSingleImage "a" "out" "standard" "1024x1024" "vivid";
     EvCreateSingleImage "b" "out" "standard" "1024x1024" "vivid";
     EvCreateSingleImage "c" "out" "standard" "1024x1024" "vivid"] ∧
  slept r.1 = 2 * 12.
Proof. split_and!; vm_compute; reflexivity. Qed.

(** ** The sleep of imgCreator's batch sits inside the [try] block *)

(** C2 — the batch of [imgCreator] over its 18 scenes, with the image
    request of scene 2 raising and every other scene succeeding: scene 2
    is recorded as [None], the batch sleeps 16 times 12 seconds instead
    of 17 times, and the attempts of scenes 2 and 3 follow each other
    with no sleep in between. *)
Theorem batch_skips_sleep_after_exception :
  let r :=
    imgCreator.generate_all_scenes_with_rate_limit
      Examples.env_second_request_raises "result4.json" "images" [] in
  (∃ results, r.2 = Return results ∧
              results !! 1 = Some (Some "images/scene_1.png") ∧
              results !! 2 = Some None ∧
              results !! 3 = Some (Some "images/scene_3.png")) ∧
  length (filter (λ e, is_attempt e = true) r.1) = 18%nat ∧
  slept r.1 = 16 * 12 ∧
  is_sleep <$> take 5 (pacing r.1) = [false; true; false; false; true].
Proof.
  split_and!.
  - eexists. split; [vm_compute; reflexivity|].
    split_and!; vm_compute; reflexivity.
  - vm_compute. reflexivity.
  - vm_compute. reflexivity.
  - vm_compute. reflexivity.
Qed.

(** With the download of scene 2 answering 500 instead, [generate_image]
    returns [None], the [try] block runs on, and the batch sleeps all 17
    times. *)
Example batch_sleeps_after_none :
  let r :=
    imgCreator.generate_all_scenes_with_rate_limit
      Examples.env_second_download_500 "result4.json" "images" [] in
  (∃ results, r.2 = Return results ∧ results !! 2 = Some None) ∧
  slept r.1 = 17 * 12.
Proof.
  split.
  - eexists. split; vm_compute; reflexivity.
  - vm_compute. reflexivity.
Qed.

(** ** The retry pass *)

Section retry.
Import streamlit_image_handler.
Variables (self : StreamlitImageHandler) (E : env).
Variables (output_dir quality img_size style : string).

Local Abbreviation attempt prompt :=
  (EvCreateSingleImage prompt output_dir quality img_size style).
Local Abbreviation result_of x :=
  (entry_result E output_dir quality img_size style x).
Local Abbreviation failed_of round :=
  (still_failed E output_dir quality img_size style round).
Local Abbreviation recorded_in entries results :=
  (record_successes E output_dir quality img_size style entries results).
Local Abbreviation attempts_of entries :=
  ((λ x : (Z * string) * history, attempt x.1.2) <$> entries).

Lemma rounds_run_app (h1 h2 : history) :
  rounds_run (h1 ++ h2) = (rounds_run h1 + rounds_run h2)%nat.
Proof. unfold rounds_run. by rewrite filter_app, length_app. Qed.

Lemma created_app (h1 h2 : history) :
  filter (λ e, is_create_single_image e = true) (h1 ++ h2)
  = filter (λ e, is_create_single_image e = true) h1
    ++ filter (λ e, is_create_single_image e = true) h2.
Proof. apply filter_app. Qed.

Lemma pause_quiet :
  rounds_run (pause self) = 0%nat ∧
  filter (λ e, is_create_single_image e = true) (pause self) = [].
Proof.
  unfold pause, rounds_run.
  induction (Z.to_nat (rate_limit_delay self)) as [|n [IH1 IH2]]; [done|].
  change (replicate (S n) (EvSleep 1)) with (EvSleep 1 :: replicate n (EvSleep 1)).
  rewrite !filter_cons_False by done. done.
Qed.

Lemma truthy_single_result (a : outcome (option string)) :
  truthy (single_result a) = false ↔ single_result a = None.
Proof.
  destruct a as [[r|]|e]; simpl; try done.
  destruct (negb (String.eqb r EmptyString)) eqn:Hr; simpl.
  - rewrite Hr. done.
  - done.
Qed.

Lemma single_result_Some (a : outcome (option string)) (path : string) :
  single_result a = Some path → truthy (Some path) = true.
Proof.
  intros Ha. destruct (truthy (Some path)) eqn:Ht; [done|].
  rewrite <-Ha in Ht. apply truthy_single_result in Ht. congruence.
Qed.

Lemma truthy_attempt_result (prompt : string) (h : history) :
  truthy (attempt_result E h prompt output_dir quality img_size style) = false
  ↔ attempt_result E h prompt output_dir quality img_size style = None.
Proof.
  unfold attempt_result.
  destruct (single_result _) as [path|] eqn:Hpath; [|done].
  destruct (st_image E _ path) as [[]|e]; [|done].
  rewrite (single_result_Some _ _ Hpath). done.
Qed.

Lemma retry_attempt_run (idx : Z) (prompt : string)
    (remaining : list (Z * string)) (results : gmap Z (option string))
    (h : history) :
  ∃ before after,
    let x := ((idx, prompt), h ++ before) in
    retry_attempt self E output_dir quality img_size style (idx, prompt)
      (remaining, results) h
    = (h ++ before ++ [attempt prompt] ++ after,
       Return (remaining ++ failed_of [x], recorded_in [x] results)) ∧
    rounds_run before = 0%nat ∧
    filter (λ e, is_create_single_image e = true) before = [] ∧
    rounds_run after = 0%nat ∧
    filter (λ e, is_create_single_image e = true) after = [].
Proof.
  unfold retry_attempt.
  set (label := EvSt "write" ("재시도: 이미지 #" +:+ pretty (idx + 1))).
  set (before := (if decide (0 < size results)%nat then pause self else [])
                 ++ [label]).
  exists before, (preview E (h ++ before) prompt output_dir quality img_size
                    style).
  assert (Hstart :
    ∀ k : unit → M (list (Z * string) * gmap Z (option string)),
      bind (if decide (0 < size results)%nat
            then handle_rate_limit self else ret tt) k h
      = k tt (h ++ (if decide (0 < size results)%nat then pause self else []))).
  { intros k. unfold bind. destruct (decide (0 < size results)%nat).
    - by rewrite handle_rate_limit_run.
    - unfold ret. by rewrite app_nil_r. }
  rewrite Hstart. unfold bind at 1. unfold st at 1. unfold emit at 1. fold label.
  rewrite <-(app_assoc h). fold before.
  unfold bind at 1. rewrite create_single_image_with_progress_run.
  pose proof (preview_quiet E output_dir quality img_size style prompt
                (h ++ before)) as (_ & _ & Hrounds & Hcreated).
  split_and!; [|..|done|done].
  - unfold still_failed, record_successes, entry_result. simpl.
    rewrite <-?app_assoc.
    pose proof (truthy_attempt_result prompt (h ++ before)) as Hr.
    set (r := attempt_result _ _ _ _ _ _ _) in *.
    destruct (truthy r) eqn:Ht; unfold ret.
    + rewrite filter_cons_False, filter_nil; [by rewrite app_nil_r|].
      simpl. intros Hnone. fold r in Hnone. rewrite Hnone in Ht. done.
    + rewrite filter_cons_True, filter_nil; [done|].
      simpl. by apply Hr.
  - unfold before. rewrite rounds_run_app.
    destruct (decide (0 < size results)%nat).
    + by rewrite (proj1 pause_quiet).
    + done.
  - unfold before. rewrite created_app.
    destruct (decide (0 < size results)%nat).
    + by rewrite (proj2 pause_quiet).
    + done.
Qed.

Lemma failed_of_app (r1 r2 : list ((Z * string) * history)) :
  failed_of (r1 ++ r2) = failed_of r1 ++ failed_of r2.
Proof. unfold still_failed. by rewrite filter_app, fmap_app. Qed.

Lemma recorded_in_app (e1 e2 : list ((Z * string) * history))
    (results : gmap Z (option string)) :
  recorded_in (e1 ++ e2) results = recorded_in e2 (recorded_in e1 results).
Proof. unfold record_successes. by rewrite foldl_app. Qed.

(** A round: every item of the list is attempted once, in order. *)
Lemma retry_round_loop (items remaining : list (Z * string))
    (results : gmap Z (option string)) (h : history) :
  ∃ new entries,
    for_loop (retry_attempt self E output_dir quality img_size style)
      items (remaining, results) h
    = (h ++ new,
       Return (remaining ++ failed_of entries, recorded_in entries results)) ∧
    fst <$> entries = items ∧
    rounds_run new = 0%nat ∧
    filter (λ e, is_create_single_image e = true) new = attempts_of entries ∧
    Forall (λ x, h `prefix_of` x.2 ∧
                 x.2 ++ [attempt x.1.2] `prefix_of` h ++ new) entries.
Proof.
  revert remaining results h.
  induction items as [|[idx prompt] items IH]; intros remaining results h.
  - exists [], []. simpl. unfold ret. rewrite !app_nil_r. done.
  - change (for_loop ?f (?a :: ?l) ?s) with (bind (f a s) (for_loop f l)).
    unfold bind at 1.
    destruct (retry_attempt_run idx prompt remaining results h)
      as (before & after & Hrun & Hquiet & Hcreated & Hquiet' & Hcreated').
    cbv zeta in Hrun. rewrite Hrun.
    set (x := ((idx, prompt), h ++ before)) in *.
    destruct (IH (remaining ++ failed_of [x]) (recorded_in [x] results)
                (h ++ before ++ [attempt prompt] ++ after))
      as (new & entries & -> & Hitems & Hrounds & Hattempts & Hhist).
    exists (before ++ [attempt prompt] ++ after ++ new), (x :: entries).
    split_and!.
    + f_equal; [by rewrite <-!app_assoc|]. f_equal.
      change (x :: entries) with ([x] ++ entries).
      by rewrite failed_of_app, recorded_in_app, <-app_assoc.
    + by rewrite fmap_cons, Hitems.
    + rewrite !rounds_run_app, Hquiet, Hquiet', Hrounds. done.
    + rewrite !created_app, Hcreated, Hcreated', Hattempts. done.
    + constructor.
      * unfold x. simpl. split; [by apply prefix_app_r|].
        exists (after ++ new). by rewrite <-!app_assoc.
      * eapply Forall_impl; [exact Hhist|].
        intros y [Hy1 Hy2]. split.
        -- etrans; [|exact Hy1]. by apply prefix_app_r.
        -- by rewrite <-!app_assoc in Hy2.
Qed.

(** One iteration of the outer loop that has something to retry: the
    header, the round, and [break] exactly when the round left nothing
    failed. *)
Lemma retry_iteration_run (max_retries retry_num : Z)
    (failed : list (Z * string)) (results : gmap Z (option string))
    (h : history) :
  failed ≠ [] →
  ∃ new round,
    retry_iteration self E output_dir quality img_size style max_retries
      retry_num (failed, results) h
    = (h ++ new,
       Return (if decide (failed_of round = [])
               then Break (failed_of round, recorded_in round results)
               else Continue (failed_of round, recorded_in round results))) ∧
    fst <$> round = failed ∧
    rounds_run new = 1%nat ∧
    filter (λ e, is_create_single_image e = true) new = attempts_of round ∧
    Forall (λ x, h `prefix_of` x.2 ∧
                 x.2 ++ [attempt x.1.2] `prefix_of` h ++ new) round.
Proof.
  intros Hfailed. unfold retry_iteration.
  rewrite decide_False by done.
  unfold bind at 1. unfold st at 1. unfold emit at 1.
  set (header := EvSt "write" _).
  unfold bind at 1. unfold retry_round.
  destruct (retry_round_loop failed [] results (h ++ [header]))
    as (new & round & -> & Hitems & Hrounds & Hcreated & Hhist).
  rewrite app_nil_l.
  assert (Hhist' : ∀ tail,
            Forall (λ x, h `prefix_of` x.2 ∧
                         x.2 ++ [attempt x.1.2]
                           `prefix_of` h ++ [header] ++ new ++ tail) round).
  { intros tail. eapply Forall_impl; [exact Hhist|].
    intros y [Hy1 Hy2]. split.
    - etrans; [|exact Hy1]. by apply prefix_app_r.
    - destruct Hy2 as [k Hk]. exists (k ++ tail).
      rewrite (app_assoc h), (app_assoc (h ++ [header])), Hk.
      by rewrite <-!app_assoc. }
  destruct (decide (failed_of round = [])) as [Hnone|Hsome].
  - unfold bind, st, emit, ret.
    eexists ([header] ++ new ++ [_]), round. split_and!.
    + rewrite decide_True by done. by rewrite <-!app_assoc.
    + done.
    + rewrite !rounds_run_app, Hrounds. done.
    + rewrite !created_app, Hcreated. simpl. by rewrite app_nil_r.
    + apply Hhist'.
  - unfold bind, st, emit, ret.
    eexists ([header] ++ new ++ [_]), round. split_and!.
    + rewrite decide_False by done. by rewrite <-!app_assoc.
    + done.
    + rewrite !rounds_run_app, Hrounds. done.
    + rewrite !created_app, Hcreated. simpl. by rewrite app_nil_r.
    + apply Hhist'.
Qed.

(** The outer loop over the retry numbers. *)
Lemma retry_outer_loop (max_retries : Z) (retry_nums : list Z)
    (failed : list (Z * string)) (results : gmap Z (option string))
    (h : history) :
  ∃ new rounds,
    for_loop_break
      (retry_iteration self E output_dir quality img_size style max_retries)
      retry_nums (failed, results) h
    = (h ++ new,
       Return (final_failed E output_dir quality img_size style failed rounds,
               recorded_in (concat rounds) results)) ∧
    retry_chain E output_dir quality img_size style failed rounds ∧
    rounds_run new = length rounds ∧
    filter (λ e, is_create_single_image e = true) new
      = attempts_of (concat rounds) ∧
    Forall (λ x, h `prefix_of` x.2 ∧
                 x.2 ++ [attempt x.1.2] `prefix_of` h ++ new) (concat rounds) ∧
    (length rounds ≤ length retry_nums)%nat ∧
    (final_failed E output_dir quality img_size style failed rounds = [] ∨
     length rounds = length retry_nums).
Proof.
  revert failed results h.
  induction retry_nums as [|retry_num retry_nums IH]; intros failed results h.
  { exists [], []. simpl. unfold ret. rewrite app_nil_r.
    split_and!; try done. by right. }
  change (for_loop_break ?f (?a :: ?l) ?s)
    with (bind (f a s) (λ r, match r with
                             | Break s' => ret s'
                             | Continue s' => for_loop_break f l s'
                             end)).
  destruct (decide (failed = [])) as [->|Hfailed].
  { exists [], []. unfold bind, retry_iteration. simpl. unfold ret.
    rewrite app_nil_r. split_and!; try done; [lia|by left]. }
  destruct (retry_iteration_run max_retries retry_num failed results h Hfailed)
    as (new & round & Hrun & Hitems & Hrounds & Hcreated & Hhist).
  unfold bind at 1. rewrite Hrun.
  destruct (decide (failed_of round = [])) as [Hnone|Hsome].
  - exists new, [round]. unfold ret. simpl. rewrite app_nil_r.
    split_and!; try done; [lia|by left].
  - destruct (IH (failed_of round) (recorded_in round results) (h ++ new))
      as (new' & rounds & -> & Hchain & Hrounds' & Hcreated' & Hhist' & Hle & Hstop).
    exists (new ++ new'), (round :: rounds). split_and!.
    + f_equal; [by rewrite <-app_assoc|].
      simpl. by rewrite recorded_in_app.
    + done.
    + rewrite rounds_run_app, Hrounds, Hrounds'. done.
    + rewrite created_app, Hcreated, Hcreated'. simpl. by rewrite fmap_app.
    + simpl. apply Forall_app. split.
      * eapply Forall_impl; [exact Hhist|].
        intros y [Hy1 Hy2]. split; [done|].
        rewrite app_assoc. by apply prefix_app_r.
      * eapply Forall_impl; [exact Hhist'|].
        intros y [Hy1 Hy2]. split.
        -- etrans; [|exact Hy1]. by apply prefix_app_r.
        -- by rewrite <-app_assoc in Hy2.
    + simpl. lia.
    + simpl. destruct Hstop as [?|?]; [by left|right; lia].
Qed.

(** C5 — the retry pass always returns, and its run splits into rounds:
    each round opens with one round header and attempts exactly the
    items that were failed when it began (the given items for the first
    round, the items the previous round left failed afterwards), no
    round begins with nothing to retry, there are at most [max_retries]
    rounds, and fewer only when nothing is failed any more.  An attempt
    succeeded when [create_single_image] returned a non-empty path and
    the preview of that image went through; an item whose call or whose
    preview failed stays failed and is attempted again in the next
    round.  The mapping returned holds the successes of those
    attempts. *)
Theorem retry_failed_images_rounds (failed_prompts : list (Z * string))
    (max_retries : Z) (h : history) :
  ∃ new rounds,
    retry_failed_images self E failed_prompts output_dir quality img_size
      style max_retries h
    = (h ++ new, Return (recorded_in (concat rounds) ∅)) ∧
    retry_chain E output_dir quality img_size style failed_prompts rounds ∧
    rounds_run new = length rounds ∧
    filter (λ e, is_create_single_image e = true) new
      = attempts_of (concat rounds) ∧
    Forall (λ x, h `prefix_of` x.2 ∧
                 x.2 ++ [attempt x.1.2] `prefix_of` h ++ new) (concat rounds) ∧
    (length rounds ≤ Z.to_nat max_retries)%nat ∧
    (final_failed E output_dir quality img_size style failed_prompts rounds = []
     ∨ length rounds = Z.to_nat max_retries).
Proof.
  unfold retry_failed_images.
  unfold bind at 1. unfold st at 1. unfold emit at 1.
  set (title := EvSt "write" _).
  destruct (retry_outer_loop max_retries (range 0 max_retries)
              failed_prompts ∅ (h ++ [title]))
    as (new & rounds & Hrun & Hchain & Hrounds & Hcreated & Hhist & Hle & Hstop).
  unfold bind. rewrite Hrun. unfold ret. simpl.
  assert (Hlen : length (range 0 max_retries) = Z.to_nat max_retries).
  { unfold range. rewrite length_seqZ. lia. }
  rewrite Hlen in Hle, Hstop.
  exists ([title] ++ new), rounds. split_and!; try done.
  - by rewrite <-app_assoc.
  - eapply Forall_impl; [exact Hhist|].
    intros y [Hy1 Hy2]. split.
    + etrans; [|exact Hy1]. by apply prefix_app_r.
    + by rewrite <-app_assoc in Hy2.
Qed.

End retry.

(** With two failed items and [max_retries = 3]: one round when both
    succeed at once, two rounds when both succeed at their second retry,
    all three rounds when both keep failing. *)
Example retry_two_failures_three_retries :
  let run E :=
    streamlit_image_handler.retry_failed_images streamlit_image_handler.init
      E [(0, "a"); (2, "c")] "out" "standard" "1024x1024" "vivid" 3 [] in
  (rounds_run (run Examples.env_ok).1 = 1%nat ∧
   (run Examples.env_ok).2
   = Return {[ 0 := Some "out/0.png"; 2 := Some "out/1.png" ]}) ∧
  (rounds_run (run Examples.env_single_fails_twice).1 = 2%nat ∧
   (run Examples.env_single_fails_twice).2
   = Return {[ 0 := Some "out/2.png"; 2 := Some "out/3.png" ]}) ∧
  (rounds_run (run Examples.env_single_always_fails).1 = 3%nat ∧
   (run Examples.env_single_always_fails).2 = Return ∅).
Proof. split_and!; vm_compute; reflexivity. Qed.

(** An item whose image was created but could not be shown counts as
    failed and is retried: the second item's first image [out/1.png]
    has no preview, so a second round attempts that item alone. *)
Example retry_after_failed_preview :
  let r :=
    streamlit_image_handler.retry_failed_images streamlit_image_handler.init
      Examples.env_second_preview_fails [(0, "a"); (2, "c")] "out" "standard"
      "1024x1024" "vivid" 3 [] in
  rounds_run r.1 = 2%nat ∧
  filter (λ e, is_create_single_image e = true) r.1
  = [EvCreateSingleImage "a" "out" "standard" "1024x1024" "vivid";
     EvCreateSingleImage "c" "out" "standard" "1024x1024" "vivid";
     EvCreateSingleImage "c" "out" "standard" "1024x1024" "vivid"] ∧
  r.2 = Return {[ 0 := Some "out/0.png"; 2 := Some "out/2.png" ]}.
Proof. split_and!; vm_compute; reflexivity. Qed.

(** ** Collecting, sorting and writing back the analysed rows *)

Section sheet.
Import sheet_script.

Lemma insert_by_key_Permutation {A} (key : A → Z) (x : A) (l : list A) :
  insert_by_key key x l ≡ₚ x :: l.
Proof.
  induction l as [|y l IH]; simpl; [done|].
  destruct (decide (key x ≤ key y)); [done|].
  rewrite IH. apply Permutation_swap.
Qed.

Lemma sort_by_key_Permutation {A} (key : A → Z) (l : list A) :
  sort_by_key key l ≡ₚ l.
Proof.
  induction l as [|x l IH]; simpl; [done|].
  unfold sort_by_key in *. simpl.
  by rewrite insert_by_key_Permutation, IH.
Qed.

Lemma insert_by_key_sorted {A} (key : A → Z) (x : A) (l : list A) :
  StronglySorted (λ a b, key a ≤ key b) l →
  StronglySorted (λ a b, key a ≤ key b) (insert_by_key key x l).
Proof.
  induction 1 as [|y l Hl IH Hy]; simpl.
  - repeat constructor.
  - destruct (decide (key x ≤ key y)) as [Hle|Hgt].
    + constructor; [by constructor|].
      constructor; [done|].
      eapply Forall_impl; [exact Hy|]. intros z Hz. simpl in Hz. lia.
    + constructor; [done|].
      rewrite insert_by_key_Permutation. constructor; [lia|done].
Qed.

Lemma sort_by_key_sorted {A} (key : A → Z) (l : list A) :
  StronglySorted (λ a b, key a ≤ key b) (sort_by_key key l).
Proof.
  induction l as [|x l IH]; [constructor|].
  by apply insert_by_key_sorted.
Qed.

(** The sort keeps the order of entries with equal keys: it leaves a
    sorted list as it is. *)
Lemma sort_by_key_of_sorted {A} (key : A → Z) (l : list A) :
  StronglySorted (λ a b, key a ≤ key b) l → sort_by_key key l = l.
Proof.
  induction 1 as [|x l Hl IH Hx]; [done|].
  unfold sort_by_key in *. simpl. rewrite IH.
  destruct l as [|y l']; [done|]. simpl.
  apply Forall_cons in Hx as [Hxy _]. by rewrite decide_True.
Qed.

Lemma completed_rows_Permutation (c1 c2 : list (Z * outcome string)) :
  c1 ≡ₚ c2 → completed_rows c1 ≡ₚ completed_rows c2.
Proof. intros Hp. unfold completed_rows. by rewrite Hp. Qed.

Lemma completed_rows_index (completed : list (Z * outcome string))
    (r : row_result) :
  r ∈ completed_rows completed →
  ∃ content, (row_index r - 2, Return content) ∈ completed ∧
             result r = content.
Proof.
  unfold completed_rows. rewrite list_elem_of_omap.
  intros ([index [content|e]] & Hin & Heq); [|done].
  injection Heq as <-. simpl. exists content. split; [|done].
  by replace (index + 2 - 2) with index by lia.
Qed.

Lemma collect_iteration_run (index : Z) (analysis : outcome string)
    (total_result : list row_result) (h : history) :
  ∃ line,
    collect_iteration (index, analysis) total_result h
    = (h ++ [EvPrint line],
       Return (total_result ++ completed_rows [(index, analysis)])).
Proof.
  unfold collect_iteration, try_except, process_row, bind, print, emit, ret, raise.
  destruct analysis as [content|e]; eexists.
  - reflexivity.
  - unfold completed_rows. simpl. by rewrite app_nil_r.
Qed.

Lemma collect_loop (completed : list (Z * outcome string))
    (total_result : list row_result) (h : history) :
  ∃ new,
    for_loop collect_iteration completed total_result h
    = (h ++ new, Return (total_result ++ completed_rows completed)) ∧
    filter (λ e, is_values_batch_update e = true) new = [].
Proof.
  revert total_result h.
  induction completed as [|[index analysis] completed IH];
    intros total_result h.
  - exists []. simpl. unfold ret. by rewrite !app_nil_r.
  - change (for_loop ?f (?a :: ?l) ?s) with (bind (f a s) (for_loop f l)).
    unfold bind at 1.
    destruct (collect_iteration_run index analysis total_result h)
      as (line & ->).
    destruct (IH (total_result ++ completed_rows [(index, analysis)])
                (h ++ [EvPrint line])) as (new & -> & Hquiet).
    exists (EvPrint line :: new). split.
    + f_equal; [by rewrite <-app_assoc|]. f_equal.
      rewrite <-app_assoc. f_equal.
      change ((index, analysis) :: completed)
        with ([(index, analysis)] ++ completed).
      unfold completed_rows. by rewrite omap_app.
    + by rewrite filter_cons_False.
Qed.

Lemma collect_run (completed : list (Z * outcome string)) (h : history) :
  ∃ new,
    collect completed h = (h ++ new, Return (completed_rows completed)) ∧
    filter (λ e, is_values_batch_update e = true) new = [].
Proof. apply (collect_loop completed []). Qed.

(** Preparing the column sends no cell values. *)
Lemma prepare_column_run (S : sheet_env) (new_column_name : string)
    (h : history) :
  ∃ ext,
    (prepare_column S new_column_name h).1 = h ++ ext ∧
    filter (λ e, is_values_batch_update e = true) ext = [].
Proof.
  unfold prepare_column, try_except, bind, call, print, emit, ret, raise.
  destruct (row_values S h 1) as [headers|e]; [|by eexists [_]].
  destruct (decide (new_column_name ∉ headers)) as [Hnew|Hold].
  - destruct (resize_columns S _ _) as [[]|e];
      [|by eexists [_; _; _]; rewrite <-!app_assoc].
    destruct (update_cell S _ _ _ _) as [[]|e];
      [|by eexists [_; _; _; _; _]; rewrite <-!app_assoc].
    destruct (row_values S _ 1) as [headers'|e];
      [|by eexists [_; _; _; _; _; _; _]; rewrite <-!app_assoc].
    destruct (list_index new_column_name headers') as [i|];
      [by eexists [_; _; _; _; _; _; _]; rewrite <-!app_assoc
      |by eexists [_; _; _; _; _; _]; rewrite <-!app_assoc].
  - destruct (list_index new_column_name headers) as [i|];
      [by eexists [_; _]; rewrite <-!app_assoc | by eexists [_]].
Qed.

Lemma same_index_same_outcome (completed : list (Z * outcome string))
    (index : Z) (a b : outcome string) :
  NoDup (completed.*1) →
  (index, a) ∈ completed → (index, b) ∈ completed → a = b.
Proof.
  induction completed as [|[k c] completed IH]; intros Hnodup H1 H2.
  - by apply elem_of_nil in H1.
  - rewrite fmap_cons in Hnodup. apply NoDup_cons in Hnodup as [Hk Hrest].
    simpl in Hk.
    apply elem_of_cons in H1 as [E1|H1];
      apply elem_of_cons in H2 as [E2|H2].
    + congruence.
    + injection E1 as -> ->. exfalso. apply Hk.
      apply list_elem_of_fmap. by exists (k, b).
    + injection E2 as -> ->. exfalso. apply Hk.
      apply list_elem_of_fmap. by exists (k, a).
    + by apply IH.
Qed.

Lemma same_index_same_row (completed : list (Z * outcome string))
    (r1 r2 : row_result) :
  NoDup (completed.*1) →
  r1 ∈ completed_rows completed → r2 ∈ completed_rows completed →
  row_index r1 = row_index r2 → r1 = r2.
Proof.
  intros Hnodup (c1 & Hin1 & Hc1)%completed_rows_index
    (c2 & Hin2 & Hc2)%completed_rows_index Heq.
  rewrite Heq in Hin1.
  pose proof (same_index_same_outcome completed _ _ _ Hnodup Hin1 Hin2)
    as Hsame.
  injection Hsame as <-.
  destruct r1, r2. simpl in *. by subst.
Qed.

(** C8 — whatever the order in which the workers finish, the script
    returns the collected rows sorted by row index.  Every batch of cell
    values it sends has one cell per sorted row, in that order: the
    [i]-th update is the cell of the result column in the row of the
    [i]-th sorted row, with that row's result.  When the column could be
    prepared and some row was collected, exactly one such batch is
    sent.  Two completion orders of the same futures give the same
    sorted rows, hence the same updates in the same order. *)
Theorem sheet_updates_sorted_by_row_index (S : sheet_env)
    (input_sheet_name new_column_name : string)
    (completed : list (Z * outcome string)) (h : history) :
  let total_result := sort_by_key row_index (completed_rows completed) in
  let cells (col_index : Z) : list (string * string) :=
    (λ row, (input_sheet_name +:+ "!" +:+ col_num_to_letter col_index
               +:+ pretty (row_index row),
             result row)) <$> total_result in
  ∃ new collected,
    analyze_data_with_ai_and_update_sheet S input_sheet_name new_column_name
      completed h
    = (h ++ new, Return total_result) ∧
    total_result ≡ₚ completed_rows completed ∧
    StronglySorted by_row_index total_result ∧
    (∀ data, EvValuesBatchUpdate data ∈ new →
       ∃ col_index, data = cells col_index) ∧
    collected `prefix_of` new ∧
    (∀ col_index,
       (prepare_column S new_column_name (h ++ collected)).2
         = Return col_index →
       total_result ≠ [] →
       filter (λ e, is_values_batch_update e = true) new
       = [EvValuesBatchUpdate (cells col_index)]) ∧
    (∀ completed',
       completed' ≡ₚ completed → NoDup (completed.*1) →
       sort_by_key row_index (completed_rows completed') = total_result).
Proof.
  intros total_result cells.
  assert (Hperm : total_result ≡ₚ completed_rows completed)
    by apply sort_by_key_Permutation.
  assert (Hsorted : StronglySorted by_row_index total_result)
    by apply sort_by_key_sorted.
  assert (Horder : ∀ completed',
            completed' ≡ₚ completed → NoDup (completed.*1) →
            sort_by_key row_index (completed_rows completed') = total_result).
  { intros completed' Hp Hnodup.
    apply (StronglySorted_unique_strong by_row_index);
      [|apply sort_by_key_sorted|done|].
    - intros x1 x2 Hx1 Hx2 H12 H21. unfold by_row_index in *.
      apply (same_index_same_row completed); [done| | |lia].
      + rewrite sort_by_key_Permutation in Hx1.
        by rewrite (completed_rows_Permutation _ _ Hp) in Hx1.
      + by rewrite Hperm in Hx2.
    - rewrite sort_by_key_Permutation, Hperm.
      by apply completed_rows_Permutation. }
  unfold analyze_data_with_ai_and_update_sheet.
  destruct (collect_run completed h) as (new1 & Hcollect & Hquiet1).
  unfold bind at 1. rewrite Hcollect. fold total_result.
  unfold bind at 1. unfold try_except at 1. unfold bind at 1.
  destruct (prepare_column_run S new_column_name (h ++ new1))
    as (ext & Hext & Hquiet2).
  destruct (prepare_column S new_column_name (h ++ new1))
    as [h2 [col_index|e]] eqn:Hprep; simpl in Hext; subst h2.
  - change (batch_data_of input_sheet_name col_index total_result)
      with (cells col_index).
    assert (Hsent : ∀ mid tail,
              filter (λ e, is_values_batch_update e = true) tail = [] →
              filter (λ e, is_values_batch_update e = true)
                (new1 ++ ext ++ mid ++ tail)
              = filter (λ e, is_values_batch_update e = true) mid).
    { intros mid tail Htail.
      rewrite !filter_app, Hquiet1, Hquiet2, Htail. simpl.
      by rewrite app_nil_r. }
    assert (Hone : ∀ tail data,
              filter (λ e, is_values_batch_update e = true) tail = [] →
              EvValuesBatchUpdate data
                ∈ new1 ++ ext ++ [EvValuesBatchUpdate (cells col_index)]
                         ++ tail →
              ∃ col_index', data = cells col_index').
    { intros tail data Htail Hin.
      assert (Hf : EvValuesBatchUpdate data ∈
                     filter (λ e, is_values_batch_update e = true)
                       (new1 ++ ext
                          ++ [EvValuesBatchUpdate (cells col_index)] ++ tail))
        by (by apply list_elem_of_filter).
      rewrite (Hsent _ _ Htail), filter_cons_True in Hf by done.
      apply list_elem_of_singleton in Hf as [= ->]. by exists col_index. }
    unfold try_except.
    destruct (decide (cells col_index ≠ [])) as [Hdata|Hempty].
    + unfold bind at 1. unfold call at 1.
      destruct (values_batch_update S _ (cells col_index)) as [[]|e].
      * unfold bind, print, emit, ret.
        eexists (new1 ++ ext ++ [EvValuesBatchUpdate (cells col_index)]
                   ++ [_; _]), new1.
        split_and!; [by rewrite <-!app_assoc|done|done| | | |done].
        -- intros data. by apply Hone.
        -- by apply prefix_app_r.
        -- intros c Hc _. rewrite Hprep in Hc. injection Hc as <-.
           rewrite Hsent by done. by rewrite filter_cons_True.
      * unfold bind, print, emit, ret.
        destruct (cells col_index) as [|first rest] eqn:Hcells; [done|].
        eexists (new1 ++ ext ++ [EvValuesBatchUpdate (first :: rest)]
                   ++ [_; _]), new1.
        split_and!; [by rewrite <-!app_assoc|done|done| | | |done].
        -- intros data Hin.
           assert (Hf : EvValuesBatchUpdate data ∈
                          filter (λ e, is_values_batch_update e = true)
                            (new1 ++ ext
                               ++ [EvValuesBatchUpdate (first :: rest)]
                               ++ [EvPrint ("데이터 일괄 업데이트 중 오류 발생: "
                                            +:+ str_exn e);
                                   EvPrintItem "첫 번째 배치 항목 예시: " first]))
             by (by apply list_elem_of_filter).
           rewrite Hsent, filter_cons_True in Hf by done.
           apply list_elem_of_singleton in Hf as [= ->].
           exists col_index. by rewrite Hcells.
        -- by apply prefix_app_r.
        -- intros c Hc _. rewrite Hprep in Hc. injection Hc as <-.
           rewrite Hsent by done. rewrite filter_cons_True by done.
           by rewrite Hcells.
    + apply dec_stable in Hempty.
      assert (Hnone : total_result = []).
      { unfold cells in Hempty. by apply fmap_nil_inv in Hempty. }
      unfold bind, print, emit, ret.
      eexists (new1 ++ ext ++ [] ++ [_]), new1.
      split_and!; [by rewrite <-!app_assoc|done|done| | | |done].
      -- intros data Hin.
         assert (Hf : EvValuesBatchUpdate data ∈
                        filter (λ e, is_values_batch_update e = true)
                          (new1 ++ ext ++ []
                             ++ [EvPrint "업데이트할 데이터가 없습니다."]))
           by (by apply list_elem_of_filter).
         rewrite Hsent in Hf by done. by apply elem_of_nil in Hf.
      -- by apply prefix_app_r.
      -- intros c _ Hsome. done.
  - unfold print, emit, bind, ret.
    eexists (new1 ++ ext ++ [] ++ [_]), new1.
    split_and!; [by rewrite <-!app_assoc|done|done| | | |done].
    + intros data Hin.
      assert (Hf : EvValuesBatchUpdate data ∈
                     filter (λ e, is_values_batch_update e = true)
                       (new1 ++ ext ++ [] ++
                          [EvPrint ("데이터 일괄 업데이트 중 오류 발생: " +:+ str_exn e)]))
        by (by apply list_elem_of_filter).
      rewrite !filter_app, Hquiet1, Hquiet2 in Hf. by apply elem_of_nil in Hf.
    + by apply prefix_app_r.
    + intros c Hc. rewrite Hprep in Hc. done.
Qed.

End sheet.

Lemma sheet_updates_sorted_by_row_index_witness :
  sheet_script.sort_by_key sheet_script.row_index (completed_rows Examples.completed_9_2_5)
  = sheet_script.sort_by_key sheet_script.row_index (completed_rows Examples.completed_5_2_9).
Proof.
  destruct (sheet_updates_sorted_by_row_index Examples.sheet_ok
              "Sheet1" "result" Examples.completed_5_2_9 [])
    as (new & collected & _ & _ & _ & _ & _ & _ & Horder).
  apply Horder.
  - apply reverse_Permutation.
  - apply (bool_decide_unpack _). vm_compute. exact I.
Defined.

(** The workers finish in the order 5, 2, 9 (row 7 fails): the rows are
    returned and sent to the sheet in the order 2, 5, 9, as the cells
    B4, B7 and B11. *)
Example sheet_update_in_row_order :
  let r :=
    sheet_script.analyze_data_with_ai_and_update_sheet Examples.sheet_ok
      "Sheet1" "result" Examples.completed_5_2_9 [] in
  sheet_script.row_index <$>
    match r.2 with Return total_result => total_result | Raise _ => [] end
  = [4; 7; 11] ∧
  filter (λ e, is_values_batch_update e = true) r.1
  = [EvValuesBatchUpdate
       [("Sheet1!B4", "two"); ("Sheet1!B7", "five"); ("Sheet1!B11", "nine")]].
Proof. split; vm_compute; reflexivity. Qed.

(** ** More on column labels *)

Lemma col_num_loop_eq (n : Z) (acc : string) :
  sheet_script.col_num_loop n acc =
  if decide (n > 0)
  then sheet_script.col_num_loop ((n - 1) / 26)
         (String (sheet_script.chr (65 + (n - 1) mod 26)) acc)
  else acc.
Proof. apply col_num_loop_unfold. Qed.

Section column_labels.
Import sheet_script.

Lemma is_column_label_app (s t : string) :
  is_column_label (s +:+ t) ↔ is_column_label s ∧ is_column_label t.
Proof.
  induction s as [|c s IH]; [simpl; tauto|].
  rewrite string_app_cons. simpl. rewrite IH. tauto.
Qed.

Lemma chr_is_column_letter (r : Z) :
  0 ≤ r < 26 → is_column_letter (chr (65 + r)).
Proof.
  intros Hr. unfold is_column_letter, chr.
  rewrite nat_ascii_embedding by lia. lia.
Qed.

Lemma col_num_loop_step (n : Z) :
  0 < n →
  col_num_loop n EmptyString
  = col_num_loop ((n - 1) / 26) EmptyString
    +:+ String (chr (65 + (n - 1) mod 26)) EmptyString.
Proof.
  intros Hn. rewrite col_num_loop_eq, decide_True by lia.
  apply col_num_loop_acc.
Qed.

Lemma col_num_loop_nonpositive (n : Z) (acc : string) :
  n ≤ 0 → col_num_loop n acc = acc.
Proof. intros Hn. by rewrite col_num_loop_eq, decide_False by lia. Qed.

Lemma string_app_nonempty (s : string) (c : ascii) :
  s +:+ String c EmptyString ≠ EmptyString.
Proof. by destruct s. Qed.

(** X2 — the label of a column is made of the letters A .. Z only, and
    it is empty exactly for a column number that is not positive. *)
Theorem col_num_to_letter_letters (n : Z) :
  is_column_label (col_num_to_letter n) ∧
  (col_num_to_letter n = EmptyString ↔ n ≤ 0).
Proof.
  unfold col_num_to_letter. split.
  - induction (Z.lt_wf 0 n) as [n _ IH].
    destruct (decide (0 < n)) as [Hpos|Hneg].
    + rewrite col_num_loop_step by done.
      apply is_column_label_app. split.
      * apply IH. split; [apply Z.div_pos; lia|].
        apply Z.div_lt_upper_bound; lia.
      * simpl. split; [|done].
        apply chr_is_column_letter, Z.mod_pos_bound. lia.
    + by rewrite col_num_loop_nonpositive by lia.
  - split.
    + intros Hempty. destruct (decide (0 < n)) as [Hpos|Hneg]; [|lia].
      rewrite col_num_loop_step in Hempty by done.
      by apply string_app_nonempty in Hempty.
    + intros Hn. by apply col_num_loop_nonpositive.
Qed.

(** X3 — two different positive column numbers never get the same
    label. *)
Theorem col_num_to_letter_inj (n m : Z) :
  0 < n → 0 < m → n ≠ m → col_num_to_letter n ≠ col_num_to_letter m.
Proof.
  intros Hn Hm Hne Heq. apply Hne.
  rewrite <-(letter_to_col_num_loop n), <-(letter_to_col_num_loop m) by lia.
  unfold col_num_to_letter in Heq. by rewrite Heq.
Qed.

Lemma col_num_to_letter_inj_witness :
  col_num_to_letter 26 ≠ col_num_to_letter 702.
Proof. apply (col_num_to_letter_inj 26 702); lia. Defined.

Lemma string_app_nil_r (s : string) : s +:+ EmptyString = s.
Proof.
  induction s as [|c s IH]; [done|]. by rewrite string_app_cons, IH.
Qed.

Lemma letter_value_range (c : ascii) :
  is_column_letter c →
  1 ≤ letter_value c ≤ 26 ∧ chr (65 + (letter_value c - 1)) = c.
Proof.
  unfold is_column_letter, letter_value, chr. intros Hc. split; [lia|].
  replace (Z.to_nat (65 + (Z.of_nat (nat_of_ascii c) - 64 - 1)))
    with (nat_of_ascii c) by lia.
  apply ascii_nat_embedding.
Qed.

Lemma col_num_loop_label_value (label : string) (acc : Z) :
  0 ≤ acc → is_column_label label →
  col_num_loop (label_value acc label) EmptyString
  = col_num_loop acc EmptyString +:+ label.
Proof.
  revert acc. induction label as [|c rest IH]; intros acc Hacc Hlabel.
  - simpl. by rewrite string_app_nil_r.
  - destruct Hlabel as [Hc Hrest].
    destruct (letter_value_range c Hc) as [Hv Hchr].
    simpl. rewrite IH by (done || lia).
    rewrite (col_num_loop_step (acc * 26 + letter_value c)) by lia.
    replace ((acc * 26 + letter_value c - 1) / 26) with acc.
    2:{ apply (Z.div_unique _ 26 acc (letter_value c - 1)); lia. }
    replace ((acc * 26 + letter_value c - 1) mod 26) with (letter_value c - 1).
    2:{ apply (Z.mod_unique _ 26 acc (letter_value c - 1)); lia. }
    rewrite Hchr. by rewrite string_app_assoc.
Qed.

(** X4 — every label made of the letters A .. Z is the label of the
    column number it denotes: the conversion reaches all labels. *)
Theorem col_num_to_letter_of_label (label : string) :
  is_column_label label →
  col_num_to_letter (letter_to_col_num label) = label.
Proof.
  intros Hlabel. unfold col_num_to_letter, letter_to_col_num.
  rewrite col_num_loop_label_value by (done || lia).
  by rewrite col_num_loop_nonpositive.
Qed.

Lemma col_num_to_letter_of_label_witness :
  col_num_to_letter (letter_to_col_num "ZZA") = "ZZA".
Proof.
  apply col_num_to_letter_of_label. simpl. unfold is_column_letter.
  change (nat_of_ascii "Z") with 90%nat. change (nat_of_ascii "A") with 65%nat.
  lia.
Defined.

End column_labels.

(** ** More on the write-back to the sheet *)

Section sheet_calls.
Import sheet_script.

Lemma sheet_calls_app (h1 h2 : history) :
  sheet_calls (h1 ++ h2) = sheet_calls h1 ++ sheet_calls h2.
Proof. apply filter_app. Qed.

Lemma collect_loop_calls (completed : list (Z * outcome string))
    (total_result : list row_result) (h : history) :
  ∃ new,
    for_loop collect_iteration completed total_result h
    = (h ++ new, Return (total_result ++ completed_rows completed)) ∧
    sheet_calls new = [].
Proof.
  revert total_result h.
  induction completed as [|[index analysis] completed IH];
    intros total_result h.
  - exists []. simpl. unfold ret. by rewrite !app_nil_r.
  - change (for_loop ?f (?a :: ?l) ?s) with (bind (f a s) (for_loop f l)).
    unfold bind at 1.
    destruct (collect_iteration_run index analysis total_result h)
      as (line & ->).
    destruct (IH (total_result ++ completed_rows [(index, analysis)])
                (h ++ [EvPrint line])) as (new & -> & Hquiet).
    exists (EvPrint line :: new). split.
    + f_equal; [by rewrite <-app_assoc|]. f_equal.
      rewrite <-app_assoc. f_equal.
      change ((index, analysis) :: completed)
        with ([(index, analysis)] ++ completed).
      unfold completed_rows. by rewrite omap_app.
    + unfold sheet_calls in *. by rewrite filter_cons_False.
Qed.



Lemma list_index_last (x : string) (l : list string) :
  x ∉ l → list_index x (l ++ [x]) = Some (Z.of_nat (length l)).
Proof.
  induction l as [|y l IH]; intros Hnot; simpl.
  - by rewrite decide_True.
  - apply not_elem_of_cons in Hnot as [Hne Hnot].
    rewrite decide_False by done. rewrite (IH Hnot). simpl. f_equal. lia.
Qed.





(** X6 — when the header row lacks the result column and the sheet
    accepts the calls, [prepare_column] makes four calls, in this
    order: it reads the header row, asks for a column count of the
    number of headers plus ten (an absolute count taken from the header
    row, whatever the width of the grid was), writes the header into the
    first cell after the existing headers, and reads the header row
    again; it answers the position of the new header there. *)
Theorem prepare_column_adds_header (S : sheet_env) (new_column_name : string)
    (h : history) (headers : list string) :
  let n := Z.of_nat (length headers) in
  row_values S h 1 = Return headers →
  new_column_name ∉ headers →
  (∀ h', resize_columns S h' (n + 10) = Return tt) →
  (∀ h', update_cell S h' 1 (n + 1) new_column_name = Return tt) →
  (∀ h', EvUpdateCell 1 (n + 1) new_column_name ∈ h' →
         row_values S h' 1 = Return (headers ++ [new_column_name])) →
  ∃ new,
    prepare_column S new_column_name h = (h ++ new, Return (n + 1)) ∧
    sheet_calls new
    = [EvRowValues 1; EvResizeColumns (n + 10);
       EvUpdateCell 1 (n + 1) new_column_name; EvRowValues 1].
Proof.
  intros n Hrow Hnot Hresize Hupdate Hagain.
  unfold prepare_column. unfold bind at 1. unfold call at 1. rewrite Hrow.
  rewrite decide_True by done.
  unfold bind at 1. unfold try_except.
  unfold bind at 1. unfold call at 1. fold n. rewrite Hresize.
  unfold bind at 1. unfold print at 1. unfold emit at 1.
  unfold bind at 1. unfold call at 1. rewrite Hupdate.
  unfold bind at 1. unfold print at 1. unfold emit at 1.
  unfold call at 1. rewrite Hagain.
  2:{ rewrite !elem_of_app, !list_elem_of_singleton. naive_solver. }
  rewrite (list_index_last _ _ Hnot). fold n.
  unfold bind, print, emit, ret. eexists [_; _; _; _; _; _; _].
  split; [by rewrite <-!app_assoc|done].
Qed.

Lemma prepare_column_adds_header_witness :
  ∃ new,
    prepare_column Examples.sheet_without_column "result" []
    = ([] ++ new, Return (Z.of_nat (length ["input"]) + 1)) ∧
    sheet_calls new
    = [EvRowValues 1; EvResizeColumns (Z.of_nat (length ["input"]) + 10);
       EvUpdateCell 1 (Z.of_nat (length ["input"]) + 1) "result";
       EvRowValues 1].
Proof.
  apply (prepare_column_adds_header Examples.sheet_without_column "result"
           [] ["input"]).
  - reflexivity.
  - apply (bool_decide_unpack _). vm_compute. exact I.
  - intros h'. reflexivity.
  - intros h'. reflexivity.
  - intros h' Hin. simpl.
    rewrite decide_False; [done|].
    unfold Examples.calls. intros Hlen. apply nil_length_inv in Hlen.
    assert (Hf : EvUpdateCell 1 (Z.of_nat (length ["input"]) + 1) "result"
                 ∈ filter (λ e, Examples.is_update_cell e = true) h')
      by (by apply list_elem_of_filter).
    rewrite Hlen in Hf. by apply elem_of_nil in Hf.
Defined.

Lemma completed_rows_NoDup (completed : list (Z * outcome string)) :
  NoDup (completed.*1) → NoDup (row_index <$> completed_rows completed).
Proof.
  induction completed as [|[index analysis] completed IH]; [done|].
  rewrite fmap_cons. intros [Hnot Hrest]%NoDup_cons.
  unfold completed_rows in *. simpl fst in Hnot.
  destruct analysis as [content|e]; simpl; [|by apply IH].
  apply NoDup_cons. split; [|by apply IH].
  intros (r & Hr & Hin)%list_elem_of_fmap.
  apply completed_rows_index in Hin as (c & Hin & _).
  apply Hnot. apply list_elem_of_fmap.
  exists (row_index r - 2, Return c). split; [simpl in *; lia|done].
Qed.

(** X7 — with distinct, non-negative row positions, the batch built
    from the sorted rows never addresses the header row (every row
    number is at least 2), never addresses the same cell twice, and
    holds one entry per row whose analysis came back. *)
Theorem batch_cells_distinct (input_sheet_name : string) (col_index : Z)
    (completed : list (Z * outcome string)) :
  NoDup (completed.*1) →
  (∀ index analysis, (index, analysis) ∈ completed → 0 ≤ index) →
  let total_result := sort_by_key row_index (completed_rows completed) in
  let batch_data := batch_data_of input_sheet_name col_index total_result in
  Forall (λ r, 2 ≤ row_index r) total_result ∧
  NoDup (batch_data.*1) ∧
  length batch_data = length (completed_rows completed).
Proof.
  intros Hnodup Hpos total_result batch_data.
  assert (Hperm : total_result ≡ₚ completed_rows completed)
    by apply sort_by_key_Permutation.
  split_and!.
  - apply Forall_forall. intros r Hr. rewrite Hperm in Hr.
    apply completed_rows_index in Hr as (c & Hin & _).
    specialize (Hpos _ _ Hin). lia.
  - unfold batch_data, batch_data_of. rewrite <-list_fmap_compose.
    assert (Hrows : NoDup (row_index <$> total_result)).
    { rewrite Hperm. by apply completed_rows_NoDup. }
    replace (fst ∘ _ <$> total_result)
      with ((λ row, input_sheet_name +:+ "!" +:+ col_num_to_letter col_index
                    +:+ pretty row) <$> (row_index <$> total_result)).
    2:{ rewrite <-list_fmap_compose. done. }
    assert (Hinj : Inj (=) (=)
              (λ row : Z, input_sheet_name +:+ "!"
                          +:+ col_num_to_letter col_index +:+ pretty row)).
    { intros r1 r2 Heq. apply (inj pretty).
      by do 3 apply (inj (String.append _)) in Heq. }
    by apply (NoDup_fmap_2 _).
  - unfold batch_data, batch_data_of. rewrite length_fmap. by rewrite Hperm.
Qed.

Lemma batch_cells_distinct_witness :
  let total_result :=
    sort_by_key row_index (completed_rows Examples.completed_5_2_9) in
  let batch_data := batch_data_of "Sheet1" 2 total_result in
  Forall (λ r, 2 ≤ row_index r) total_result ∧
  NoDup (batch_data.*1) ∧
  length batch_data = length (completed_rows Examples.completed_5_2_9).
Proof.
  apply (batch_cells_distinct "Sheet1" 2 Examples.completed_5_2_9).
  - apply (bool_decide_unpack _). vm_compute. exact I.
  - intros index analysis Hin.
    repeat (apply elem_of_cons in Hin as [[= -> _]|Hin]; [lia|]).
    by apply elem_of_nil in Hin.
Defined.

End sheet_calls.

(** ** More on the handler's batch *)

Section handler_results.
Import streamlit_image_handler.
Variables (self : StreamlitImageHandler) (E : env).
Variables (output_dir quality img_size style : string).

Local Abbreviation attempt prompt :=
  (EvCreateSingleImage prompt output_dir quality img_size style).

Lemma truthy_Some (r : option string) :
  truthy r = true ↔ ∃ path, r = Some path ∧ path ≠ EmptyString.
Proof.
  destruct r as [path|]; simpl.
  - rewrite negb_true_iff, String.eqb_neq. split.
    + intros Hne. by exists path.
    + by intros (? & [= <-] & ?).
  - split; [done|]. by intros (? & ? & _).
Qed.

Lemma single_result_path (answer : outcome (option string)) (path : string) :
  single_result answer = Some path ↔
  answer = Return (Some path) ∧ path ≠ EmptyString.
Proof.
  unfold single_result. destruct answer as [r|e].
  - destruct (truthy r) eqn:Ht.
    + apply truthy_Some in Ht as (p & -> & Hp). split.
      * by intros [= <-].
      * by intros [[= <-] _].
    + split; [done|]. intros [[= ->] Hp].
      assert (truthy (Some path) = true) by (apply truthy_Some; eauto).
      congruence.
  - split; [done|]. by intros [? _].
Qed.

Lemma attempt_result_is_image_result (prompt : string) (h : history) :
  is_image_result
    (attempt_result E h prompt output_dir quality img_size style).
Proof.
  unfold attempt_result, is_image_result.
  destruct (single_result _) as [path|] eqn:Hpath; [|by left].
  destruct (st_image E _ path) as [[]|e]; [|by left].
  right. exists path. split; [done|].
  by apply single_result_path in Hpath as [_ ?].
Qed.

(** X8 — [create_single_image_with_progress] never raises, whatever
    [create_single_image] and the preview do.  It makes that one call,
    and shows the image exactly when the call returned a non-empty
    path; it answers that path when the preview went through, and
    [None] in every other case (the call raised, returned [None] or the
    empty string, or the preview raised). *)
Theorem create_single_image_with_progress_result (prompt : string)
    (h : history) :
  ∃ shown r,
    create_single_image_with_progress E prompt output_dir quality img_size
      style h
    = (h ++ [attempt prompt] ++ shown, Return r) ∧
    is_image_result r ∧
    (shown = [] ∨ ∃ path, shown = [EvSt "image" path]) ∧
    (∀ path,
       shown = [EvSt "image" path] ↔
       create_single_image E h prompt output_dir quality img_size style
         = Return (Some path) ∧ path ≠ EmptyString) ∧
    ∀ path,
      r = Some path ↔
      create_single_image E h prompt output_dir quality img_size style
        = Return (Some path) ∧ path ≠ EmptyString ∧
      st_image E (h ++ [attempt prompt]) path = Return tt.
Proof.
  rewrite create_single_image_with_progress_run. eexists _, _.
  split; [done|].
  split; [apply attempt_result_is_image_result|].
  unfold preview, attempt_result.
  pose proof (single_result_path
                (create_single_image E h prompt output_dir quality img_size
                   style)) as Hpath.
  destruct (single_result _) as [p|].
  - split_and!.
    + right. by exists p.
    + intros path. rewrite <-Hpath. split; by intros [= ->].
    + intros path. split.
      * intros Hr.
        destruct (st_image E (h ++ [attempt prompt]) p) as [[]|e] eqn:Hshow;
          [|done].
        injection Hr as <-.
        by destruct (proj1 (Hpath p) eq_refl) as [Ha Hne].
      * intros (Ha & Hne & Hok).
        assert (Some p = Some path) as [= ->] by (by apply Hpath).
        by rewrite Hok.
  - split_and!.
    + by left.
    + intros path. rewrite <-Hpath. done.
    + intros path. split; [done|]. intros (Ha & Hne & _).
      by assert (None = Some path) by (by apply Hpath).
Qed.

Lemma created_paused_attempts (prompts : list string) :
  filter (λ e, is_create_single_image e = true)
    (concat ((λ p, pause self ++ [attempt p]) <$> prompts))
  = (λ p, attempt p) <$> prompts.
Proof.
  induction prompts as [|p prompts IH]; [done|].
  rewrite !fmap_cons, concat_cons, !filter_app, IH.
  rewrite (proj2 (pause_quiet self)). done.
Qed.

Lemma created_pacing (h : history) :
  filter (λ e, is_create_single_image e = true) (pacing h)
  = filter (λ e, is_create_single_image e = true) h.
Proof.
  induction h as [|e h IH]; [done|].
  unfold pacing in *. rewrite (filter_cons _ e h).
  destruct (decide (is_sleep e || is_attempt e = true)) as [Hk|Hk].
  - destruct e; simpl in *;
      rewrite ?filter_cons_True by done;
      rewrite ?filter_cons_False by done; by rewrite ?IH.
  - rewrite IH. destruct e; simpl in *; try done;
      by rewrite filter_cons_False by done.
Qed.

Lemma answers_are_image_results (prompts : list string)
    (results : list (option string)) (h new : history) :
  length results = length prompts →
  (∀ (k : nat) (p : string), prompts !! k = Some p →
     ∃ hk, h `prefix_of` hk ∧ hk `prefix_of` h ++ new ∧
           results !! k
           = Some (attempt_result E hk p output_dir quality img_size
                     style)) →
  Forall is_image_result results.
Proof.
  intros Hlen Hres. apply Forall_lookup. intros k r Hk.
  destruct (lookup_lt_is_Some_2 prompts k) as [p Hp].
  { rewrite <-Hlen. by eapply lookup_lt_Some. }
  destruct (Hres k p Hp) as (hk & _ & _ & Hr).
  rewrite Hk in Hr. injection Hr as ->.
  apply attempt_result_is_image_result.
Qed.

(** X9 — the handler's batch attempts every prompt exactly once, in
    the order given, and answers one entry per prompt, each [None] or a
    non-empty path; it never raises. *)
Theorem handler_batch_results (prompts : list string) (h : history) :
  ∃ new results,
    create_multiple_images_with_progress self E prompts output_dir quality
      img_size style h
    = (h ++ new, Return results) ∧
    length results = length prompts ∧
    Forall is_image_result results ∧
    filter (λ e, is_create_single_image e = true) new = (λ p, attempt p) <$> prompts.
Proof.
  destruct (create_multiple_images_with_progress_run self E output_dir
              quality img_size style prompts h)
    as (new & results & Hrun & Hlen & Hpacing & Hres).
  exists new, results. split_and!; [done|done| |].
  - by eapply answers_are_image_results.
  - rewrite <-created_pacing, Hpacing.
    destruct prompts as [|p rest]; [done|].
    rewrite filter_cons_True by done.
    by rewrite created_paused_attempts.
Qed.

End handler_results.

(** ** More on the retry pass *)

Section retry_edges.
Import streamlit_image_handler.
Variables (self : StreamlitImageHandler) (E : env).
Variables (output_dir quality img_size style : string).

Local Abbreviation attempt prompt :=
  (EvCreateSingleImage prompt output_dir quality img_size style).
Local Abbreviation title := (EvSt "write" "### 🔄 실패한 이미지 재시도").

(** X10 — with nothing to retry, or with [max_retries] not positive,
    the retry pass only writes its title: it attempts nothing and
    answers the empty mapping. *)
Theorem retry_nothing_to_do (failed_prompts : list (Z * string))
    (max_retries : Z) (h : history) :
  failed_prompts = [] ∨ max_retries ≤ 0 →
  retry_failed_images self E failed_prompts output_dir quality img_size
    style max_retries h
  = (h ++ [title], Return ∅).
Proof.
  intros Hnothing. unfold retry_failed_images.
  unfold bind at 1. unfold st at 1. unfold emit at 1.
  unfold bind. destruct Hnothing as [->|Hmax].
  - destruct (range 0 max_retries) as [|retry_num rest]; [done|].
    simpl. unfold bind, retry_iteration. simpl. done.
  - unfold range. rewrite Z.sub_0_r.
    replace (seqZ 0 max_retries) with (@nil Z); [done|].
    unfold seqZ. by replace (Z.to_nat max_retries) with 0%nat by lia.
Qed.

Section all_fail.
Hypothesis all_fail :
  ∀ h prompt,
    single_result
      (create_single_image E h prompt output_dir quality img_size style)
    = None.

Lemma retry_attempt_fail (idx : Z) (prompt : string)
    (remaining : list (Z * string)) (h : history) :
  retry_attempt self E output_dir quality img_size style (idx, prompt)
    (remaining, ∅) h
  = (h ++ [EvSt "write" ("재시도: 이미지 #" +:+ pretty (idx + 1));
           attempt prompt],
     Return (remaining ++ [(idx, prompt)], ∅)).
Proof.
  unfold retry_attempt. rewrite decide_False by (rewrite map_size_empty; lia).
  unfold bind at 1. unfold ret at 1.
  unfold bind at 1. unfold st at 1. unfold emit at 1.
  unfold bind at 1. rewrite create_single_image_with_progress_run.
  unfold preview, attempt_result. rewrite all_fail. simpl. unfold ret.
  by rewrite <-app_assoc.
Qed.

Lemma retry_round_fail (items remaining : list (Z * string)) (h : history) :
  ∃ new,
    for_loop (retry_attempt self E output_dir quality img_size style)
      items (remaining, ∅) h
    = (h ++ new, Return (remaining ++ items, ∅)) ∧
    slept new = 0 ∧
    rounds_run new = 0%nat ∧
    filter (λ e, is_create_single_image e = true) new
      = (λ x : Z * string, attempt x.2) <$> items.
Proof.
  revert remaining h.
  induction items as [|[idx prompt] items IH]; intros remaining h.
  - exists []. simpl. unfold ret. by rewrite !app_nil_r.
  - change (for_loop ?f (?a :: ?l) ?s) with (bind (f a s) (for_loop f l)).
    unfold bind at 1. rewrite retry_attempt_fail.
    destruct (IH (remaining ++ [(idx, prompt)])
                (h ++ [EvSt "write" ("재시도: 이미지 #" +:+ pretty (idx + 1));
                       attempt prompt]))
      as (new & -> & Hslept & Hrounds & Hcreated).
    exists ([EvSt "write" ("재시도: 이미지 #" +:+ pretty (idx + 1));
             attempt prompt] ++ new).
    split_and!.
    + f_equal; [by rewrite <-app_assoc|]. by rewrite <-app_assoc.
    + rewrite slept_app, Hslept. done.
    + rewrite rounds_run_app, Hrounds. done.
    + rewrite created_app, Hcreated. done.
Qed.

Lemma retry_iteration_fail (max_retries retry_num : Z)
    (failed : list (Z * string)) (h : history) :
  failed ≠ [] →
  ∃ new,
    retry_iteration self E output_dir quality img_size style max_retries
      retry_num (failed, ∅) h
    = (h ++ new, Return (Continue (failed, ∅))) ∧
    slept new = 0 ∧
    rounds_run new = 1%nat ∧
    filter (λ e, is_create_single_image e = true) new
      = (λ x : Z * string, attempt x.2) <$> failed.
Proof.
  intros Hfailed. unfold retry_iteration.
  rewrite decide_False by done.
  unfold bind at 1. unfold st at 1. unfold emit at 1.
  set (header := EvSt "write" _).
  unfold bind at 1. unfold retry_round.
  destruct (retry_round_fail failed [] (h ++ [header]))
    as (new & -> & Hslept & Hrounds & Hcreated).
  rewrite app_nil_l. rewrite decide_False by done.
  unfold bind, st, emit, ret.
  set (warning := EvSt "warning" _).
  exists ([header] ++ new ++ [warning]). split_and!.
  - f_equal. by rewrite <-!app_assoc.
  - rewrite !slept_app, Hslept. done.
  - rewrite !rounds_run_app, Hrounds. done.
  - rewrite !created_app, Hcreated. simpl. by rewrite app_nil_r.
Qed.

Lemma retry_outer_fail (max_retries : Z) (retry_nums : list Z)
    (failed : list (Z * string)) (h : history) :
  failed ≠ [] →
  ∃ new,
    for_loop_break
      (retry_iteration self E output_dir quality img_size style max_retries)
      retry_nums (failed, ∅) h
    = (h ++ new, Return (failed, ∅)) ∧
    slept new = 0 ∧
    rounds_run new = length retry_nums ∧
    filter (λ e, is_create_single_image e = true) new
      = concat (replicate (length retry_nums)
                  ((λ x : Z * string, attempt x.2) <$> failed)).
Proof.
  intros Hfailed. revert h.
  induction retry_nums as [|retry_num retry_nums IH]; intros h.
  { exists []. simpl. unfold ret. by rewrite app_nil_r. }
  change (for_loop_break ?f (?a :: ?l) ?s)
    with (bind (f a s) (λ r, match r with
                             | Break s' => ret s'
                             | Continue s' => for_loop_break f l s'
                             end)).
  unfold bind at 1.
  destruct (retry_iteration_fail max_retries retry_num failed h Hfailed)
    as (new & -> & Hslept & Hrounds & Hcreated).
  destruct (IH (h ++ new)) as (new' & -> & Hslept' & Hrounds' & Hcreated').
  exists (new ++ new'). split_and!.
  - f_equal. by rewrite <-!app_assoc.
  - rewrite !slept_app, Hslept, Hslept'. done.
  - rewrite !rounds_run_app, Hrounds, Hrounds'. done.
  - rewrite !created_app, Hcreated, Hcreated'. done.
Qed.

(** X11 — when no retry ever produces an image, the retry pass runs
    all [max_retries] rounds over all the given items, answers the empty
    mapping, and never sleeps: its pause is taken only once some retry
    has succeeded. *)
Theorem retry_all_fail_no_pause (failed_prompts : list (Z * string))
    (max_retries : Z) (h : history) :
  failed_prompts ≠ [] →
  ∃ new,
    retry_failed_images self E failed_prompts output_dir quality img_size
      style max_retries h
    = (h ++ new, Return ∅) ∧
    slept new = 0 ∧
    rounds_run new = Z.to_nat max_retries ∧
    filter (λ e, is_create_single_image e = true) new
      = concat (replicate (Z.to_nat max_retries)
                  ((λ x : Z * string, attempt x.2) <$> failed_prompts)).
Proof.
  intros Hfailed. unfold retry_failed_images.
  unfold bind at 1. unfold st at 1. unfold emit at 1.
  destruct (retry_outer_fail max_retries (range 0 max_retries)
              failed_prompts (h ++ [title]) Hfailed)
    as (new & Hrun & Hslept & Hrounds & Hcreated).
  unfold bind. rewrite Hrun. unfold ret. simpl.
  assert (Hlen : length (range 0 max_retries) = Z.to_nat max_retries).
  { unfold range. rewrite length_seqZ. lia. }
  rewrite Hlen in Hrounds, Hcreated.
  exists ([title] ++ new). split_and!.
  - by rewrite <-app_assoc.
  - rewrite slept_app, Hslept. done.
  - rewrite rounds_run_app, Hrounds. done.
  - rewrite created_app, Hcreated. done.
Qed.

End all_fail.

End retry_edges.

Lemma retry_nothing_to_do_witness :
  streamlit_image_handler.retry_failed_images streamlit_image_handler.init
    Examples.env_ok [(0, "a")] "out" "standard" "1024x1024" "vivid" 0 []
  = ([] ++ [EvSt "write" "### 🔄 실패한 이미지 재시도"], Return ∅).
Proof. apply retry_nothing_to_do. right. lia. Defined.

Lemma retry_all_fail_no_pause_witness :
  ∃ new,
    streamlit_image_handler.retry_failed_images streamlit_image_handler.init
      Examples.env_single_always_fails [(0, "a"); (2, "c")] "out" "standard"
      "1024x1024" "vivid" 3 []
    = ([] ++ new, Return ∅) ∧
    slept new = 0 ∧
    rounds_run new = Z.to_nat 3 ∧
    filter (λ e, is_create_single_image e = true) new
      = concat (replicate (Z.to_nat 3)
                  ((λ x : Z * string,
                      EvCreateSingleImage x.2 "out" "standard" "1024x1024"
                        "vivid") <$> [(0, "a"); (2, "c")])).
Proof.
  apply (retry_all_fail_no_pause streamlit_image_handler.init
           Examples.env_single_always_fails "out" "standard" "1024x1024"
           "vivid").
  - intros h prompt. reflexivity.
  - discriminate.
Defined.

(** ** What the retry pass answers, and how much it attempts *)

Section retry_bounds.
Import streamlit_image_handler.
Variables (self : StreamlitImageHandler) (E : env).
Variables (output_dir quality img_size style : string).

Local Abbreviation attempt prompt :=
  (EvCreateSingleImage prompt output_dir quality img_size style).
Local Abbreviation failed_of round :=
  (still_failed E output_dir quality img_size style round).
Local Abbreviation recorded_in entries results :=
  (record_successes E output_dir quality img_size style entries results).
Local Abbreviation chain failed rounds :=
  (retry_chain E output_dir quality img_size style failed rounds).

Lemma still_failed_subseteq (round : list ((Z * string) * history)) :
  failed_of round ⊆ fst <$> round.
Proof.
  unfold still_failed. intros x Hx.
  apply list_elem_of_fmap in Hx as (y & -> & Hy).
  apply list_elem_of_filter in Hy as [_ Hy].
  apply list_elem_of_fmap. eauto.
Qed.

Lemma still_failed_length (round : list ((Z * string) * history)) :
  (length (failed_of round) ≤ length round)%nat.
Proof. unfold still_failed. rewrite length_fmap. apply length_filter. Qed.

Lemma retry_chain_items (failed : list (Z * string))
    (rounds : list (list ((Z * string) * history))) :
  chain failed rounds →
  Forall (λ x, x.1 ∈ failed) (concat rounds).
Proof.
  revert failed. induction rounds as [|round rounds IH]; intros failed.
  { constructor. }
  simpl. intros (Hitems & _ & Hchain). apply Forall_app. split.
  - apply Forall_forall. intros x Hx. rewrite <-Hitems.
    apply list_elem_of_fmap. eauto.
  - eapply Forall_impl; [by apply IH|].
    intros x Hx. simpl in Hx. rewrite <-Hitems.
    by apply still_failed_subseteq.
Qed.

Lemma retry_chain_length (failed : list (Z * string))
    (rounds : list (list ((Z * string) * history))) :
  chain failed rounds →
  (length (concat rounds) ≤ length rounds * length failed)%nat.
Proof.
  revert failed. induction rounds as [|round rounds IH]; intros failed.
  { done. }
  simpl. intros (Hitems & _ & Hchain). rewrite length_app.
  specialize (IH _ Hchain).
  pose proof (still_failed_length round) as Hle.
  assert (length round = length failed) as Hlen.
  { by rewrite <-Hitems, length_fmap. }
  rewrite Hlen in *. nia.
Qed.

Lemma record_successes_lookup (entries : list ((Z * string) * history))
    (results : gmap Z (option string)) (idx : Z) (r : option string) :
  recorded_in entries results !! idx = Some r →
  results !! idx = Some r ∨
  ∃ x, x ∈ entries ∧ x.1.1 = idx ∧ is_image_result r ∧ r ≠ None.
Proof.
  revert results. induction entries as [|x entries IH]; intros results.
  { by left. }
  change (x :: entries) with ([x] ++ entries). rewrite recorded_in_app.
  intros Hlook. apply IH in Hlook as [Hlook|(y & Hy & Hidx & Hr)].
  - unfold record_successes in Hlook. simpl in Hlook.
    destruct (truthy (entry_result E output_dir quality img_size style x))
      eqn:Ht; [|by left].
    destruct (decide (x.1.1 = idx)) as [Heq|Hne].
    + rewrite Heq, lookup_insert_eq in Hlook. injection Hlook as <-.
      right. exists x. split_and!; [left|done| |].
      * apply attempt_result_is_image_result.
      * intros Hnone. by rewrite Hnone in Ht.
    + rewrite lookup_insert_ne in Hlook by done. by left.
  - right. exists y. split; [by right|done].
Qed.

(** X12 — the mapping the retry pass answers has keys among the
    indices it was given, and every value is a non-empty path: it never
    holds [None], and never an index that was not to be retried. *)
Theorem retry_results_sound (failed_prompts : list (Z * string))
    (max_retries : Z) (h : history) :
  ∃ new retry_results,
    retry_failed_images self E failed_prompts output_dir quality img_size
      style max_retries h
    = (h ++ new, Return retry_results) ∧
    ∀ idx r,
      retry_results !! idx = Some r →
      idx ∈ failed_prompts.*1 ∧
      ∃ path, r = Some path ∧ path ≠ EmptyString.
Proof.
  unfold retry_failed_images.
  unfold bind at 1. unfold st at 1. unfold emit at 1.
  set (title := EvSt "write" _).
  destruct (retry_outer_loop self E output_dir quality img_size style
              max_retries (range 0 max_retries) failed_prompts ∅
              (h ++ [title]))
    as (new & rounds & Hrun & Hchain & _).
  unfold bind. rewrite Hrun. unfold ret. simpl.
  exists ([title] ++ new), (recorded_in (concat rounds) ∅).
  split; [by rewrite <-app_assoc|].
  intros idx r Hlook.
  apply record_successes_lookup in Hlook as [Hlook|(x & Hx & Hidx & Hr & Hsome)].
  { by rewrite lookup_empty in Hlook. }
  split.
  - pose proof (retry_chain_items _ _ Hchain) as Hall.
    rewrite Forall_forall in Hall. specialize (Hall x Hx).
    rewrite <-Hidx. apply list_elem_of_fmap. eauto.
  - by destruct Hr as [Hr|Hr].
Qed.

(** X13 — the retry pass makes at most [max_retries] attempts per
    item it was given: never more than [max_retries] times their number
    in all, and none when [max_retries] is not positive. *)
Theorem retry_attempts_bounded (failed_prompts : list (Z * string))
    (max_retries : Z) (h : history) :
  ∃ new retry_results,
    retry_failed_images self E failed_prompts output_dir quality img_size
      style max_retries h
    = (h ++ new, Return retry_results) ∧
    (length (filter (λ e, is_create_single_image e = true) new)
     ≤ Z.to_nat max_retries * length failed_prompts)%nat.
Proof.
  unfold retry_failed_images.
  unfold bind at 1. unfold st at 1. unfold emit at 1.
  set (title := EvSt "write" _).
  destruct (retry_outer_loop self E output_dir quality img_size style
              max_retries (range 0 max_retries) failed_prompts ∅
              (h ++ [title]))
    as (new & rounds & Hrun & Hchain & _ & Hcreated & _ & Hle & _).
  unfold bind. rewrite Hrun. unfold ret. simpl.
  exists ([title] ++ new), (recorded_in (concat rounds) ∅).
  split; [by rewrite <-app_assoc|].
  rewrite created_app, length_app, Hcreated, length_fmap. simpl.
  pose proof (retry_chain_length _ _ Hchain) as Hlen.
  assert (Hrange : length (range 0 max_retries) = Z.to_nat max_retries).
  { unfold range. rewrite length_seqZ. lia. }
  rewrite Hrange in Hle. nia.
Qed.

End retry_bounds.

(** ** The summary and the report of the handler *)

Section handler_report.
Import streamlit_image_handler.

Lemma enumerate_lookup {A} (l : list A) (i : nat) (k : Z) (x : A) :
  enumerate l !! i = Some (k, x) ↔ k = Z.of_nat i ∧ l !! i = Some x.
Proof.
  unfold enumerate. rewrite lookup_zip_with_Some. split.
  - intros (k' & x' & [= <- <-] & Hk & Hx).
    apply lookup_seqZ in Hk as [-> _]. split; [lia|done].
  - intros [-> Hx]. exists (Z.of_nat i), x. split_and!; [done| |done].
    apply lookup_seqZ. split; [lia|]. apply lookup_lt_Some in Hx. lia.
Qed.

Lemma enumerate_length {A} (l : list A) : length (enumerate l) = length l.
Proof.
  unfold enumerate. rewrite length_zip_with, length_seqZ. lia.
Qed.

Lemma enumerate_snd {A} (l : list A) : (enumerate l).*2 = l.
Proof.
  unfold enumerate. apply snd_zip. rewrite length_seqZ. lia.
Qed.

Lemma details_of_status (entries : list (Z * (string * option string))) :
  Forall (λ x, is_image_result x.2.2) entries →
  length (filter (λ d, detail_status d = "success")
            ((λ '(idx, (prompt, result)),
                {| detail_index := idx + 1;
                   detail_prompt := prompt;
                   detail_result := result;
                   detail_status :=
                     if truthy result then "success" else "failed" |})
               <$> entries))
  = length (filter (λ r, r ≠ None) (entries.*2.*2)).
Proof.
  induction 1 as [|[idx [prompt result]] entries Hr _ IH]; [done|].
  rewrite !fmap_cons. simpl in Hr. simpl snd.
  destruct Hr as [->|(path & -> & Hpath)].
  - simpl. rewrite filter_cons_False by done.
    rewrite filter_cons_False by (intros H; by apply H). done.
  - assert (truthy (Some path) = true) as Ht.
    { apply truthy_Some. eauto. }
    rewrite Ht. rewrite !filter_cons_True by done. simpl. by rewrite IH.
Qed.

Lemma details_of_agree (prompts : list string)
    (results : list (option string)) :
  length prompts = length results →
  Forall is_image_result results →
  let details := details_of prompts results in
  Z.of_nat (length details) = sum_total (get_generation_summary results) ∧
  (∀ (i : nat) d,
     details !! i = Some d →
     detail_index d = Z.of_nat i + 1 ∧
     prompts !! i = Some (detail_prompt d) ∧
     results !! i = Some (detail_result d) ∧
     (detail_status d = "success" ↔ detail_result d ≠ None)) ∧
  Z.of_nat (length (filter (λ d, detail_status d = "success") details))
  = sum_success (get_generation_summary results).
Proof.
  intros Hlen Hres details. unfold details, details_of. split_and!.
  - rewrite length_fmap, enumerate_length, length_zip_with. simpl. lia.
  - intros i d Hd. rewrite list_lookup_fmap in Hd.
    destruct (enumerate (zip prompts results) !! i)
      as [[idx [prompt result]]|] eqn:Hi; [|done].
    injection Hd as <-. simpl.
    apply enumerate_lookup in Hi as [-> Hi].
    apply lookup_zip_with_Some in Hi as (p & r & [= <- <-] & Hp & Hr).
    split_and!; [done..|].
    rewrite Forall_lookup in Hres. specialize (Hres _ _ Hr).
    destruct Hres as [->|(path & -> & Hpath)].
    + simpl. split; [done|]. intros H. by destruct H.
    + assert (truthy (Some path) = true) as ->; [|done].
      apply truthy_Some. eauto.
  - rewrite details_of_status.
    + rewrite enumerate_snd, snd_zip by lia. done.
    + apply Forall_forall. intros [idx [prompt result]] Hin. simpl.
      rewrite Forall_forall in Hres. apply Hres.
      apply (list_elem_of_fmap_2 snd) in Hin. rewrite enumerate_snd in Hin.
      apply (list_elem_of_fmap_2 snd) in Hin. by rewrite snd_zip in Hin by lia.
Qed.

(** X15 — for as many prompts as results, each result [None] or a
    non-empty path (what the handler's batch answers), the report that
    [save_generation_report] writes to [generation_report.json] in the
    output directory is consistent: its details agree with its summary,
    one detail per result, numbered from 1, with the prompt and the
    result of that position, and as many details of status "success" as
    the summary counts successes.  The path of the report is returned
    when the write goes through. *)
Theorem report_details_agree (json_dump : report → string) (E : env)
    (output_dir : string) (prompts : list string)
    (results : list (option string)) (settings : list (string * string))
    (h : history) :
  length prompts = length results →
  Forall is_image_result results →
  let report_path :=
    imgCreator.path_join output_dir "generation_report.json" in
  ∃ written : report,
    (save_generation_report json_dump E output_dir prompts results
       settings h).1
    = h ++ [EvNow; EvFileWrite report_path (json_dump written)] ∧
    (file_write E (h ++ [EvNow]) report_path (json_dump written) = Return tt →
     (save_generation_report json_dump E output_dir prompts results
        settings h).2 = Return report_path) ∧
    report_settings written = settings ∧
    report_summary written = get_generation_summary results ∧
    Z.of_nat (length (report_details written))
    = sum_total (report_summary written) ∧
    (∀ (i : nat) d,
       report_details written !! i = Some d →
       detail_index d = Z.of_nat i + 1 ∧
       prompts !! i = Some (detail_prompt d) ∧
       results !! i = Some (detail_result d) ∧
       (detail_status d = "success" ↔ detail_result d ≠ None)) ∧
    Z.of_nat (length (filter (λ d, detail_status d = "success")
                        (report_details written)))
    = sum_success (report_summary written).
Proof.
  intros Hlen Hres report_path.
  destruct (details_of_agree prompts results Hlen Hres)
    as (Htotal & Hdetails & Hsuccess).
  unfold save_generation_report. fold report_path.
  exists {| report_timestamp := now_strftime E h;
            report_settings := settings;
            report_summary := get_generation_summary results;
            report_details := details_of prompts results |}.
  cbn [report_details report_summary report_settings].
  unfold bind, call, ret.
  destruct (file_write E (h ++ [EvNow]) report_path _) as [[]|e];
    cbn [fst snd]; (split_and!; [by rewrite <-app_assoc|done..]).
Qed.

End handler_report.

Lemma report_details_agree_witness :
  let prompts := ["a"; "b"; "c"] in
  let results := [Some "out/a.png"; None; Some "out/c.png"] in
  let report_path := imgCreator.path_join "out" "generation_report.json" in
  ∃ written : streamlit_image_handler.report,
    (streamlit_image_handler.save_generation_report (λ _, "{}")
       Examples.env_ok "out" prompts results [("quality", "standard")] []).1
    = [] ++ [EvNow; EvFileWrite report_path ((λ _, "{}") written)] ∧
    (file_write Examples.env_ok ([] ++ [EvNow]) report_path
       ((λ _, "{}") written) = Return tt →
     (streamlit_image_handler.save_generation_report (λ _, "{}")
        Examples.env_ok "out" prompts results [("quality", "standard")] []).2
     = Return report_path) ∧
    streamlit_image_handler.report_settings written
    = [("quality", "standard")] ∧
    streamlit_image_handler.report_summary written
    = streamlit_image_handler.get_generation_summary results ∧
    Z.of_nat (length (streamlit_image_handler.report_details written))
    = streamlit_image_handler.sum_total
        (streamlit_image_handler.report_summary written) ∧
    (∀ (i : nat) d,
       streamlit_image_handler.report_details written !! i = Some d →
       streamlit_image_handler.detail_index d = Z.of_nat i + 1 ∧
       prompts !! i = Some (streamlit_image_handler.detail_prompt d) ∧
       results !! i = Some (streamlit_image_handler.detail_result d) ∧
       (streamlit_image_handler.detail_status d = "success"
        ↔ streamlit_image_handler.detail_result d ≠ None)) ∧
    Z.of_nat (length (filter
                        (λ d, streamlit_image_handler.detail_status d
                              = "success")
                        (streamlit_image_handler.report_details written)))
    = streamlit_image_handler.sum_success
        (streamlit_image_handler.report_summary written).
Proof.
  apply (report_details_agree (λ _, "{}") Examples.env_ok "out"
           ["a"; "b"; "c"] [Some "out/a.png"; None; Some "out/c.png"]
           [("quality", "standard")] []).
  - reflexivity.
  - apply Forall_cons_2; [right; eexists; split; [reflexivity|discriminate]|].
    apply Forall_cons_2; [by left|].
    apply Forall_cons_2; [right; eexists; split; [reflexivity|discriminate]|].
    apply Forall_nil_2.
Defined.

(** With the empty string for a result the two disagree: the summary
    counts a success, the detail says "failed". *)
Example report_empty_path_disagrees :
  streamlit_image_handler.sum_success
    (streamlit_image_handler.get_generation_summary [Some ""]) = 1 ∧
  streamlit_image_handler.detail_status
    <$> streamlit_image_handler.details_of ["a"] [Some ""] = ["failed"].
Proof. split; reflexivity. Qed.

(** ** The batch followed by the retry pass *)

Section handler_merge.
Import streamlit_image_handler.
Variables (self : StreamlitImageHandler) (E : env).
Variables (output_dir quality img_size style : string).

(** The list after the assignments [results[idx] = result] of some
    items, every index in range. *)
Local Abbreviation merged items results :=
  (foldl (λ (l : list (option string)) (x : Z * option string),
            <[Z.to_nat x.1 := x.2]> l) results items).

Lemma merged_length (items : list (Z * option string))
    (results : list (option string)) :
  length (merged items results) = length results.
Proof.
  revert results. induction items as [|x items IH]; intros results; [done|].
  simpl. by rewrite IH, length_insert.
Qed.

Lemma merged_Forall (P : option string → Prop)
    (items : list (Z * option string)) (results : list (option string)) :
  Forall (λ x, P x.2) items → Forall P results →
  Forall P (merged items results).
Proof.
  revert results. induction items as [|x items IH]; intros results; [done|].
  intros [Hx Hitems]%Forall_cons Hres. simpl.
  apply IH; [done|]. by apply Forall_insert.
Qed.

Lemma merged_lookup_other (items : list (Z * option string))
    (results : list (option string)) (i : nat) :
  Forall (λ x, Z.to_nat x.1 ≠ i) items →
  merged items results !! i = results !! i.
Proof.
  revert results. induction items as [|x items IH]; intros results; [done|].
  intros [Hx Hitems]%Forall_cons. simpl.
  rewrite IH by done. by rewrite list_lookup_insert_ne.
Qed.

Lemma apply_retry_loop (items : list (Z * option string))
    (results : list (option string)) (h : history) :
  Forall (λ x, 0 ≤ x.1 < Z.of_nat (length results)) items →
  for_loop
    (λ '(idx, result) results,
       match list_setitem results idx result with
       | Return results' => ret results'
       | Raise e => raise e
       end)
    items results h
  = (h, Return (merged items results)).
Proof.
  revert results. induction items as [|[idx r] items IH]; intros results.
  { done. }
  intros [Hx Hitems]%Forall_cons. simpl in Hx.
  change (for_loop ?f (?a :: ?l) ?s) with (bind (f a s) (for_loop f l)).
  unfold bind at 1. unfold list_setitem. rewrite decide_True by done.
  unfold ret at 1. rewrite IH; [done|].
  eapply Forall_impl; [exact Hitems|].
  intros x Hin. simpl in Hin. by rewrite length_insert.
Qed.

Lemma failed_prompts_of_elem (prompts : list string)
    (results : list (option string)) (idx : Z) (prompt : string) :
  (idx, prompt) ∈ failed_prompts_of prompts results →
  0 ≤ idx < Z.of_nat (length results) ∧
  results !! Z.to_nat idx = Some None.
Proof.
  unfold failed_prompts_of. intros Hin.
  apply list_elem_of_omap in Hin as ([k [p r]] & Hin & Hsome).
  destruct (decide (r = None)) as [->|]; [|done].
  injection Hsome as <- <-.
  apply list_elem_of_lookup in Hin as [i Hi].
  apply enumerate_lookup in Hi as [-> Hi].
  apply lookup_zip_with_Some in Hi as (p' & r' & [= <- <-] & Hp & Hr).
  rewrite Nat2Z.id. split; [|done].
  apply lookup_lt_Some in Hr. lia.
Qed.

Lemma retry_chain_recorded (failed : list (Z * string))
    (rounds : list (list ((Z * string) * history))) (idx : Z)
    (r : option string) :
  retry_chain E output_dir quality img_size style failed rounds →
  record_successes E output_dir quality img_size style (concat rounds) ∅
    !! idx = Some r →
  idx ∈ failed.*1 ∧ ∃ path, r = Some path ∧ path ≠ EmptyString.
Proof.
  intros Hchain Hlook.
  apply record_successes_lookup in Hlook
    as [Hlook|(x & Hx & Hidx & Hr & Hsome)].
  { by rewrite lookup_empty in Hlook. }
  split.
  - pose proof (retry_chain_items _ _ _ _ _ _ _ Hchain) as Hall.
    rewrite Forall_forall in Hall. specialize (Hall x Hx).
    rewrite <-Hidx. apply list_elem_of_fmap. eauto.
  - by destruct Hr as [Hr|Hr].
Qed.

(** X16 — the batch followed by the retry pass and the merge of its
    results never raises: every assignment [results[idx] = result] of
    the merge is in range.  The list that comes out has one entry per
    prompt, each [None] or a non-empty path, and every image of the
    first pass is still at its place. *)
Theorem generate_and_retry_merges (prompts : list string) (h : history) :
  ∃ new1 first new results,
    create_multiple_images_with_progress self E prompts output_dir quality
      img_size style h
    = (h ++ new1, Return first) ∧
    generate_and_retry self E prompts output_dir quality img_size style h
    = (h ++ new, Return results) ∧
    new1 `prefix_of` new ∧
    length results = length prompts ∧
    Forall is_image_result results ∧
    ∀ (i : nat) path,
      first !! i = Some (Some path) → results !! i = Some (Some path).
Proof.
  destruct (create_multiple_images_with_progress_run self E output_dir
              quality img_size style prompts h)
    as (new1 & first & Hrun & Hlen & _ & Hres).
  pose proof (answers_are_image_results E output_dir quality img_size style
                prompts first h new1 Hlen Hres) as Himg.
  exists new1, first. unfold generate_and_retry.
  unfold bind at 1. rewrite Hrun.
  destruct (decide (failed_prompts_of prompts first ≠ [])) as [Hfailed|_].
  2:{ exists new1, first. unfold ret. split_and!; done. }
  unfold retry_failed_images.
  unfold bind at 1. unfold bind at 1. unfold st at 1. unfold emit at 1.
  set (title := EvSt "write" _).
  destruct (retry_outer_loop self E output_dir quality img_size style
              3 (range 0 3) (failed_prompts_of prompts first) ∅
              ((h ++ new1) ++ [title]))
    as (new2 & rounds & Hretry & Hchain & _).
  unfold bind at 1. rewrite Hretry. unfold ret at 1. simpl snd.
  set (retry_results :=
         record_successes E output_dir quality img_size style
           (concat rounds) ∅).
  assert (Hitems :
    ∀ x, x ∈ map_to_list retry_results →
      (0 ≤ x.1 < Z.of_nat (length first) ∧
       first !! Z.to_nat x.1 = Some None) ∧
      ∃ path, x.2 = Some path ∧ path ≠ EmptyString).
  { intros [idx r] Hx. apply elem_of_map_to_list in Hx. simpl.
    destruct (retry_chain_recorded _ _ _ _ Hchain Hx) as [Hidx Hr].
    split; [|done].
    apply list_elem_of_fmap in Hidx as ([idx' prompt] & -> & Hin).
    by eapply failed_prompts_of_elem. }
  unfold apply_retry_results. rewrite apply_retry_loop.
  2:{ apply Forall_forall. intros x Hx. by apply Hitems. }
  exists (new1 ++ [title] ++ new2), (merged (map_to_list retry_results) first).
  split_and!.
  - done.
  - by rewrite <-!app_assoc.
  - by apply prefix_app_r.
  - by rewrite merged_length.
  - apply merged_Forall; [|done].
    apply Forall_forall. intros x Hx.
    destruct (Hitems x Hx) as [_ (path & -> & Hpath)]. right. eauto.
  - intros i path Hi. rewrite merged_lookup_other; [done|].
    apply Forall_forall. intros x Hx.
    destruct (Hitems x Hx) as [[_ Hnone] _]. intros <-. congruence.
Qed.

End handler_merge.

(** ** A scene that lacks a field *)

Section image_edges.
Import imgCreator.
Variable E : env.

Lemma dict_get_elem {V} (d : list (string * V)) (k : string) (v : V) :
  dict_get d k = Some v → (k, v) ∈ d.
Proof.
  induction d as [|[k' v'] d IH]; simpl; [done|].
  destruct (decide (k' = k)) as [->|_].
  - intros [= ->]. left.
  - intros Hget. right. by apply IH.
Qed.

(** The loop of [create_all_scenes_context] stops with a [KeyError] at
    the first scene that lacks a field. *)
Lemma context_loop_lacking (items : scenes_dict) (context : string)
    (h : history) (key : string) (scene_data : scene_obj) :
  (key, scene_data) ∈ items →
  dict_get scene_data "script" = None
  ∨ dict_get scene_data "main_keyword" = None →
  ∃ k,
    for_loop
      (λ '(scene_key, scene_data) context,
         let scene_num := str_remove "scene_" scene_key in
         let! script := subscript scene_data "script" in
         let! main_keyword := subscript scene_data "main_keyword" in
         ret (context +:+ "Scene " +:+ scene_num +:+ ": " +:+ script
                      +:+ " (키워드: " +:+ main_keyword +:+ ")" +:+ nl))
      items context h
    = (h, Raise (KeyError k)) ∧
    (k = "script" ∨ k = "main_keyword").
Proof.
  intros Hin Hlacks. revert context.
  induction items as [|[key0 scene0] items IH]; intros context.
  { by apply elem_of_nil in Hin. }
  change (for_loop ?f (?a :: ?l) ?s) with (bind (f a s) (for_loop f l)).
  unfold bind at 1. cbv zeta. unfold subscript.
  destruct (dict_get scene0 "script") as [script|] eqn:Hscript.
  2:{ exists "script". split; [done|by left]. }
  unfold bind at 1. unfold ret at 1.
  destruct (dict_get scene0 "main_keyword") as [keyword|] eqn:Hkeyword.
  2:{ exists "main_keyword". split; [done|by right]. }
  unfold bind at 1. unfold ret at 1.
  apply elem_of_cons in Hin as [[= -> ->]|Hin].
  - destruct Hlacks; congruence.
  - by apply IH.
Qed.

Lemma create_all_scenes_context_lacking (scenes_data : scenes_file)
    (scenes : scenes_dict) (key : string) (scene_data : scene_obj)
    (h : history) :
  dict_get scenes_data "scenes" = Some scenes →
  dict_get scenes key = Some scene_data →
  dict_get scene_data "script" = None
  ∨ dict_get scene_data "main_keyword" = None →
  ∃ k,
    create_all_scenes_context scenes_data h = (h, Raise (KeyError k)) ∧
    (k = "script" ∨ k = "main_keyword").
Proof.
  intros Hscenes Hkey Hlacks.
  unfold create_all_scenes_context, subscript. rewrite Hscenes.
  unfold bind at 1. unfold ret at 1.
  eapply context_loop_lacking; [|done]. by apply dict_get_elem.
Qed.

(** X17 — one scene of the file without its [script] or its
    [main_keyword] stops every generation: the story context is built
    from all the scenes, outside any [try], so the batch raises before
    its loop, and [generate_scene_image] raises for every scene number,
    the well-formed scenes included; neither makes an image request. *)
Theorem lacking_field_stops_generation (json_file_path output_dir : string)
    (scenes_data : scenes_file) (scenes : scenes_dict) (key : string)
    (scene_data : scene_obj) (h : history) :
  (∀ h', json_load E h' json_file_path = Return scenes_data) →
  dict_get scenes_data "scenes" = Some scenes →
  dict_get scenes key = Some scene_data →
  dict_get scene_data "script" = None
  ∨ dict_get scene_data "main_keyword" = None →
  (∃ new e,
     generate_all_scenes_with_rate_limit E json_file_path output_dir h
     = (h ++ new, Raise e) ∧
     ∀ model prompt, EvImagesGenerate model prompt ∉ new) ∧
  (∀ scene_number,
     ∃ e,
       generate_scene_image E json_file_path scene_number output_dir h
       = (h ++ [EvLoadJson json_file_path], Raise e)).
Proof.
  intros Hload Hscenes Hkey Hlacks. split.
  - unfold generate_all_scenes_with_rate_limit.
    unfold bind at 1. unfold call at 1.
    destruct (makedirs E h output_dir) as [[]|e].
    + unfold bind at 1. unfold load_scenes_from_json, call. rewrite Hload.
      destruct (create_all_scenes_context_lacking scenes_data scenes key
                  scene_data
                  ((h ++ [EvMakedirs output_dir])
                     ++ [EvLoadJson json_file_path])
                  Hscenes Hkey Hlacks) as (k & Hctx & _).
      unfold bind at 1. rewrite Hctx.
      exists [EvMakedirs output_dir; EvLoadJson json_file_path], (KeyError k).
      split; [by rewrite <-app_assoc|].
      intros model prompt. rewrite !elem_of_cons, elem_of_nil.
      by intros [?|[?|[]]].
    + exists [EvMakedirs output_dir], e. split; [done|].
      intros model prompt. rewrite !elem_of_cons, elem_of_nil.
      by intros [?|[]].
  - intros scene_number. unfold generate_scene_image.
    unfold bind at 1. unfold load_scenes_from_json, call. rewrite Hload.
    destruct (decide (scene_number < 1 ∨ scene_number > 18)); [by eexists|].
    unfold subscript at 1. rewrite Hscenes.
    unfold bind at 1. unfold ret at 1.
    destruct (dict_get scenes (scene_key scene_number)) as [scene|];
      [|by eexists].
    unfold subscript.
    destruct (dict_get scene "script") as [script|]; [|by eexists].
    unfold bind at 1. unfold ret at 1.
    destruct (dict_get scene "main_keyword") as [keyword|]; [|by eexists].
    unfold bind at 1. unfold ret at 1.
    destruct (create_all_scenes_context_lacking scenes_data scenes key
                scene_data (h ++ [EvLoadJson json_file_path])
                Hscenes Hkey Hlacks) as (k & Hctx & _).
    unfold bind at 1. rewrite Hctx. by eexists.
Qed.

End image_edges.

Lemma lacking_field_stops_generation_witness :
  (∃ new e,
     imgCreator.generate_all_scenes_with_rate_limit
       Examples.env_scene_9_without_script "result4.json" "images" []
     = ([] ++ new, Raise e) ∧
     ∀ model prompt, EvImagesGenerate model prompt ∉ new) ∧
  (∀ scene_number,
     ∃ e,
       imgCreator.generate_scene_image Examples.env_scene_9_without_script
         "result4.json" scene_number "images" []
       = ([] ++ [EvLoadJson "result4.json"], Raise e)).
Proof.
  apply (lacking_field_stops_generation Examples.env_scene_9_without_script
           "result4.json" "images"
           Examples.scenes_json_scene_9_without_script
           ((λ i, (imgCreator.scene_key i,
                   if decide (i = 9) then [("main_keyword", "word")]
                   else [("script", "line"); ("main_keyword", "word")]))
              <$> range 1 19)
           (imgCreator.scene_key 9) [("main_keyword", "word")] []).
  - intros h'. reflexivity.
  - reflexivity.
  - vm_compute. reflexivity.
  - left. reflexivity.
Defined.

(** ** How much the batch of imgCreator requests and sleeps *)

Section image_bounds.
Import imgCreator.
Variable E : env.

Local Abbreviation attempts h :=
  (length (filter (λ e, is_attempt e = true) h)).

Lemma attempts_app (h1 h2 : history) :
  attempts (h1 ++ h2) = (attempts h1 + attempts h2)%nat.
Proof. by rewrite filter_app, length_app. Qed.

(** An attempt adds no sleep and at most one image request. *)
Lemma scene_attempt_requests (scenes_data : scenes_file)
    (all_scenes_context output_dir : string) (scene_num : Z) (h : history) :
  ∃ ext,
    (scene_attempt E scenes_data all_scenes_context output_dir scene_num h).1
    = h ++ ext ∧
    slept ext = 0 ∧
    (attempts ext ≤ 1)%nat.
Proof.
  assert (Hnone : ∀ out : outcome (option string),
            ∃ ext, (h, out).1 = h ++ ext ∧ slept ext = 0
                   ∧ (attempts ext ≤ 1)%nat).
  { intros out. exists []. rewrite app_nil_r. simpl. split_and!; [done..|lia]. }
  unfold scene_attempt, subscript.
  destruct (dict_get scenes_data "scenes") as [scenes|]; [|apply Hnone].
  unfold bind at 1. unfold ret at 1.
  destruct (dict_get scenes (scene_key scene_num)) as [scene_data|];
    [|apply Hnone].
  unfold bind at 1. unfold ret at 1.
  destruct (dict_get scene_data "script") as [scene_script|]; [|apply Hnone].
  unfold bind at 1. unfold ret at 1.
  destruct (dict_get scene_data "main_keyword") as [scene_keyword|];
    [|apply Hnone].
  unfold bind at 1. unfold ret at 1.
  erewrite generate_image_run by reflexivity. simpl.
  destruct (images_generate E h _ _) as [url|e].
  2:{ eexists [_]. split; [done|]. simpl. split; [done|lia]. }
  destruct (requests_get E _ url) as [[status body]|e].
  2:{ eexists [_; _]. rewrite <-app_assoc. split; [done|]. simpl. split; [done|lia]. }
  destruct (decide (status = 200)) as [_|_].
  2:{ eexists [_; _]. rewrite <-app_assoc. split; [done|]. simpl. split; [done|lia]. }
  destruct (file_write E _ _ body) as [[]|e].
  - eexists [_; _; _]. rewrite <-!app_assoc. split; [done|]. simpl. split; [done|lia].
  - eexists [_; _; _]. rewrite <-!app_assoc. split; [done|]. simpl. split; [done|lia].
Qed.

Lemma batch_loop_bounds (scenes_data : scenes_file)
    (all_scenes_context output_dir : string) (scene_nums : list Z)
    (results : gmap Z (option string)) (h : history) :
  ∃ new results',
    for_loop (scene_iteration E scenes_data all_scenes_context output_dir)
      scene_nums results h
    = (h ++ new, Return results') ∧
    0 ≤ slept new
      ≤ 12 * Z.of_nat (length (filter (λ k, k < 18) scene_nums)) ∧
    (attempts new ≤ length scene_nums)%nat.
Proof.
  revert results h.
  induction scene_nums as [|n rest IH]; intros results h.
  { exists [], results. rewrite app_nil_r. done. }
  change (for_loop ?f (?a :: ?l) ?s) with (bind (f a s) (for_loop f l)).
  unfold bind at 1. rewrite scene_iteration_run.
  set (start := h ++ [EvPrint ("🎨 Processing Scene " +:+ pretty n +:+ "/18...")]).
  destruct (scene_attempt_requests scenes_data all_scenes_context output_dir
              n start) as (ext & Hext & Hslept & Hattempts).
  set (r := scene_attempt E scenes_data all_scenes_context output_dir n start)
    in *.
  rewrite Hext.
  set (tail := match r.2 with Return _ => _ | Raise _ => _ end).
  assert (Htail : 0 ≤ slept tail ≤ (if decide (n < 18) then 12 else 0)
                  ∧ attempts tail = 0%nat).
  { unfold tail. destruct (r.2) as [image_path|e].
    - destruct (decide (n < 18)); simpl; split; (lia || done).
    - destruct (decide (n < 18)); simpl; split; (lia || done). }
  destruct Htail as [Htail Hquiet].
  destruct (IH (<[n := recorded r.2]> results) ((start ++ ext) ++ tail))
    as (new & results' & -> & Hnew & Hcount).
  exists ([EvPrint ("🎨 Processing Scene " +:+ pretty n +:+ "/18...")]
          ++ ext ++ tail ++ new), results'.
  split_and!.
  - f_equal. unfold start. by rewrite <-!app_assoc.
  - rewrite !slept_app, Hslept. simpl slept at 1. lia.
  - rewrite !slept_app, Hslept. simpl slept at 1.
    rewrite (filter_cons _ n rest).
    destruct (decide (n < 18)); simpl length; lia.
  - rewrite !attempts_app, Hquiet. simpl. lia.
Qed.

(** X18 — whatever the outside world answers, the batch makes at most
    18 image requests and sleeps at most 17 times 12 seconds. *)
Theorem batch_requests_and_sleep_bounded (json_file_path output_dir : string)
    (h : history) :
  ∃ new out,
    generate_all_scenes_with_rate_limit E json_file_path output_dir h
    = (h ++ new, out) ∧
    0 ≤ slept new ≤ 17 * 12 ∧
    (attempts new ≤ 18)%nat.
Proof.
  unfold generate_all_scenes_with_rate_limit.
  unfold bind at 1. unfold call at 1.
  destruct (makedirs E h output_dir) as [[]|e].
  2:{ eexists [_], _. split; [done|]. simpl. split; lia. }
  unfold bind at 1. unfold load_scenes_from_json, call.
  destruct (json_load E _ json_file_path) as [scenes_data|e].
  2:{ eexists [_; _], _. rewrite <-app_assoc. split; [done|].
      simpl. split; lia. }
  unfold bind at 1.
  pose proof (create_all_scenes_context_silent scenes_data
                ((h ++ [EvMakedirs output_dir]) ++ [EvLoadJson json_file_path]))
    as Hsilent.
  destruct (create_all_scenes_context scenes_data _) as [h' [context|e]];
    simpl in Hsilent; subst h'.
  2:{ eexists [_; _], _. rewrite <-app_assoc. split; [done|].
      simpl. split; lia. }
  unfold bind at 1. unfold print at 1. unfold emit at 1.
  destruct (batch_loop_bounds scenes_data context output_dir (range 1 19) ∅
              (((h ++ [EvMakedirs output_dir]) ++ [EvLoadJson json_file_path])
                 ++ [EvPrint "⏱️  Processing with rate limit: 5 images per minute (12 second intervals)"]))
    as (new & results & -> & Hslept & Hattempts).
  eexists ([_; _; _] ++ new), _. split_and!.
  - by rewrite <-!app_assoc.
  - rewrite slept_app. simpl slept at 1.
    change (length (filter (λ k, k < 18) (range 1 19))) with 17%nat in Hslept.
    lia.
  - rewrite slept_app. simpl slept at 1.
    change (length (filter (λ k, k < 18) (range 1 19))) with 17%nat in Hslept.
    lia.
  - rewrite attempts_app. simpl.
    change (length (range 1 19)) with 18%nat in Hattempts. lia.
Qed.

End image_bounds.

(** ** The loop over all 18 scenes of the application *)

Section all_scenes.
Import imgCreator streamlit_app.
Variable E : env.
Variable temp_json_file : string.

Local Abbreviation attempts h :=
  (length (filter (λ e, is_attempt e = true) h)).
Local Abbreviation loads h :=
  (length (filter (λ e, is_load_json e = true) h)).
Local Abbreviation status scene_num :=
  (EvSt "text" ("씬 " +:+ pretty scene_num +:+ "/18 이미지 생성 중...")).
Local Abbreviation generated scene_num h :=
  (generate_scene_image E temp_json_file scene_num "generated_images" h).
(** The entry of a scene after its iteration. *)
Local Abbreviation entry_after answer old :=
  (match answer with
   | Return image_path => Some image_path
   | Raise _ => old
   end).

Lemma loads_app (h1 h2 : history) :
  loads (h1 ++ h2) = (loads h1 + loads h2)%nat.
Proof. by rewrite filter_app, length_app. Qed.

(** [generate_scene_image] reads the file once, sleeps never, and makes
    at most one image request. *)
Lemma generate_scene_image_events (scene_number : Z) (output_dir : string)
    (h : history) :
  ∃ ext,
    (generate_scene_image E temp_json_file scene_number output_dir h).1
    = h ++ ext ∧
    slept ext = 0 ∧
    (attempts ext ≤ 1)%nat ∧
    loads ext = 1%nat.
Proof.
  assert (Hstop : ∀ out : outcome (option string),
            ∃ ext, (h ++ [EvLoadJson temp_json_file], out).1 = h ++ ext
                   ∧ slept ext = 0 ∧ (attempts ext ≤ 1)%nat
                   ∧ loads ext = 1%nat).
  { intros out. exists [EvLoadJson temp_json_file]. simpl.
    split_and!; [done..|lia|done]. }
  unfold generate_scene_image.
  unfold bind at 1. unfold load_scenes_from_json, call.
  destruct (json_load E h temp_json_file) as [scenes_data|e]; [|apply Hstop].
  destruct (decide (scene_number < 1 ∨ scene_number > 18)); [apply Hstop|].
  unfold subscript.
  destruct (dict_get scenes_data "scenes") as [scenes|]; [|apply Hstop].
  unfold bind at 1. unfold ret at 1.
  destruct (dict_get scenes (scene_key scene_number)) as [scene_data|];
    [|apply Hstop].
  destruct (dict_get scene_data "script") as [scene_script|]; [|apply Hstop].
  unfold bind at 1. unfold ret at 1.
  destruct (dict_get scene_data "main_keyword") as [scene_keyword|];
    [|apply Hstop].
  unfold bind at 1. unfold ret at 1.
  unfold bind at 1.
  pose proof (create_all_scenes_context_silent scenes_data
                (h ++ [EvLoadJson temp_json_file])) as Hsilent.
  destruct (create_all_scenes_context scenes_data _) as [h' [context|e]];
    simpl in Hsilent; subst h'; [|apply Hstop].
  erewrite generate_image_run by reflexivity. simpl.
  destruct (images_generate E _ _ _) as [url|e].
  2:{ eexists [_; _]. rewrite <-app_assoc. split; [done|].
      simpl. split_and!; [done|lia|done]. }
  destruct (requests_get E _ url) as [[status body]|e].
  2:{ eexists [_; _; _]. rewrite <-!app_assoc. split; [done|].
      simpl. split_and!; [done|lia|done]. }
  destruct (decide (status = 200)) as [_|_].
  2:{ eexists [_; _; _]. rewrite <-!app_assoc. split; [done|].
      simpl. split_and!; [done|lia|done]. }
  destruct (file_write E _ _ body) as [[]|e].
  - eexists [_; _; _; _]. rewrite <-!app_assoc. split; [done|].
    simpl. split_and!; [done|lia|done].
  - eexists [_; _; _; _]. rewrite <-!app_assoc. split; [done|].
    simpl. split_and!; [done|lia|done].
Qed.

Lemma all_scenes_iteration_run (scene_num : Z)
    (generated_images : gmap Z (option string)) (h : history) :
  let r := generated scene_num (h ++ [status scene_num]) in
  all_scenes_iteration E temp_json_file scene_num generated_images h
  = (r.1 ++
       match r.2 with
       | Return image_path =>
           EvSt "progress" (pretty scene_num +:+ "/18")
           :: (if decide (scene_num < 18) then [EvSleep 12] else [])
       | Raise e =>
           [EvSt "error" ("씬 " +:+ pretty scene_num +:+ " 이미지 생성 실패: "
                          +:+ str_exn e)]
       end,
     Return (match r.2 with
             | Return image_path => <[scene_num := image_path]> generated_images
             | Raise _ => generated_images
             end)).
Proof.
  intros r. unfold all_scenes_iteration.
  unfold bind at 1. unfold emit at 1. unfold try_except.
  unfold bind at 1. fold r.
  destruct r as [h1 [image_path|e]]; simpl.
  - unfold bind at 1. unfold emit at 1.
    destruct (decide (scene_num < 18)).
    + unfold bind, sleep, emit, ret. by rewrite <-!app_assoc.
    + unfold bind, ret. by rewrite <-?app_assoc.
  - unfold bind, emit, ret. done.
Qed.

Lemma all_scenes_loop_run (scene_nums : list Z)
    (generated_images : gmap Z (option string)) (h : history) :
  NoDup scene_nums →
  ∃ new generated_images',
    for_loop (all_scenes_iteration E temp_json_file) scene_nums
      generated_images h
    = (h ++ new, Return generated_images') ∧
    (∀ k, k ∉ scene_nums → generated_images' !! k = generated_images !! k) ∧
    (∀ k, k ∈ scene_nums →
       ∃ hk,
         h `prefix_of` hk ∧ hk ++ [status k] `prefix_of` h ++ new ∧
         generated_images' !! k
         = entry_after (generated k (hk ++ [status k])).2
             (generated_images !! k)) ∧
    0 ≤ slept new
      ≤ 12 * Z.of_nat (length (filter (λ k, k < 18) scene_nums)) ∧
    (attempts new ≤ length scene_nums)%nat ∧
    loads new = length scene_nums.
Proof.
  revert generated_images h.
  induction scene_nums as [|n rest IH]; intros generated_images h Hnodup.
  { exists [], generated_images. rewrite app_nil_r.
    split_and!; try done. intros k Hk. by apply elem_of_nil in Hk. }
  apply NoDup_cons in Hnodup as [Hn Hrest].
  change (for_loop ?f (?a :: ?l) ?s) with (bind (f a s) (for_loop f l)).
  unfold bind at 1. rewrite all_scenes_iteration_run.
  destruct (generate_scene_image_events n "generated_images"
              (h ++ [status n])) as (ext & Hext & Hslept & Hattempts & Hloads).
  set (r := generated n (h ++ [status n])) in *.
  rewrite Hext.
  set (tail := match r.2 with Return _ => _ :: _ | Raise _ => _ end).
  set (after := match r.2 with Return _ => <[_ := _]> _ | Raise _ => _ end).
  assert (Htail : 0 ≤ slept tail ≤ (if decide (n < 18) then 12 else 0)
                  ∧ attempts tail = 0%nat ∧ loads tail = 0%nat).
  { unfold tail. destruct (r.2) as [image_path|e].
    - destruct (decide (n < 18)); simpl; split_and!; (lia || done).
    - destruct (decide (n < 18)); simpl; split_and!; (lia || done). }
  destruct Htail as (Htail & Hquiet & Hnoload).
  assert (Hafter : after !! n = entry_after r.2 (generated_images !! n)
                   ∧ ∀ k, k ≠ n → after !! k = generated_images !! k).
  { unfold after. destruct (r.2) as [image_path|e].
    - split; [by rewrite lookup_insert_eq|].
      intros k Hk. by rewrite lookup_insert_ne.
    - done. }
  destruct Hafter as [Hentry Hothers].
  destruct (IH after (((h ++ [status n]) ++ ext) ++ tail) Hrest)
    as (new & images' & -> & Hother & Hthose & Hnew & Hcount & Hread).
  exists ([status n] ++ ext ++ tail ++ new), images'.
  split_and!.
  - f_equal. by rewrite <-!app_assoc.
  - intros k Hk. apply not_elem_of_cons in Hk as [Hkn Hk].
    rewrite (Hother k Hk). by apply Hothers.
  - intros k [->|Hk]%elem_of_cons.
    + exists h. split_and!; [done| |].
      * apply prefix_app. by apply prefix_app_r.
      * by rewrite (Hother n Hn).
    + destruct (Hthose k Hk) as (hk & Hpre1 & Hpre2 & Hlook).
      exists hk. split_and!.
      * etrans; [|exact Hpre1]. rewrite <-!app_assoc. by apply prefix_app_r.
      * by rewrite <-!app_assoc in Hpre2.
      * rewrite Hlook. rewrite Hothers; [done|]. by intros ->.
  - rewrite !slept_app, Hslept. simpl slept at 1. lia.
  - rewrite !slept_app, Hslept. simpl slept at 1.
    rewrite (filter_cons _ n rest).
    destruct (decide (n < 18)); simpl length; lia.
  - rewrite !attempts_app, Hquiet. simpl. lia.
  - rewrite !loads_app, Hloads, Hnoload, Hread. simpl. lia.
Qed.

(** X19 — the loop over the 18 scenes of the application never
    raises.  The entry of a scene in the session's dictionary becomes
    what [generate_scene_image] returned for it, [None] included; when
    the call raised, the entry is left as it was before the loop, so an
    image of an earlier run stays.  Other keys are not touched. *)
Theorem all_scenes_loop_entries
    (generated_images : gmap Z (option string)) (h : history) :
  ∃ new generated_images',
    all_scenes_loop E temp_json_file generated_images h
    = (h ++ new, Return generated_images') ∧
    (∀ k, ¬ (1 ≤ k ≤ 18) →
       generated_images' !! k = generated_images !! k) ∧
    (∀ k, 1 ≤ k ≤ 18 →
       ∃ hk,
         h `prefix_of` hk ∧ hk ++ [status k] `prefix_of` h ++ new ∧
         generated_images' !! k
         = entry_after (generated k (hk ++ [status k])).2
             (generated_images !! k)).
Proof.
  destruct (all_scenes_loop_run (range 1 19) generated_images h)
    as (new & images' & Hrun & Hother & Hthose & _).
  { apply NoDup_seqZ. }
  exists new, images'. split_and!; [done| |].
  - intros k Hk. apply Hother. unfold range. rewrite elem_of_seqZ. lia.
  - intros k Hk. apply Hthose. unfold range. rewrite elem_of_seqZ. lia.
Qed.

(** X20 — whatever the outside world answers, the loop of the
    application reads the scenes file 18 times, once per scene, makes at
    most 18 image requests and sleeps at most 17 times 12 seconds. *)
Theorem all_scenes_loop_bounded
    (generated_images : gmap Z (option string)) (h : history) :
  ∃ new generated_images',
    all_scenes_loop E temp_json_file generated_images h
    = (h ++ new, Return generated_images') ∧
    loads new = 18%nat ∧
    (attempts new ≤ 18)%nat ∧
    0 ≤ slept new ≤ 17 * 12.
Proof.
  destruct (all_scenes_loop_run (range 1 19) generated_images h)
    as (new & images' & Hrun & _ & _ & Hslept & Hattempts & Hloads).
  { apply NoDup_seqZ. }
  exists new, images'.
  change (length (filter (λ k, k < 18) (range 1 19))) with 17%nat in Hslept.
  change (length (range 1 19)) with 18%nat in Hattempts, Hloads.
  split_and!; [done|done|done|lia|lia].
Qed.

End all_scenes.

(** ** The story context *)

Section story_context.
Import imgCreator.

Local Abbreviation no_s t :=
  (Forall (λ c : ascii, c ≠ "s"%char) (list_ascii_of_string t)).

Lemma remove_go_no_s (t : string) :
  no_s t → remove_go "scene_" 0 t = t.
Proof.
  induction t as [|c t IH]; [done|].
  simpl list_ascii_of_string. intros [Hc Ht]%Forall_cons.
  change (remove_go "scene_" 0 (String c t))
    with (if String.prefix "scene_" (String c t)
          then remove_go "scene_" (String.length "scene_" - 1) t
          else String c (remove_go "scene_" 0 t)).
  change (String.prefix "scene_" (String c t))
    with (match ascii_dec "s" c with
          | left _ => String.prefix "cene_" t
          | right _ => false
          end).
  destruct (ascii_dec "s" c) as [<-|_]; [done|].
  by rewrite IH.
Qed.

Lemma remove_go_scene_prefix (t : string) :
  remove_go "scene_" 0 ("scene_" +:+ t) = remove_go "scene_" 0 t.
Proof. by destruct t. Qed.

Lemma pretty_N_char_no_s (x : N) : pretty_N_char x ≠ "s"%char.
Proof. unfold pretty_N_char. by repeat case_match. Qed.

Lemma pretty_N_go_no_s (x : N) (s : string) :
  no_s s → no_s (pretty_N_go x s).
Proof.
  revert s. induction (N.lt_wf_0 x) as [x _ IH]; intros s Hs.
  destruct (decide (x = 0)%N) as [->|Hx].
  - by rewrite pretty_N_go_0.
  - rewrite pretty_N_go_step by lia. apply IH.
    + apply N.div_lt; lia.
    + simpl. apply Forall_cons. split; [apply pretty_N_char_no_s|done].
Qed.

Lemma pretty_Z_no_s (n : Z) : no_s (pretty n).
Proof.
  assert (HN : ∀ x : N, no_s (pretty x)).
  { intros x. unfold pretty, pretty_N.
    destruct (decide (x = 0)%N).
    - simpl. apply Forall_cons. split; [done|constructor].
    - apply pretty_N_go_no_s. constructor. }
  unfold pretty, pretty_Z. destruct n as [|p|p].
  - simpl. apply Forall_cons. split; [done|constructor].
  - apply HN.
  - rewrite string_app_cons. simpl list_ascii_of_string.
    apply Forall_cons. split; [done|]. apply HN.
Qed.

Lemma str_remove_scene_key (n : Z) :
  str_remove "scene_" (scene_key n) = pretty n.
Proof.
  unfold str_remove, scene_key. rewrite decide_False by done.
  rewrite remove_go_scene_prefix. apply remove_go_no_s, pretty_Z_no_s.
Qed.

Lemma bind_Return {A B} (m : M A) (k : A → M B) (h h' : history) (a : A) :
  m h = (h', Return a) → bind m k h = k a h'.
Proof. intros Hm. unfold bind. by rewrite Hm. Qed.

Lemma context_loop_lines (entries : list (Z * scene_obj))
    (lines : list string) (context : string) (h : history) :
  Forall2
    (λ '(n, scene_data) line,
       ∃ script keyword,
         dict_get scene_data "script" = Some script ∧
         dict_get scene_data "main_keyword" = Some keyword ∧
         line = "Scene " +:+ pretty n +:+ ": " +:+ script
                +:+ " (키워드: " +:+ keyword +:+ ")" +:+ nl)
    entries lines →
  for_loop
    (λ '(scene_key, scene_data) context,
       let scene_num := str_remove "scene_" scene_key in
       let! script := subscript scene_data "script" in
       let! main_keyword := subscript scene_data "main_keyword" in
       ret (context +:+ "Scene " +:+ scene_num +:+ ": " +:+ script
                    +:+ " (키워드: " +:+ main_keyword +:+ ")" +:+ nl))
    ((λ '(n, scene_data), (scene_key n, scene_data)) <$> entries) context h
  = (h, Return (context +:+ foldr String.append EmptyString lines)).
Proof.
  intros Hlines. revert context.
  induction Hlines as [|[n scene_data] line entries lines Hline _ IH];
    intros context.
  { simpl. unfold ret. by rewrite string_app_nil_r. }
  destruct Hline as (script & keyword & Hscript & Hkeyword & ->).
  rewrite fmap_cons.
  change (for_loop ?f (?a :: ?l) ?s) with (bind (f a s) (for_loop f l)).
  erewrite bind_Return.
  - rewrite IH. simpl foldr. by rewrite string_app_assoc.
  - cbv beta iota zeta. unfold subscript.
    rewrite Hscript. unfold bind at 1. unfold ret at 1.
    rewrite Hkeyword. unfold bind at 1. unfold ret at 1.
    by rewrite str_remove_scene_key.
Qed.

(** X21 — for a file whose scenes are keyed [scene_n] and hold both
    fields, the story context is its title line followed by one line
    per scene, in the order of the file; the line of [scene_n] starts
    with [Scene n:], the number read back from the key, and carries the
    script and the keyword of that scene.  No exception, no event. *)
Theorem create_all_scenes_context_lines (scenes_data : scenes_file)
    (entries : list (Z * scene_obj)) (lines : list string) (h : history) :
  dict_get scenes_data "scenes"
    = Some ((λ '(n, scene_data), (scene_key n, scene_data)) <$> entries) →
  Forall2
    (λ '(n, scene_data) line,
       ∃ script keyword,
         dict_get scene_data "script" = Some script ∧
         dict_get scene_data "main_keyword" = Some keyword ∧
         line = "Scene " +:+ pretty n +:+ ": " +:+ script
                +:+ " (키워드: " +:+ keyword +:+ ")" +:+ nl)
    entries lines →
  create_all_scenes_context scenes_data h
  = (h, Return (("COMPLETE STORY CONTEXT (All 18 Scenes):" +:+ nl)
                +:+ foldr String.append EmptyString lines)).
Proof.
  intros Hscenes Hlines.
  unfold create_all_scenes_context, subscript. rewrite Hscenes.
  unfold bind at 1. unfold ret at 1.
  by apply context_loop_lines.
Qed.

End story_context.

Lemma create_all_scenes_context_lines_witness :
  imgCreator.create_all_scenes_context
    [("scenes",
      [("scene_1", [("script", "눈이 침침했는데"); ("main_keyword", "침침한눈")]);
       ("scene_12", [("main_keyword", "친구추천"); ("script", "친구가 권하더라고요")])])]
    []
  = ([],
     Return (("COMPLETE STORY CONTEXT (All 18 Scenes):" +:+ imgCreator.nl)
             +:+ foldr String.append EmptyString
                   ["Scene 1: 눈이 침침했는데 (키워드: 침침한눈)" +:+ imgCreator.nl;
                    "Scene 12: 친구가 권하더라고요 (키워드: 친구추천)"
                      +:+ imgCreator.nl])).
Proof.
  apply (create_all_scenes_context_lines _
           [(1, [("script", "눈이 침침했는데"); ("main_keyword", "침침한눈")]);
            (12, [("main_keyword", "친구추천"); ("script", "친구가 권하더라고요")])]).
  - reflexivity.
  - apply Forall2_cons. split; [by eexists _, _|].
    apply Forall2_cons. split; [by eexists _, _|].
    by apply Forall2_nil.
Defined.

(** ** The files the batch writes *)

Section image_files.
Import imgCreator.
Variable E : env.
Variable output_dir : string.

Local Abbreviation scene_path scene_num :=
  (path_join output_dir ("scene_" +:+ pretty scene_num +:+ ".png")).

Lemma written_paths_app (h1 h2 : history) :
  written_paths (h1 ++ h2) = written_paths h1 ++ written_paths h2.
Proof. unfold written_paths. by rewrite omap_app. Qed.

Lemma string_length_app (s t : string) :
  String.length (s +:+ t) = (String.length s + String.length t)%nat.
Proof. induction s as [|c s IH]; simpl; [done|]. by rewrite IH. Qed.

Lemma string_app_inj_r (s s' t : string) : s +:+ t = s' +:+ t → s = s'.
Proof.
  revert s'. induction s as [|c s IH]; intros [|c' s'] Heq; [done|..].
  - apply (f_equal String.length) in Heq.
    rewrite !string_length_app in Heq. simpl in Heq. lia.
  - apply (f_equal String.length) in Heq.
    rewrite !string_length_app in Heq. simpl in Heq. lia.
  - rewrite !string_app_cons in Heq. injection Heq as -> Heq.
    f_equal. by apply IH.
Qed.

(** Different scenes have different output files. *)
Lemma scene_path_inj (n m : Z) : scene_path n = scene_path m → n = m.
Proof.
  unfold path_join. intros Heq.
  assert (Hname : "scene_" +:+ pretty n +:+ ".png"
                  = "scene_" +:+ pretty m +:+ ".png").
  { destruct (decide (output_dir = EmptyString)); [done|].
    destruct (String.eqb _ "/").
    - by apply (inj (String.app output_dir)) in Heq.
    - apply (inj (String.app output_dir)) in Heq.
      by apply (inj (String.app "/")) in Heq. }
  apply (inj (String.app "scene_")) in Hname.
  apply string_app_inj_r in Hname. by apply (inj pretty) in Hname.
Qed.

(** An attempt writes at most one file, the one of its scene. *)
Lemma scene_attempt_writes (scenes_data : scenes_file)
    (all_scenes_context : string) (scene_num : Z) (h : history) :
  ∃ ext,
    (scene_attempt E scenes_data all_scenes_context output_dir scene_num h).1
    = h ++ ext ∧
    (written_paths ext = [] ∨ written_paths ext = [scene_path scene_num]).
Proof.
  assert (Hnone : ∀ out : outcome (option string),
            ∃ ext, (h, out).1 = h ++ ext
                   ∧ (written_paths ext = []
                      ∨ written_paths ext = [scene_path scene_num])).
  { intros out. exists []. rewrite app_nil_r. split; [done|by left]. }
  unfold scene_attempt, subscript.
  destruct (dict_get scenes_data "scenes") as [scenes|]; [|apply Hnone].
  unfold bind at 1. unfold ret at 1.
  destruct (dict_get scenes (scene_key scene_num)) as [scene_data|];
    [|apply Hnone].
  unfold bind at 1. unfold ret at 1.
  destruct (dict_get scene_data "script") as [scene_script|]; [|apply Hnone].
  unfold bind at 1. unfold ret at 1.
  destruct (dict_get scene_data "main_keyword") as [scene_keyword|];
    [|apply Hnone].
  unfold bind at 1. unfold ret at 1.
  erewrite generate_image_run by reflexivity. simpl.
  destruct (images_generate E h _ _) as [url|e].
  2:{ eexists [_]. split; [done|by left]. }
  destruct (requests_get E _ url) as [[status body]|e].
  2:{ eexists [_; _]. rewrite <-app_assoc. split; [done|by left]. }
  destruct (decide (status = 200)) as [_|_].
  2:{ eexists [_; _]. rewrite <-app_assoc. split; [done|by left]. }
  destruct (file_write E _ _ body) as [[]|e].
  - eexists [_; _; _]. rewrite <-!app_assoc. split; [done|by right].
  - eexists [_; _; _]. rewrite <-!app_assoc. split; [done|by right].
Qed.

Lemma batch_loop_writes (scenes_data : scenes_file)
    (all_scenes_context : string) (scene_nums : list Z)
    (results : gmap Z (option string)) (h : history) :
  ∃ new results' written,
    for_loop (scene_iteration E scenes_data all_scenes_context output_dir)
      scene_nums results h
    = (h ++ new, Return results') ∧
    written `sublist_of` scene_nums ∧
    written_paths new = (λ k : Z, scene_path k) <$> written.
Proof.
  revert results h.
  induction scene_nums as [|n rest IH]; intros results h.
  { exists [], results, []. rewrite app_nil_r. done. }
  change (for_loop ?f (?a :: ?l) ?s) with (bind (f a s) (for_loop f l)).
  unfold bind at 1. rewrite scene_iteration_run.
  set (start := h ++ [EvPrint ("🎨 Processing Scene " +:+ pretty n +:+ "/18...")]).
  destruct (scene_attempt_writes scenes_data all_scenes_context n start)
    as (ext & Hext & Hwrites).
  set (r := scene_attempt E scenes_data all_scenes_context output_dir n start)
    in *.
  rewrite Hext.
  set (tail := match r.2 with Return _ => _ | Raise _ => _ end).
  assert (Htail : written_paths tail = []).
  { unfold tail. destruct (r.2) as [image_path|e]; [|done].
    by destruct (decide (n < 18)). }
  destruct (IH (<[n := recorded r.2]> results) ((start ++ ext) ++ tail))
    as (new & results' & written & -> & Hsub & Hpaths).
  exists ([EvPrint ("🎨 Processing Scene " +:+ pretty n +:+ "/18...")]
          ++ ext ++ tail ++ new), results'.
  destruct Hwrites as [Hnone|Hone].
  - exists written. split_and!.
    + f_equal. unfold start. by rewrite <-!app_assoc.
    + by apply sublist_cons.
    + rewrite !written_paths_app, Hnone, Htail, Hpaths. done.
  - exists (n :: written). split_and!.
    + f_equal. unfold start. by rewrite <-!app_assoc.
    + by apply sublist_skip.
    + rewrite !written_paths_app, Hone, Htail, Hpaths. done.
Qed.

(** X22 — the batch writes at most one file per scene, in the order
    of the scenes, each under the name [scene_k.png] of its scene in the
    output directory; no path is written twice, so no image of the run
    overwrites another. *)
Theorem batch_writes_own_files (json_file_path : string) (h : history) :
  ∃ new out written,
    generate_all_scenes_with_rate_limit E json_file_path output_dir h
    = (h ++ new, out) ∧
    written `sublist_of` range 1 19 ∧
    written_paths new = (λ k : Z, scene_path k) <$> written ∧
    NoDup (written_paths new).
Proof.
  assert (Hempty : ∀ new : history,
            written_paths new = [] →
            ([] : list Z) `sublist_of` range 1 19 ∧
            written_paths new = (λ k : Z, scene_path k) <$> [] ∧
            NoDup (written_paths new)).
  { intros new ->. split_and!; [apply sublist_nil_l|done|constructor]. }
  unfold generate_all_scenes_with_rate_limit.
  unfold bind at 1. unfold call at 1.
  destruct (makedirs E h output_dir) as [[]|e].
  2:{ eexists [_], _, []. split; [done|]. by apply Hempty. }
  unfold bind at 1. unfold load_scenes_from_json, call.
  destruct (json_load E _ json_file_path) as [scenes_data|e].
  2:{ eexists [_; _], _, []. rewrite <-app_assoc. split; [done|].
      by apply Hempty. }
  unfold bind at 1.
  pose proof (create_all_scenes_context_silent scenes_data
                ((h ++ [EvMakedirs output_dir]) ++ [EvLoadJson json_file_path]))
    as Hsilent.
  destruct (create_all_scenes_context scenes_data _) as [h' [context|e]];
    simpl in Hsilent; subst h'.
  2:{ eexists [_; _], _, []. rewrite <-app_assoc. split; [done|].
      by apply Hempty. }
  unfold bind at 1. unfold print at 1. unfold emit at 1.
  destruct (batch_loop_writes scenes_data context (range 1 19) ∅
              (((h ++ [EvMakedirs output_dir]) ++ [EvLoadJson json_file_path])
                 ++ [EvPrint "⏱️  Processing with rate limit: 5 images per minute (12 second intervals)"]))
    as (new & results & written & -> & Hsub & Hpaths).
  eexists ([_; _; _] ++ new), _, written.
  assert (Hall : written_paths ([EvMakedirs output_dir;
                                 EvLoadJson json_file_path;
                                 EvPrint "⏱️  Processing with rate limit: 5 images per minute (12 second intervals)"]
                                ++ new)
                 = (λ k : Z, scene_path k) <$> written).
  { by rewrite written_paths_app, Hpaths. }
  split_and!.
  - by rewrite <-!app_assoc.
  - done.
  - done.
  - rewrite Hall. apply NoDup_fmap_2_strong.
    + intros n m _ _. apply scene_path_inj.
    + eapply sublist_NoDup; [|exact Hsub]. apply NoDup_seqZ.
Qed.

End image_files.

(** ** A result column that cannot be prepared *)

Section sheet_failures.
Import sheet_script.

Lemma list_index_None (x : string) (l : list string) :
  x ∉ l → list_index x l = None.
Proof.
  induction l as [|y l IH]; [done|].
  intros [Hne Hnot]%not_elem_of_cons. simpl.
  rewrite decide_False by done. by rewrite IH.
Qed.

(** [prepare_column] on a sheet whose header row never shows the
    column: it raises, after the header read and as much of the
    widening, the header cell and the second read as went through. *)
Lemma prepare_column_never_shows (S : sheet_env) (new_column_name : string)
    (h : history) (headers : list string) :
  let n := Z.of_nat (length headers) in
  (∀ h', row_values S h' 1 = Return headers) →
  new_column_name ∉ headers →
  ∃ new e,
    prepare_column S new_column_name h = (h ++ new, Raise e) ∧
    sheet_calls new
      `prefix_of` [EvRowValues 1; EvResizeColumns (n + 10);
                   EvUpdateCell 1 (n + 1) new_column_name; EvRowValues 1].
Proof.
  intros n Hrow Hnot.
  unfold prepare_column. unfold bind at 1. unfold call at 1. rewrite Hrow.
  rewrite decide_True by done.
  unfold bind at 1. unfold try_except.
  unfold bind at 1. unfold call at 1. fold n.
  destruct (resize_columns S _ (n + 10)) as [[]|e].
  2:{ unfold bind, print, emit, raise. eexists [_; _; _], e.
      split; [by rewrite <-!app_assoc|].
      by exists [EvUpdateCell 1 (n + 1) new_column_name; EvRowValues 1]. }
  unfold bind at 1. unfold print at 1. unfold emit at 1.
  unfold bind at 1. unfold call at 1.
  destruct (update_cell S _ 1 (n + 1) new_column_name) as [[]|e].
  2:{ unfold bind, print, emit, raise. eexists [_; _; _; _; _], e.
      split; [by rewrite <-!app_assoc|].
      by exists [EvRowValues 1]. }
  unfold bind at 1. unfold print at 1. unfold emit at 1.
  unfold call at 1. rewrite Hrow.
  rewrite (list_index_None _ _ Hnot).
  unfold bind, raise. eexists [_; _; _; _; _; _], _.
  split; [by rewrite <-!app_assoc|done].
Qed.

(** X23 — on a sheet whose header row never shows the result column
    (absent at first, and still absent when read again after the header
    cell was written), the script sends no cell values at all: it stops
    in the preparation of the column, whether the widening and the
    header cell went through or not, reports the error, and still
    returns the sorted rows. *)
Theorem analyze_header_never_shows (S : sheet_env)
    (input_sheet_name new_column_name : string)
    (completed : list (Z * outcome string)) (h : history)
    (headers : list string) :
  let n := Z.of_nat (length headers) in
  let total_result := sort_by_key row_index (completed_rows completed) in
  (∀ h', row_values S h' 1 = Return headers) →
  new_column_name ∉ headers →
  ∃ new,
    analyze_data_with_ai_and_update_sheet S input_sheet_name new_column_name
      completed h
    = (h ++ new, Return total_result) ∧
    sheet_calls new
      `prefix_of` [EvRowValues 1; EvResizeColumns (n + 10);
                   EvUpdateCell 1 (n + 1) new_column_name; EvRowValues 1] ∧
    ∀ data, EvValuesBatchUpdate data ∉ new.
Proof.
  intros n total_result Hrow Hnot.
  unfold analyze_data_with_ai_and_update_sheet, collect.
  destruct (collect_loop_calls completed [] h) as (new1 & Hcollect & Hquiet).
  unfold bind at 1. rewrite Hcollect. simpl app. fold total_result.
  unfold bind at 1. unfold try_except at 1. unfold bind at 1.
  destruct (prepare_column_never_shows S new_column_name (h ++ new1) headers
              Hrow Hnot) as (new2 & e & -> & Hcalls).
  unfold print, emit, ret.
  set (line := EvPrint _).
  exists (new1 ++ new2 ++ [line]).
  assert (Hall : sheet_calls (new1 ++ new2 ++ [line]) = sheet_calls new2).
  { rewrite !sheet_calls_app, Hquiet. simpl. by rewrite app_nil_r. }
  split_and!.
  - by rewrite <-!app_assoc.
  - by rewrite Hall.
  - intros data Hin.
    assert (Hcall : EvValuesBatchUpdate data
                    ∈ sheet_calls (new1 ++ new2 ++ [line])).
    { unfold sheet_calls. by apply list_elem_of_filter. }
    rewrite Hall in Hcall.
    destruct Hcalls as [rest Hrest].
    assert (Hin' : EvValuesBatchUpdate data ∈ sheet_calls new2 ++ rest).
    { apply elem_of_app. by left. }
    rewrite <-Hrest in Hin'. fold n in Hin'.
    rewrite !elem_of_cons, elem_of_nil in Hin'.
    by destruct Hin' as [?|[?|[?|[?|[]]]]].
Qed.

End sheet_failures.

Lemma analyze_header_never_shows_witness :
  ∃ new,
    sheet_script.analyze_data_with_ai_and_update_sheet
      Examples.sheet_header_never_shows "Sheet1" "result"
      Examples.completed_5_2_9 []
    = ([] ++ new,
       Return (sheet_script.sort_by_key sheet_script.row_index
                 (completed_rows Examples.completed_5_2_9))) ∧
    sheet_calls new
      `prefix_of` [EvRowValues 1;
                   EvResizeColumns (Z.of_nat (length ["input"]) + 10);
                   EvUpdateCell 1 (Z.of_nat (length ["input"]) + 1) "result";
                   EvRowValues 1] ∧
    ∀ data, EvValuesBatchUpdate data ∉ new.
Proof.
  apply (analyze_header_never_shows Examples.sheet_header_never_shows
           "Sheet1" "result" Examples.completed_5_2_9 [] ["input"]).
  - intros h'. reflexivity.
  - apply (bool_decide_unpack _). vm_compute. exact I.
Defined.
